(** * libmsgpack: a shallow embedding of [mp.hpp]

    The header implements a MessagePack codec over one caller-owned buffer:
    a bounds-checked read cursor and write cursor ([namespace stream]) and,
    on top of them, the encoder and the single-step decoder
    ([struct mp::MessagePack]).

    Conventions of the embedding.
    - Every C++ integer is a [Z]; a conversion to a [w]-bit unsigned type is
      [wrap w], to a [w]-bit signed type [to_signed w].
    - The caller's buffer is a [list Z] of bytes (the [Memory]); both cursors
      alias it, so it is threaded through the operations next to them.
    - A pointer argument is an [option]: [None] is [nullptr], [Some bs] points
      at an object whose bytes are [bs].  The cursor's own [buffer_] pointer
      is kept as a flag (null or bound to the caller's block), and the
      pointer comparison [buffer_ + position_ + count > buffer_ + stream_size_]
      is the comparison of the offsets.
    - The header only builds with MSVC (the [limits] namespace uses its
      [i8]/[ui32] literal suffixes), whose targets are little-endian: an
      object of a plain integer type is laid out least significant byte
      first.
    - The build is the default one, without [_UNSAFE]: the guards are on. *)

From Stdlib Require Import ZArith List Lia Bool.
From stdpp Require Import base list.
Import ListNotations.
Local Open Scope Z_scope.

(** ** Fixed-width integers and their bytes *)

Definition wrap (w : Z) (v : Z) : Z := v mod 2 ^ w.

Definition to_signed (w : Z) (v : Z) : Z :=
  let u := wrap w v in if u <? 2 ^ (w - 1) then u else u - 2 ^ w.

(** The [n] bytes of [v], least significant first, and the value of a
    sequence of bytes read that way. *)
Fixpoint le_split (n : nat) (v : Z) : list Z :=
  match n with
  | O => []
  | S n' => v mod 256 :: le_split n' (v / 256)
  end.

Fixpoint le_combine (bs : list Z) : Z :=
  match bs with
  | [] => 0
  | b :: bs' => b mod 256 + 256 * le_combine bs'
  end.

Definition is_byte (b : Z) : Prop := 0 <= b < 256.

(** Most significant byte first: the order of the wire. *)
Definition be_bytes (n : nat) (v : Z) : list Z := rev (le_split n v).

(** [bswap_intrin16/32/64]: the compiler intrinsics reverse the bytes of
    their operand. *)
Definition bswap (n : nat) (v : Z) : Z := le_combine (rev (le_split n v)).
Definition bswap_intrin16 (v : Z) : Z := bswap 2 v.
Definition bswap_intrin32 (v : Z) : Z := bswap 4 v.
Definition bswap_intrin64 (v : Z) : Z := bswap 8 v.

(** The plain-old-data types the cursors are instantiated with. *)
Inductive Ty := mp_u8 | mp_i8 | mp_u16 | mp_i16 | mp_u32 | mp_i32 | mp_u64 | mp_i64.

Definition sizeof (t : Ty) : nat :=
  match t with
  | mp_u8 | mp_i8 => 1
  | mp_u16 | mp_i16 => 2
  | mp_u32 | mp_i32 => 4
  | mp_u64 | mp_i64 => 8
  end%nat.

Definition is_signed (t : Ty) : bool :=
  match t with
  | mp_i8 | mp_i16 | mp_i32 | mp_i64 => true
  | _ => false
  end.

(** [static_cast<Ty>(v)]. *)
Definition cast (t : Ty) (v : Z) : Z :=
  let w := 8 * Z.of_nat (sizeof t) in
  if is_signed t then to_signed w v else wrap w v.

(** The object representation of a value of type [t], and back. *)
Definition to_bytes (t : Ty) (v : Z) : list Z := le_split (sizeof t) v.
Definition of_bytes (t : Ty) (bs : list Z) : Z :=
  cast t (le_combine (firstn (sizeof t) bs)).

Definition is_null {A} (p : option A) : bool :=
  match p with None => true | Some _ => false end.

(** ** namespace stream *)

Module stream.

Definition Memory := list Z.

(** [MemoryReader] / [MemoryWriter]: a pointer to a function of [dst], [src]
    and [size] that returns nothing.  The function is given the bytes at
    [dst] and at [src] and leaves new bytes at [dst]. *)
Definition MemoryReader := list Z -> list Z -> Z -> list Z.
Definition MemoryWriter := MemoryReader.

(** The function the tests and the README inject. *)
Definition memcpy : MemoryReader :=
  fun dst src size =>
    firstn (Z.to_nat size) src ++ skipn (Z.to_nat size) dst.

Record Stream := mkStream {
  position_ : Z;
  stream_size_ : Z;
  buffer_ : bool
}.

Definition position (s : Stream) : Z := position_ s.
Definition stream_size (s : Stream) : Z := stream_size_ s.

Definition set_position (p : Z) (s : Stream) : Stream :=
  mkStream p (stream_size_ s) (buffer_ s).

(** *** StreamReader *)

Record StreamReader := mkReader {
  rbase : Stream;
  reader_ : option MemoryReader
}.

(** [explicit operator bool]. *)
Definition reader_ok (r : StreamReader) : bool :=
  negb (is_null (reader_ r)) && buffer_ (rbase r).

Definition reader_reset (r : StreamReader) : StreamReader :=
  mkReader (mkStream 0 0 false) None.

Definition reader_reset_temporal (r : StreamReader) : StreamReader :=
  mkReader (mkStream 0 0 false) (reader_ r).

Definition reader_reset_cursor (r : StreamReader) : StreamReader :=
  mkReader (set_position 0 (rbase r)) (reader_ r).

Definition reader_set (position stream_size : Z) (buffer : bool)
    (reader : option MemoryReader) (r : StreamReader) : StreamReader :=
  mkReader (mkStream position stream_size buffer) reader.

Definition _read_and_advance (count : Z) (dst : option (list Z)) (peek : bool)
    (r : StreamReader) (m : Memory) : option (list Z) * StreamReader :=
  let read_pos := position_ (rbase r) in
  if (count =? 0) || is_null dst || (count >=? stream_size_ (rbase r))
     || (read_pos + count >? stream_size_ (rbase r)) || negb (reader_ok r)
  then (dst, r)
  else
    match dst, reader_ r with
    | Some d, Some f =>
        (Some (f d (skipn (Z.to_nat read_pos) m) count),
         if peek then r
         else mkReader (set_position (wrap 32 (read_pos + count)) (rbase r))
                       (reader_ r))
    | _, _ => (dst, r)
    end.

Definition _read_pod (t : Ty) (peek : bool) (r : StreamReader) (m : Memory)
    : Z * StreamReader :=
  let pod := repeat 0 (sizeof t) in
  let '(pod', r') := _read_and_advance (Z.of_nat (sizeof t)) (Some pod) peek r m in
  (of_bytes t (default pod pod'), r').

Definition read_u32 := _read_pod mp_u32 false.
Definition read_u64 := _read_pod mp_u64 false.
Definition read_i32 := _read_pod mp_i32 false.
Definition read_i64 := _read_pod mp_i64 false.
Definition read_u16 := _read_pod mp_u16 false.
Definition read_i16 := _read_pod mp_i16 false.
Definition read_u8 := _read_pod mp_u8 false.
Definition read_i8 := _read_pod mp_i8 false.

Definition peek_u32 := _read_pod mp_u32 true.
Definition peek_u64 := _read_pod mp_u64 true.
Definition peek_i32 := _read_pod mp_i32 true.
Definition peek_i64 := _read_pod mp_i64 true.
Definition peek_u16 := _read_pod mp_u16 true.
Definition peek_i16 := _read_pod mp_i16 true.
Definition peek_u8 := _read_pod mp_u8 true.
Definition peek_i8 := _read_pod mp_i8 true.

Definition read (count : Z) (dst : option (list Z)) (r : StreamReader) (m : Memory)
    : option (list Z) * StreamReader :=
  _read_and_advance count dst false r m.

(** *** StreamWriter *)

Record StreamWriter := mkWriter {
  wbase : Stream;
  writer_ : option MemoryWriter
}.

Definition writer_ok (w : StreamWriter) : bool :=
  negb (is_null (writer_ w)) && buffer_ (wbase w).

Definition writer_reset (w : StreamWriter) : StreamWriter :=
  mkWriter (mkStream 0 0 false) None.

Definition writer_reset_temporal (w : StreamWriter) : StreamWriter :=
  mkWriter (mkStream 0 0 false) (writer_ w).

Definition writer_reset_cursor (w : StreamWriter) : StreamWriter :=
  mkWriter (set_position 0 (wbase w)) (writer_ w).

(** [mmset( buffer_, 0, stream_size_ )], then the cursor is rewound. *)
Definition clear (w : StreamWriter) (m : Memory) : StreamWriter * Memory :=
  let n := Z.to_nat (stream_size_ (wbase w)) in
  (writer_reset_cursor w,
   if buffer_ (wbase w) then repeat 0 (Nat.min n (length m)) ++ skipn n m else m).

Definition writer_set (position stream_size : Z) (buffer : bool)
    (writer : option MemoryWriter) (w : StreamWriter) : StreamWriter :=
  mkWriter (mkStream position stream_size buffer) writer.

Definition _write_and_advance (count : Z) (src : option (list Z))
    (w : StreamWriter) (m : Memory) : StreamWriter * Memory :=
  let write_pos := position_ (wbase w) in
  if (count =? 0) || is_null src || (count >=? stream_size_ (wbase w))
     || (write_pos + count >? stream_size_ (wbase w)) || negb (writer_ok w)
  then (w, m)
  else
    match src, writer_ w with
    | Some s, Some f =>
        (mkWriter (set_position (wrap 32 (write_pos + count)) (wbase w))
                  (writer_ w),
         firstn (Z.to_nat write_pos) m
           ++ f (skipn (Z.to_nat write_pos) m) s count)
    | _, _ => (w, m)
    end.

Definition write_pod (t : Ty) (value : Z) (w : StreamWriter) (m : Memory)
    : StreamWriter * Memory :=
  let pod := to_bytes t value in
  _write_and_advance (Z.of_nat (sizeof t)) (Some pod) w m.

Definition write_u32 := write_pod mp_u32.
Definition write_u64 := write_pod mp_u64.
Definition write_i32 := write_pod mp_i32.
Definition write_i64 := write_pod mp_i64.
Definition write_u16 := write_pod mp_u16.
Definition write_i16 := write_pod mp_i16.
Definition write_u8 := write_pod mp_u8.
Definition write_i8 := write_pod mp_i8.

Definition write (count : Z) (src : option (list Z)) (w : StreamWriter) (m : Memory)
    : StreamWriter * Memory :=
  _write_and_advance count src w m.

(** [set_temporal]: [reset_temporal( )], then position, size and buffer are
    assigned; the registered function stays. *)
Definition reader_set_temporal (position stream_size : Z) (buffer : bool)
    (r : StreamReader) : StreamReader :=
  mkReader (mkStream position stream_size buffer) (reader_ (reader_reset_temporal r)).

Definition writer_set_temporal (position stream_size : Z) (buffer : bool)
    (w : StreamWriter) : StreamWriter :=
  mkWriter (mkStream position stream_size buffer) (writer_ (writer_reset_temporal w)).

End stream.

(** Cursors bound to the caller's block of [n] bytes with [memcpy], at a
    given position. *)
Definition reader_at (pos n : Z) : stream.StreamReader :=
  stream.mkReader (stream.mkStream pos n true) (Some stream.memcpy).
Definition writer_at (pos n : Z) : stream.StreamWriter :=
  stream.mkWriter (stream.mkStream pos n true) (Some stream.memcpy).

(** The [StreamFixture] of the tests: both cursors over one zeroed block. *)
Definition fixture_reader (n : Z) : stream.StreamReader :=
  stream.reader_set 0 n true (Some stream.memcpy) (stream.mkReader (stream.mkStream 0 0 false) None).
Definition fixture_writer (n : Z) : stream.StreamWriter :=
  stream.writer_set 0 n true (Some stream.memcpy) (stream.mkWriter (stream.mkStream 0 0 false) None).
Definition zeroed (n : Z) : stream.Memory := repeat 0 (Z.to_nat n).

(** ** namespace mp *)

Module value_limits.
Definition FixArrayMax := 15.
Definition Array16Max := 65535.
Definition Array32Max := 4294967295.
Definition FixMapMax := 15.
Definition Map16Max := 65535.
Definition Map32Max := 4294967295.
Definition PosFixIntMax := 127.
End value_limits.

Module limits.
Definition uint8_max := 0xff.
Definition uint16_max := 0xffff.
Definition uint32_max := 0xffffffff.
Definition uint64_max := 0xffffffffffffffff.
End limits.

(** [enum class MPMarker : mp_u8]: a byte with named values.  A variable of
    the type can hold any byte, named or not, which is what
    [static_cast<MPMarker>( raw )] relies on. *)
Module MPMarker.
Definition PosFixInt := 0x00.
Definition FixMap := 0x80.
Definition FixArray := 0x90.
Definition FixStr := 0xa0.
Definition Nil := 0xc0.
Definition Unused := 0xc1.
Definition False := 0xc2.
Definition True := 0xc3.
Definition Bin8 := 0xc4.
Definition Bin16 := 0xc5.
Definition Bin32 := 0xc6.
Definition Ext8 := 0xc7.
Definition Ext16 := 0xc8.
Definition Ext32 := 0xc9.
Definition Float32 := 0xca.
Definition Float64 := 0xcb.
Definition Uint8 := 0xcc.
Definition Uint16 := 0xcd.
Definition Uint32 := 0xce.
Definition Uint64 := 0xcf.
Definition Int8 := 0xd0.
Definition Int16 := 0xd1.
Definition Int32 := 0xd2.
Definition Int64 := 0xd3.
Definition FixExt1 := 0xd4.
Definition FixExt2 := 0xd5.
Definition FixExt4 := 0xd6.
Definition FixExt8 := 0xd7.
Definition FixExt16 := 0xd8.
Definition Str8 := 0xd9.
Definition Str16 := 0xda.
Definition Str32 := 0xdb.
Definition Array16 := 0xdc.
Definition Array32 := 0xdd.
Definition Map16 := 0xde.
Definition Map32 := 0xdf.
Definition NegFixInt := 0xe0.
End MPMarker.

(** Membership in the label list of a [case]. *)
Definition one_of (mk : Z) (labels : list Z) : bool :=
  existsb (Z.eqb mk) labels.

(** [struct MPDecodeResult].  The anonymous union [result] is kept as its 32
    bytes (the 31 of [as_fixstr], padded to the alignment of [as_u64]); every
    member starts at offset 0, and the [data] of a fixext follows its one
    [type] byte. *)
Record MPDecodeResult := mkResult {
  marker : Z;
  size : Z;
  result : list Z
}.

Definition set_marker (mk : Z) (dr : MPDecodeResult) : MPDecodeResult :=
  mkResult mk (size dr) (result dr).
Definition set_size (n : Z) (dr : MPDecodeResult) : MPDecodeResult :=
  mkResult (marker dr) (wrap 32 n) (result dr).

(** [dr.result.as_<t> = v] and [dr.result.as_<t>]. *)
Definition set_as (t : Ty) (v : Z) (dr : MPDecodeResult) : MPDecodeResult :=
  mkResult (marker dr) (size dr) (list_inserts 0 (to_bytes t v) (result dr)).
Definition get_as (t : Ty) (dr : MPDecodeResult) : Z := of_bytes t (result dr).

Definition set_as_bool (b : bool) (dr : MPDecodeResult) : MPDecodeResult :=
  mkResult (marker dr) (size dr) (<[0%nat := if b then 1 else 0]> (result dr)).
Definition as_bool (dr : MPDecodeResult) : bool :=
  negb (nth 0 (result dr) 0 =? 0).

(** One byte of the union: [as_fixextN.type] is byte 0, [as_fixextN.data[i]]
    is byte [1 + i], [as_fixstr[i]] is byte [i]. *)
Definition set_byte (off : nat) (v : Z) (dr : MPDecodeResult) : MPDecodeResult :=
  mkResult (marker dr) (size dr) (<[off := wrap 8 v]> (result dr)).
Definition result_byte (off : nat) (dr : MPDecodeResult) : Z := nth off (result dr) 0.

Definition valid (dr : MPDecodeResult) : bool := negb (marker dr =? MPMarker.Unused).

Definition is_fixext (marker : Z) : bool :=
  (marker =? MPMarker.FixExt1) || (marker =? MPMarker.FixExt2)
  || (marker =? MPMarker.FixExt4) || (marker =? MPMarker.FixExt8)
  || (marker =? MPMarker.FixExt16).

Definition is_array (marker : Z) : bool :=
  (marker =? MPMarker.FixArray) || (marker =? MPMarker.Array16)
  || (marker =? MPMarker.Array32).

Definition is_integer (marker : Z) : bool :=
  (marker =? MPMarker.PosFixInt) || (marker =? MPMarker.NegFixInt)
  || (marker =? MPMarker.Uint8) || (marker =? MPMarker.Int8)
  || (marker =? MPMarker.Uint16) || (marker =? MPMarker.Int16)
  || (marker =? MPMarker.Uint32) || (marker =? MPMarker.Int32)
  || (marker =? MPMarker.Uint64) || (marker =? MPMarker.Int64).

Definition is_str (marker : Z) : bool :=
  (marker =? MPMarker.FixStr) || (marker =? MPMarker.Str8)
  || (marker =? MPMarker.Str16) || (marker =? MPMarker.Str32).

Definition is_bin (marker : Z) : bool :=
  (marker =? MPMarker.Bin8) || (marker =? MPMarker.Bin16) || (marker =? MPMarker.Bin32).

Definition is_ext (marker : Z) : bool :=
  (marker =? MPMarker.Ext8) || (marker =? MPMarker.Ext16) || (marker =? MPMarker.Ext32).

Definition is_bool (marker : Z) : bool :=
  (marker =? MPMarker.True) || (marker =? MPMarker.False).

Definition is_nil (marker : Z) : bool := marker =? MPMarker.Nil.

(** [struct MessagePack]: the two cursors, and the object's own copies of
    the buffer pointer and of the reader function. *)
Record MessagePack := mkMessagePack {
  sr_ : stream.StreamReader;
  wr_ : stream.StreamWriter;
  buffer_ : bool;
  reader_ : option stream.MemoryReader
}.

Definition default_MessagePack : MessagePack :=
  mkMessagePack (stream.mkReader (stream.mkStream 0 0 false) None)
                (stream.mkWriter (stream.mkStream 0 0 false) None)
                false None.

(** The member functions run on the object and on the buffer both cursors
    point to. *)
Definition St : Type := MessagePack * stream.Memory.
Definition M (A : Type) : Type := St -> A * St.

Definition ret {A} (a : A) : M A := fun st => (a, st).
Definition bind {A B} (c : M A) (k : A -> M B) : M B :=
  fun st => let '(a, st') := c st in k a st'.

Declare Scope mp_scope.
Delimit Scope mp_scope with mp.
Notation "x <- c ;; k" := (bind c (fun x => k))
  (at level 100, c at next level, right associativity) : mp_scope.
Notation "c ;; k" := (bind c (fun _ => k))
  (at level 100, right associativity) : mp_scope.
Local Open Scope mp_scope.

Definition run {A} (c : M A) (st : St) : St := snd (c st).
Definition eval {A} (c : M A) (st : St) : A := fst (c st).

(** Calls on [sr_] and [wr_]. *)
Definition on_sr {A} (f : stream.StreamReader -> stream.Memory -> A * stream.StreamReader)
    : M A :=
  fun '(p, m) =>
    let '(a, r) := f (sr_ p) m in
    (a, (mkMessagePack r (wr_ p) (buffer_ p) (reader_ p), m)).

Definition on_wr (f : stream.StreamWriter -> stream.Memory -> stream.StreamWriter * stream.Memory)
    : M unit :=
  fun '(p, m) =>
    let '(w, m') := f (wr_ p) m in
    (tt, (mkMessagePack (sr_ p) w (buffer_ p) (reader_ p), m')).

Definition initialize_streams (position stream_size : Z) (buffer : bool)
    (reader : option stream.MemoryReader) (writer : option stream.MemoryWriter)
    : M unit :=
  fun '(p, m) =>
    (tt, (mkMessagePack (stream.reader_set position stream_size buffer reader (sr_ p))
                        (stream.writer_set position stream_size buffer writer (wr_ p))
                        buffer reader, m)).

Definition stream_size (p : MessagePack) : Z := stream.stream_size (stream.rbase (sr_ p)).
Definition read_cursor (p : MessagePack) : Z := stream.position (stream.rbase (sr_ p)).
Definition write_cursor (p : MessagePack) : Z := stream.position (stream.wbase (wr_ p)).

Definition reset_cursors : M unit :=
  fun '(p, m) =>
    (tt, (mkMessagePack (stream.reader_reset_cursor (sr_ p))
                        (stream.writer_reset_cursor (wr_ p))
                        (buffer_ p) (reader_ p), m)).


(** [reset_all]: [wr_.clear( )], [sr_.reset( )], [wr_.reset( )]; the object's
    own [buffer_] and [reader_] are left. *)
Definition reset_all : M unit :=
  on_wr stream.clear ;;
  fun '(p, m) =>
    (tt, (mkMessagePack (stream.reader_reset (sr_ p)) (stream.writer_reset (wr_ p))
                        (buffer_ p) (reader_ p), m)).

(** [reset_temporal]: the buffer is cleared and dropped, the functions
    stay. *)
Definition reset_temporal : M unit :=
  on_wr stream.clear ;;
  fun '(p, m) =>
    (tt, (mkMessagePack (stream.reader_reset_temporal (sr_ p))
                        (stream.writer_reset_temporal (wr_ p))
                        false (reader_ p), m)).

Definition write_marker (marker : Z) : M unit :=
  on_wr (stream.write_u8 (cast mp_u8 marker)).

(** [peek_marker]: the [switch] lists every enumerator; all but [Unused]
    return the byte, [Unused] and a byte that is no enumerator return
    [Unused]. *)
Definition peek_marker : M Z :=
  byte <- on_sr stream.peek_u8 ;;
  if one_of byte
       [MPMarker.PosFixInt; MPMarker.FixMap; MPMarker.FixArray; MPMarker.FixStr;
        MPMarker.Nil; MPMarker.False; MPMarker.True;
        MPMarker.Bin8; MPMarker.Bin16; MPMarker.Bin32;
        MPMarker.Ext8; MPMarker.Ext16; MPMarker.Ext32;
        MPMarker.Float32; MPMarker.Float64;
        MPMarker.Uint8; MPMarker.Uint16; MPMarker.Uint32; MPMarker.Uint64;
        MPMarker.Int8; MPMarker.Int16; MPMarker.Int32; MPMarker.Int64;
        MPMarker.FixExt1; MPMarker.FixExt2; MPMarker.FixExt4; MPMarker.FixExt8;
        MPMarker.FixExt16;
        MPMarker.Str8; MPMarker.Str16; MPMarker.Str32;
        MPMarker.Array16; MPMarker.Array32; MPMarker.Map16; MPMarker.Map32;
        MPMarker.NegFixInt]
  then ret byte
  else if byte =? MPMarker.Unused then ret MPMarker.Unused
  else ret MPMarker.Unused.

Definition write_negfixint (value : Z) : M unit :=
  let value := cast mp_i8 value in
  on_wr (stream.write_u8 (cast mp_u8 (Z.lor 0xe0 (cast mp_u8 (Z.land value 0x1F))))).

(** The length header and the payload of the [Bin] and [Str] families:
    [marker8], [marker16] and [marker32] are the three markers of the
    family. *)
Definition write_family (marker8 marker16 marker32 : Z)
    (pointee : option (list Z)) (size : Z) : M unit :=
  let length := cast mp_u32 size in
  length <-
    (if size <=? limits.uint8_max then
       let length := Z.land length 0xff in
       write_marker marker8 ;;
       on_wr (stream.write_u8 (cast mp_u8 length)) ;;
       ret length
     else if size <=? limits.uint16_max then
       let length := Z.land length 0xffff in
       write_marker marker16 ;;
       on_wr (stream.write_u16 (bswap_intrin16 (cast mp_u16 length))) ;;
       ret length
     else if size <=? limits.uint32_max then
       let length := Z.land length 0xffffffff in
       write_marker marker32 ;;
       on_wr (stream.write_u32 (bswap_intrin32 length)) ;;
       ret length
     else ret length) ;;
  on_wr (stream.write length pointee).

(** [write_raw_value( data, size, kind )].  [data] is the 64-bit argument;
    [pointee] is what [reinterpret_cast< mp_u8* >( data )] points to in the
    branches that use [data] as an address. *)
Definition write_raw_value (data : Z) (pointee : option (list Z)) (size : Z) (kind : Z)
    : M unit :=
  if kind =? MPMarker.NegFixInt then
    on_wr (stream.write_u8
             (cast mp_u8 (Z.lor 0xe0 (cast mp_u8 (cast mp_i8 (Z.land data 0x1F))))))
  else if kind =? MPMarker.PosFixInt then
    on_wr (stream.write_u8 (cast mp_u8 (Z.land data 0x7f)))
  else if kind =? MPMarker.FixStr then
    let length := cast mp_u8 (Z.land size 0x1f) in
    on_wr (stream.write_u8 (cast mp_u8 (Z.lor (cast mp_u8 kind) length))) ;;
    on_wr (stream.write length pointee)
  else if (kind =? MPMarker.Nil) || (kind =? MPMarker.False) || (kind =? MPMarker.True) then
    write_marker kind
  else if (kind =? MPMarker.Bin8) || (kind =? MPMarker.Bin16) || (kind =? MPMarker.Bin32) then
    write_family MPMarker.Bin8 MPMarker.Bin16 MPMarker.Bin32 pointee size
  else if (kind =? MPMarker.Str8) || (kind =? MPMarker.Str16) || (kind =? MPMarker.Str32) then
    write_family MPMarker.Str8 MPMarker.Str16 MPMarker.Str32 pointee size
  else
    write_marker kind ;;
    if (kind =? MPMarker.Uint8) || (kind =? MPMarker.Int8) then
      on_wr (stream.write_u8 (cast mp_u8 (Z.land data 0xff)))
    else if (kind =? MPMarker.Uint16) || (kind =? MPMarker.Int16) then
      on_wr (stream.write_u16 (bswap_intrin16 (cast mp_u16 (Z.land data 0xffff))))
    else if (kind =? MPMarker.Uint32) || (kind =? MPMarker.Int32) then
      on_wr (stream.write_u32 (bswap_intrin32 (cast mp_u32 (Z.land data 0xffffffff))))
    else
      (if (kind =? MPMarker.Uint64) || (kind =? MPMarker.Int64)
       then on_wr (stream.write_u64 (bswap_intrin64 data)) else ret tt) ;;
      (if kind =? MPMarker.FixExt1 then on_wr (stream.write 2 pointee) else ret tt) ;;
      (if kind =? MPMarker.FixExt2 then on_wr (stream.write 3 pointee) else ret tt) ;;
      (if kind =? MPMarker.FixExt4 then on_wr (stream.write 5 pointee) else ret tt) ;;
      (if kind =? MPMarker.FixExt8 then on_wr (stream.write 9 pointee) else ret tt) ;;
      (if kind =? MPMarker.FixExt16 then on_wr (stream.write 17 pointee) else ret tt).

Definition start_array (num_elem : Z) : M unit :=
  let num_elem := cast mp_u64 num_elem in
  if num_elem <=? value_limits.FixArrayMax then
    on_wr (stream.write_u8
             (cast mp_u8 (Z.lor (cast mp_u8 MPMarker.FixArray)
                                (cast mp_u8 (Z.land num_elem 0xf)))))
  else if num_elem <=? value_limits.Array16Max then
    write_marker MPMarker.Array16 ;;
    on_wr (stream.write_u16 (bswap_intrin16 (cast mp_u16 (Z.land num_elem 0xffff))))
  else
    write_marker MPMarker.Array32 ;;
    on_wr (stream.write_u32 (bswap_intrin32 (cast mp_u32 (Z.land num_elem 0xffffffff)))).

Definition start_map (num_pairs : Z) : M unit :=
  let num_pairs := cast mp_u64 num_pairs in
  if num_pairs <=? value_limits.Map16Max then
    on_wr (stream.write_u8
             (cast mp_u8 (Z.lor (cast mp_u8 MPMarker.FixMap)
                                (cast mp_u8 (Z.land num_pairs 0xf)))))
  else if num_pairs <=? value_limits.Map32Max then
    write_marker MPMarker.Map16 ;;
    on_wr (stream.write_u16 (bswap_intrin16 (cast mp_u16 (Z.land num_pairs 0xffff))))
  else
    write_marker MPMarker.Map32 ;;
    on_wr (stream.write_u32 (bswap_intrin32 (cast mp_u32 (Z.land num_pairs 0xffffffff)))).

(** The byte-order-converting reads of [MessagePack]. *)
Definition read_u64 : M Z := v <- on_sr stream.read_u64 ;; ret (bswap_intrin64 v).
Definition read_u32 : M Z := v <- on_sr stream.read_u32 ;; ret (bswap_intrin32 v).
Definition read_u16 : M Z := v <- on_sr stream.read_u16 ;; ret (bswap_intrin16 v).
Definition read_u8 : M Z := on_sr stream.read_u8.
Definition read_i64 : M Z :=
  v <- on_sr stream.read_i64 ;; ret (cast mp_i64 (bswap_intrin64 (cast mp_u64 v))).
Definition read_i32 : M Z :=
  v <- on_sr stream.read_i32 ;; ret (cast mp_i32 (bswap_intrin32 (cast mp_u32 v))).
Definition read_i16 : M Z :=
  v <- on_sr stream.read_i16 ;; ret (cast mp_i16 (bswap_intrin16 (cast mp_u16 v))).
Definition read_i8 : M Z := on_sr stream.read_i8.

(** The typed writers.  A parameter of type [t] converts its argument with
    [cast t]; passing it on as the 64-bit [data] converts it again. *)
Definition write_u32 (value : Z) : M unit :=
  write_raw_value (cast mp_u64 (cast mp_u32 value)) None 4 MPMarker.Uint32.
Definition write_u64 (value : Z) : M unit :=
  write_raw_value (cast mp_u64 value) None 8 MPMarker.Uint64.
Definition write_i32 (value : Z) : M unit :=
  write_raw_value (cast mp_u64 (cast mp_i32 value)) None 4 MPMarker.Int32.
Definition write_i64 (value : Z) : M unit :=
  write_raw_value (cast mp_u64 (cast mp_i64 value)) None 8 MPMarker.Int64.
Definition write_u16 (value : Z) : M unit :=
  write_raw_value (cast mp_u64 (cast mp_u16 value)) None 2 MPMarker.Uint16.
Definition write_i16 (value : Z) : M unit :=
  write_raw_value (cast mp_u64 (cast mp_i16 value)) None 2 MPMarker.Int16.
Definition write_u8 (value : Z) : M unit :=
  write_raw_value (cast mp_u64 (cast mp_u8 value)) None 1 MPMarker.Uint8.
Definition write_i8 (value : Z) : M unit :=
  write_raw_value (cast mp_u64 (cast mp_i8 value)) None 1 MPMarker.Int8.

Definition write_posfixint (value : Z) : M unit :=
  write_raw_value (cast mp_u64 (cast mp_u8 value)) None 1 MPMarker.PosFixInt.

Definition write_fixint (value : Z) : M unit :=
  let value := cast mp_i8 value in
  if value >? 0 then write_posfixint value else write_negfixint value.

Definition write_uint (value : Z) : M unit :=
  let value := cast mp_u64 value in
  if value <=? value_limits.PosFixIntMax then write_posfixint (Z.land value 0x7F)
  else if value <=? limits.uint8_max then write_u8 (cast mp_u8 value)
  else if value <=? limits.uint16_max then write_u16 (cast mp_u16 value)
  else if value <=? limits.uint32_max then write_u32 (cast mp_u32 value)
  else write_u64 value.

Definition write_cstr (string : option (list Z)) (length : Z) : M unit :=
  write_raw_value 0 string (cast mp_u64 length) MPMarker.Str8.
Definition write_bytes (bytes : option (list Z)) (count : Z) : M unit :=
  write_raw_value 0 bytes (cast mp_u64 count) MPMarker.Bin8.

Definition write_true : M unit := write_raw_value 0 None 1 MPMarker.True.
Definition write_false : M unit := write_raw_value 0 None 1 MPMarker.False.
Definition write_boolean (value : bool) : M unit :=
  if value then write_true else write_false.

Definition write_fix_ext1 (byte_array : option (list Z)) : M unit :=
  write_raw_value 0 byte_array 2 MPMarker.FixExt1.
Definition write_fix_ext2 (byte_array : option (list Z)) : M unit :=
  write_raw_value 0 byte_array 3 MPMarker.FixExt2.
Definition write_fix_ext4 (byte_array : option (list Z)) : M unit :=
  write_raw_value 0 byte_array 5 MPMarker.FixExt4.
Definition write_fix_ext8 (byte_array : option (list Z)) : M unit :=
  write_raw_value 0 byte_array 9 MPMarker.FixExt8.
Definition write_fix_ext16 (byte_array : option (list Z)) : M unit :=
  write_raw_value 0 byte_array 17 MPMarker.FixExt16.

(** [sr_.read( count, p )] where [p] points [off] bytes into the union. *)
Definition read_into (off : nat) (count : Z) (dr : MPDecodeResult) : M MPDecodeResult :=
  let tail := skipn off (result dr) in
  dst <- on_sr (stream.read count (Some tail)) ;;
  ret (mkResult (marker dr) (size dr) (firstn off (result dr) ++ default tail dst)).

(** The [switch] of [decode_single]: the point-value markers. *)
Definition decode_switch (dr : MPDecodeResult) : M MPDecodeResult :=
  let mk := marker dr in
  if one_of mk [MPMarker.PosFixInt; MPMarker.FixMap; MPMarker.FixArray;
                MPMarker.FixStr; MPMarker.NegFixInt] then ret dr
  else if one_of mk [MPMarker.Nil; MPMarker.False] then
    ret (set_as_bool false (set_size 1 dr))
  else if mk =? MPMarker.Unused then ret dr
  else if mk =? MPMarker.True then
    ret (set_as_bool true (set_size 1 dr))
  else if one_of mk [MPMarker.Str8; MPMarker.Bin8] then
    n <- read_u8 ;; ret (set_size n dr)
  else if one_of mk [MPMarker.Str16; MPMarker.Bin16] then
    n <- read_u16 ;; ret (set_size n dr)
  else if one_of mk [MPMarker.Str32; MPMarker.Bin32] then
    n <- read_u32 ;; ret (set_size n dr)
  else if mk =? MPMarker.Ext8 then
    n <- read_u8 ;; ret (set_size (cast mp_u32 n) dr)
  else if mk =? MPMarker.Ext16 then
    n <- read_u16 ;; ret (set_size (cast mp_u32 n) dr)
  else if mk =? MPMarker.Ext32 then
    n <- read_u32 ;; ret (set_size n dr)
  else if one_of mk [MPMarker.Float32; MPMarker.Float64] then ret dr
  else if mk =? MPMarker.Uint8 then
    v <- read_u8 ;; ret (set_as mp_u8 v (set_size 1 dr))
  else if mk =? MPMarker.Uint16 then
    v <- read_u16 ;; ret (set_as mp_u16 v (set_size 2 dr))
  else if mk =? MPMarker.Uint32 then
    v <- read_u32 ;; ret (set_as mp_u32 v (set_size 4 dr))
  else if mk =? MPMarker.Uint64 then
    v <- on_sr stream.read_u64 ;; ret (set_as mp_u64 v (set_size 8 dr))
  else if mk =? MPMarker.Int8 then
    v <- on_sr stream.read_i8 ;; ret (set_as mp_i8 v (set_size 1 dr))
  else if mk =? MPMarker.Int16 then
    v <- read_i16 ;; ret (set_as mp_i16 v (set_size 2 dr))
  else if mk =? MPMarker.Int32 then
    v <- read_i32 ;; ret (set_as mp_i32 v (set_size 4 dr))
  else if mk =? MPMarker.Int64 then
    v <- read_i64 ;; ret (set_as mp_i64 v (set_size 8 dr))
  else if mk =? MPMarker.FixExt1 then
    let dr := set_size 2 dr in
    t <- read_u8 ;;
    let dr := set_byte 0 t dr in
    d <- read_u8 ;;
    ret (set_byte 1 d dr)
  else if mk =? MPMarker.FixExt2 then
    let dr := set_size 3 dr in
    t <- read_u8 ;;
    read_into 1 2 (set_byte 0 t dr)
  else if mk =? MPMarker.FixExt4 then
    let dr := set_size 5 dr in
    t <- read_u8 ;;
    read_into 1 4 (set_byte 0 t dr)
  else if mk =? MPMarker.FixExt8 then
    let dr := set_size 9 dr in
    t <- read_u8 ;;
    read_into 1 8 (set_byte 0 t dr)
  else if mk =? MPMarker.FixExt16 then
    let dr := set_size 17 dr in
    t <- read_u8 ;;
    read_into 1 16 (set_byte 0 t dr)
  else if one_of mk [MPMarker.Map16; MPMarker.Array16] then
    n <- on_sr stream.read_u16 ;; ret (set_size (cast mp_u32 n) dr)
  else if one_of mk [MPMarker.Map32; MPMarker.Array32] then
    n <- on_sr stream.read_u32 ;; ret (set_size n dr)
  else ret dr.

(** The cascade after the [switch]: "Edge cases are handled with lower
    priority to prevent type conflicts." *)
Definition decode_fallback (raw : Z) (dr : MPDecodeResult) : M MPDecodeResult :=
  if Z.land raw 0x80 =? 0 then
    ret (set_as mp_u8 (cast mp_u8 (Z.land raw 0x7f))
           (set_size 1 (set_marker MPMarker.PosFixInt dr)))
  else if Z.land raw 0xe0 =? 0xe0 then
    ret (set_as mp_i8 (cast mp_i8 (Z.land raw 0x1F - 0x20))
           (set_size 1 (set_marker MPMarker.NegFixInt dr)))
  else if Z.land raw 0x80 =? 0x80 then
    ret (set_size (cast mp_u32 (Z.land raw 0xf)) (set_marker MPMarker.FixMap dr))
  else if Z.land raw 0x90 =? 0x90 then
    ret (set_size (cast mp_u32 (Z.land raw 0xf)) (set_marker MPMarker.FixArray dr))
  else if Z.land raw 0xa0 =? 0xa0 then
    let dr := set_size (Z.land raw 0x1f) (set_marker MPMarker.FixStr dr) in
    read_into 0 (size dr) dr
  else ret dr.

Definition decode_single : M MPDecodeResult :=
  raw <- read_u8 ;;
  let dr := mkResult 0 0 (repeat 0 32) in
  let mk := raw in
  let dr := set_as mp_u64 0 (set_size 0 (set_marker mk dr)) in
  dr <- decode_switch dr ;;
  if negb (is_fixext mk) && (size dr =? 0) then decode_fallback raw dr
  else ret dr.

(** The fixture of the [MessagePack] tests: [initialize_streams( 0, n, buffer,
    memcpy, memcpy )] over a zeroed block of [n] bytes. *)
Definition fixture (n : Z) : St :=
  run (initialize_streams 0 n true (Some stream.memcpy) (Some stream.memcpy))
      (default_MessagePack, zeroed n).

(** What a decode reports, for the examples below. *)
Definition report (t : Ty) (dr : MPDecodeResult) : Z * Z * Z :=
  (marker dr, size dr, get_as t dr).

(** ** Properties of the cursors: vocabulary *)

(** A use of a cursor pair over one buffer, as [StreamFixture] has them:
    the raw [read] and [write], and the typed ones ([read_u8] is
    [OpReadPod mp_u8 false], [peek_i16] is [OpReadPod mp_i16 true],
    [write_u32 v] is [OpWritePod mp_u32 v], and so on). *)
Inductive Op :=
  | OpRead (count : Z) (dst : option (list Z))
  | OpReadPod (t : Ty) (peek : bool)
  | OpWrite (count : Z) (src : option (list Z))
  | OpWritePod (t : Ty) (value : Z).

Definition Cursors : Type := stream.StreamReader * stream.StreamWriter * stream.Memory.

Definition step (op : Op) (c : Cursors) : Cursors :=
  let '(r, w, m) := c in
  match op with
  | OpRead count dst => (snd (stream.read count dst r m), w, m)
  | OpReadPod t peek => (snd (stream._read_pod t peek r m), w, m)
  | OpWrite count src => let '(w', m') := stream.write count src w m in (r, w', m')
  | OpWritePod t value => let '(w', m') := stream.write_pod t value w m in (r, w', m')
  end.

Definition run_ops (ops : list Op) (c : Cursors) : Cursors :=
  fold_left (fun c op => step op c) ops c.

(** The [WriteOverflow] and [ReadOOB] loops of the tests in small: more
    writes, of one byte and of four, and more reads than the buffer holds. *)
Definition overflow_ops : list Op :=
  repeat (OpWritePod mp_u8 97) 6 ++ [OpWritePod mp_u32 0xbadf00d]
  ++ repeat (OpReadPod mp_u8 false) 6.

(** [count] is a [const mp_u32]. *)
Definition op_typed (op : Op) : Prop :=
  match op with
  | OpRead count _ | OpWrite count _ => 0 <= count < 2 ^ 32
  | OpReadPod _ _ | OpWritePod _ _ => True
  end.

(** The invariant of the data model: [0 <= position <= capacity]. *)
Definition in_bounds (s : stream.Stream) : Prop :=
  0 <= stream.position_ s <= stream.stream_size_ s.

(** The conditions under which an operation is to be refused, one by one. *)
Definition refused (count : Z) (null_pointer : bool) (s : stream.Stream)
    (no_copy_fn : bool) : Prop :=
  count = 0 \/ null_pointer = true \/ count >= stream.stream_size_ s
  \/ stream.position_ s + count > stream.stream_size_ s
  \/ no_copy_fn = true \/ stream.buffer_ s = false.

(** The same for an operation of a cursor pair; a typed operation passes the
    address of its own local, never a null pointer. *)
Definition op_refused (op : Op) (r : stream.StreamReader) (w : stream.StreamWriter)
    : Prop :=
  match op with
  | OpRead count dst =>
      refused count (is_null dst) (stream.rbase r) (is_null (stream.reader_ r))
  | OpReadPod t _ =>
      refused (Z.of_nat (sizeof t)) false (stream.rbase r) (is_null (stream.reader_ r))
  | OpWrite count src =>
      refused count (is_null src) (stream.wbase w) (is_null (stream.writer_ w))
  | OpWritePod t _ =>
      refused (Z.of_nat (sizeof t)) false (stream.wbase w) (is_null (stream.writer_ w))
  end.

(** The values a run of typed reads returns, in order. *)
Fixpoint read_pods (ts : list (Ty * bool)) (r : stream.StreamReader) (m : stream.Memory)
    : list Z :=
  match ts with
  | [] => []
  | (t, peek) :: ts' =>
      let '(v, r') := stream._read_pod t peek r m in v :: read_pods ts' r' m
  end.

(** A cursor with nothing left to read. *)
Definition exhausted (r : stream.StreamReader) : Prop :=
  stream.stream_size_ (stream.rbase r) <= stream.position_ (stream.rbase r).

Definition all_zero (bs : list Z) : Prop := Forall (fun b => b = 0) bs.

(** ** Properties of the decoder: vocabulary *)

(** The markers whose [case] reads only a length or count field. *)
Definition header_markers : list Z :=
  [MPMarker.Bin8; MPMarker.Bin16; MPMarker.Bin32;
   MPMarker.Ext8; MPMarker.Ext16; MPMarker.Ext32;
   MPMarker.Str8; MPMarker.Str16; MPMarker.Str32;
   MPMarker.Array16; MPMarker.Array32; MPMarker.Map16; MPMarker.Map32].

(** The field that the [case] of such a marker reads. *)
Definition header_field (mk : Z) : M Z :=
  if one_of mk [MPMarker.Str8; MPMarker.Bin8; MPMarker.Ext8] then read_u8
  else if one_of mk [MPMarker.Str16; MPMarker.Bin16; MPMarker.Ext16] then read_u16
  else if one_of mk [MPMarker.Str32; MPMarker.Bin32; MPMarker.Ext32] then read_u32
  else if one_of mk [MPMarker.Map16; MPMarker.Array16] then on_sr stream.read_u16
  else on_sr stream.read_u32.

(** The result [decode_single] starts from: [MPDecodeResult dr { }] with the
    marker byte stored. *)
Definition initial_result (raw : Z) : MPDecodeResult :=
  set_as mp_u64 0 (set_size 0 (set_marker raw (mkResult 0 0 (repeat 0 32)))).

(** The codec of the fixture with its read cursor at [rp] and its write
    cursor at [wp]. *)
Definition codec (rp wp n : Z) : MessagePack :=
  mkMessagePack (stream.mkReader (stream.mkStream rp n true) (Some stream.memcpy))
                (stream.mkWriter (stream.mkStream wp n true) (Some stream.memcpy))
                true (Some stream.memcpy).

(** A buffer that holds the given bytes at its start, the read cursor at 0. *)
Definition holding (n : Z) (bytes : list Z) : St :=
  run (on_wr (stream.write (Z.of_nat (length bytes)) (Some bytes))) (fixture n).

(** The bytes at the start of the buffer. *)
Definition wire (k : nat) (st : St) : list Z := firstn k (snd st).

(** ** Encodings in the buffer: vocabulary *)

(** The buffer with the bytes [bs] put at offset [p]: what [memcpy] makes
    of it through the write cursor. *)
Definition store (m : stream.Memory) (p : Z) (bs : list Z) : stream.Memory :=
  firstn (Z.to_nat p) m ++ bs ++ skipn (length bs) (skipn (Z.to_nat p) m).

(** The bytes of the buffer from offset [p] on. *)
Definition from (p : Z) (m : stream.Memory) : list Z := skipn (Z.to_nat p) m.

Definition len (bs : list Z) : Z := Z.of_nat (length bs).

(** A cursor at [p] over a buffer of capacity [n] can take [k] more bytes,
    in pieces: the guard wants every piece smaller than the capacity and
    the end within it; [n] is a 32-bit size and the block has that many
    bytes. *)
Definition room (k p n : Z) (m : stream.Memory) : Prop :=
  0 <= p /\ p + k <= n /\ k < n /\ n < 2 ^ 32 /\ n <= len m.

(** [c] appends the bytes [enc] at the write cursor, whenever there is
    room, and does nothing else. *)
Definition encodes (c : M unit) (enc : list Z) : Prop :=
  forall rp wp n m,
    room (len enc) wp n m ->
    c (codec rp wp n, m) = (tt, (codec rp (wp + len enc) n, store m wp enc)).

(** With the bytes [enc] at the read cursor, [decode_single] returns [dr]
    and leaves the cursor behind them. *)
Definition decodes (enc : list Z) (dr : MPDecodeResult) : Prop :=
  forall rp wp n m rest,
    from rp m = enc ++ rest ->
    room (len enc) rp n m ->
    decode_single (codec rp wp n, m) = (dr, (codec (rp + len enc) wp n, m)).

(** The result record with an integer stored in the union. *)
Definition int_result (mk : Z) (t : Ty) (v : Z) : MPDecodeResult :=
  set_as t v (set_size (Z.of_nat (sizeof t)) (initial_result mk)).

(** The result record with bytes at the start of the union. *)
Definition bytes_result (mk sz : Z) (bs : list Z) : MPDecodeResult :=
  mkResult mk sz (bs ++ skipn (length bs) (repeat 0 32)).

(** [k] calls of [MessagePack::read_u8], the way a caller fetches a payload
    whose length a header gave. *)
Fixpoint read_bytes (k : nat) : M (list Z) :=
  match k with
  | O => ret []
  | S k' => b <- read_u8 ;; bs <- read_bytes k' ;; ret (b :: bs)
  end.

(** Both cursors within a capacity that is [n] for both. *)
Definition bounded (n : Z) (p : MessagePack) : Prop :=
  in_bounds (stream.rbase (sr_ p)) /\ in_bounds (stream.wbase (wr_ p))
  /\ stream.stream_size_ (stream.rbase (sr_ p)) = n
  /\ stream.stream_size_ (stream.wbase (wr_ p)) = n.

(** A codec whose cursors have lost a buffer or a copy function: never
    initialized, or reset. *)
Definition unusable (p : MessagePack) : Prop :=
  stream.reader_ok (sr_ p) = false /\ stream.writer_ok (wr_ p) = false.

(** What [decode_single] returns when its first read gives 0. *)
Definition zero_result : MPDecodeResult :=
  set_as mp_u8 0 (set_size 1 (set_marker MPMarker.PosFixInt (initial_result 0))).

(** ** Typed values *)

Inductive Item :=
  | IUint8 (v : Z) | IInt8 (v : Z)
  | IUint16 (v : Z) | IInt16 (v : Z)
  | IUint32 (v : Z) | IInt32 (v : Z)
  | IInt64 (v : Z)
  | IBool (b : bool).

Definition write_item (i : Item) : M unit :=
  match i with
  | IUint8 v => write_u8 v
  | IInt8 v => write_i8 v
  | IUint16 v => write_u16 v
  | IInt16 v => write_i16 v
  | IUint32 v => write_u32 v
  | IInt32 v => write_i32 v
  | IInt64 v => write_i64 v
  | IBool b => write_boolean b
  end.

Definition item_marker (i : Item) : Z :=
  match i with
  | IUint8 _ => MPMarker.Uint8
  | IInt8 _ => MPMarker.Int8
  | IUint16 _ => MPMarker.Uint16
  | IInt16 _ => MPMarker.Int16
  | IUint32 _ => MPMarker.Uint32
  | IInt32 _ => MPMarker.Int32
  | IInt64 _ => MPMarker.Int64
  | IBool b => if b then MPMarker.True else MPMarker.False
  end.

Definition item_ty (i : Item) : Ty :=
  match i with
  | IUint8 _ | IBool _ => mp_u8
  | IInt8 _ => mp_i8
  | IUint16 _ => mp_u16
  | IInt16 _ => mp_i16
  | IUint32 _ => mp_u32
  | IInt32 _ => mp_i32
  | IInt64 _ => mp_i64
  end.

Definition item_value (i : Item) : Z :=
  match i with
  | IUint8 v | IInt8 v | IUint16 v | IInt16 v | IUint32 v | IInt32 v | IInt64 v =>
      cast (item_ty i) v
  | IBool b => if b then 1 else 0
  end.

Definition item_payload (i : Item) : list Z :=
  match i with
  | IUint8 v | IInt8 v | IUint16 v | IInt16 v | IUint32 v | IInt32 v | IInt64 v =>
      be_bytes (sizeof (item_ty i)) v
  | IBool _ => []
  end.

Definition item_wire (i : Item) : list Z := item_marker i :: item_payload i.

Definition item_result (i : Item) : MPDecodeResult :=
  match i with
  | IBool b => set_as_bool b (set_size 1 (initial_result (item_marker i)))
  | _ => int_result (item_marker i) (item_ty i) (item_value i)
  end.

Fixpoint write_items (items : list Item) : M unit :=
  match items with
  | [] => ret tt
  | i :: items' => write_item i ;; write_items items'
  end.

Fixpoint decode_n (k : nat) : M (list MPDecodeResult) :=
  match k with
  | O => ret []
  | S k' => dr <- decode_single ;; drs <- decode_n k' ;; ret (dr :: drs)
  end.

Definition items_wire (items : list Item) : list Z := concat (map item_wire items).

(** What a caller sees of a result for an item. *)
Definition reads_as (i : Item) (dr : MPDecodeResult) : Prop :=
  marker dr = item_marker i
  /\ size dr = Z.of_nat (sizeof (item_ty i))
  /\ get_as (item_ty i) dr = item_value i.

(** The byte [write_fixint] stores for a value of type [mp_i8]. *)
Definition fixint_byte (v : Z) : Z := if v >? 0 then v else 0xe0 + v mod 32.

(** What [decode_single] makes of a byte below [0x80] or from [0xe0] on. *)
Definition fixint_result (b : Z) : MPDecodeResult :=
  if b <? 0x80
  then set_as mp_u8 b (set_size 1 (set_marker MPMarker.PosFixInt (initial_result b)))
  else set_as mp_i8 (b - 256) (set_size 1 (set_marker MPMarker.NegFixInt (initial_result b))).

(** The bytes [peek_marker] returns as they are. *)
Definition named_marker (b : Z) : bool :=
  (b =? 0x00) || (b =? 0x80) || (b =? 0x90) || (b =? 0xa0)
  || ((0xc0 <=? b) && (b <=? 0xe0)).

(** The two families with a length header and a payload. *)
Inductive Blob := Str | Bin.

Definition write_blob (k : Blob) (data : option (list Z)) (length : Z) : M unit :=
  match k with
  | Str => write_cstr data length
  | Bin => write_bytes data length
  end.

(** The width in bytes of the length field for a length. *)
Definition length_width (L : Z) : nat :=
  if L <=? 255 then 1 else if L <=? 65535 then 2 else 4.

Definition blob_marker (k : Blob) (L : Z) : Z :=
  match k, length_width L with
  | Str, 1%nat => MPMarker.Str8
  | Str, 2%nat => MPMarker.Str16
  | Str, _ => MPMarker.Str32
  | Bin, 1%nat => MPMarker.Bin8
  | Bin, 2%nat => MPMarker.Bin16
  | Bin, _ => MPMarker.Bin32
  end.

Definition blob_header (k : Blob) (L : Z) : list Z :=
  blob_marker k L :: be_bytes (length_width L) L.

Definition blob_wire (k : Blob) (L : Z) (s : list Z) : list Z :=
  blob_header k L ++ firstn (Z.to_nat L) s.

(** The five fixext kinds: [MPFixExt1] .. [MPFixExt16] are one [type] byte
    and 1, 2, 4, 8 or 16 [data] bytes. *)
Inductive FixExt := Ext1 | Ext2 | Ext4 | Ext8 | Ext16.

Definition ext_data (e : FixExt) : nat :=
  match e with Ext1 => 1 | Ext2 => 2 | Ext4 => 4 | Ext8 => 8 | Ext16 => 16 end%nat.

Definition ext_marker (e : FixExt) : Z :=
  match e with
  | Ext1 => MPMarker.FixExt1
  | Ext2 => MPMarker.FixExt2
  | Ext4 => MPMarker.FixExt4
  | Ext8 => MPMarker.FixExt8
  | Ext16 => MPMarker.FixExt16
  end.

Definition write_fix_ext (e : FixExt) (byte_array : option (list Z)) : M unit :=
  match e with
  | Ext1 => write_fix_ext1 byte_array
  | Ext2 => write_fix_ext2 byte_array
  | Ext4 => write_fix_ext4 byte_array
  | Ext8 => write_fix_ext8 byte_array
  | Ext16 => write_fix_ext16 byte_array
  end.

Definition ext_wire (e : FixExt) (arr : list Z) : list Z :=
  ext_marker e :: firstn (S (ext_data e)) arr.

(** A call of the codec's interface. *)
Inductive Call :=
  | CWriteRaw (data : Z) (pointee : option (list Z)) (size : Z) (kind : Z)
  | CNegFixInt (value : Z)
  | CStartArray (num_elem : Z)
  | CStartMap (num_pairs : Z)
  | CDecode
  | CPeekMarker
  | CResetCursors.

Definition do_call (c : Call) : M unit :=
  match c with
  | CWriteRaw data pointee size kind => write_raw_value data pointee size kind
  | CNegFixInt value => write_negfixint value
  | CStartArray num_elem => start_array num_elem
  | CStartMap num_pairs => start_map num_pairs
  | CDecode => _ <- decode_single ;; ret tt
  | CPeekMarker => _ <- peek_marker ;; ret tt
  | CResetCursors => reset_cursors
  end.

Fixpoint do_calls (cs : list Call) : M unit :=
  match cs with
  | [] => ret tt
  | c :: cs' => do_call c ;; do_calls cs'
  end.

(** [c] keeps both cursors within the capacity [n], and returns a value with
    the property [Q]. *)
Definition keeps {A} (n : Z) (c : M A) (Q : A -> Prop) : Prop :=
  forall p m, bounded n p ->
    bounded n (fst (snd (c (p, m)))) /\ Q (fst (c (p, m))).

(** [c] changes nothing when the write cursor is not usable. *)
Definition inert {A} (c : M A) : Prop :=
  forall p m, stream.writer_ok (wr_ p) = false -> snd (c (p, m)) = (p, m).

(** The answers of the eight predicates of [MPDecodeResult] for a marker. *)
Definition classes (mk : Z) : list bool :=
  [is_fixext mk; is_array mk; is_integer mk; is_str mk; is_bin mk; is_ext mk;
   is_bool mk; is_nil mk].

(** The enumerators for which [decode_single] leaves the size 0 and has no
    case of its own in the cascade. *)
Definition never_reported : list Z :=
  [MPMarker.FixArray; MPMarker.FixStr; MPMarker.Float32; MPMarker.Float64;
   MPMarker.Unused].

(** [ReadBytes]: three bytes written, then read back one by one. *)
Example stream_read_bytes :
  let '(w, m) := stream.write 3 (Some [97; 98; 99]) (fixture_writer 0x200) (zeroed 0x200) in
  let '(a, r1) := stream.read_u8 (fixture_reader 0x200) m in
  let '(b, r2) := stream.read_u8 r1 m in
  let '(c, r3) := stream.read_u8 r2 m in
  (a, b, c, stream.position (stream.rbase r3), stream.position (stream.wbase w), length m)
  = (97, 98, 99, 3, 3, 512%nat).
Proof. vm_compute. reflexivity. Qed.

(** [ReadOOB]: 0x400 one-byte writes into the 0x200-byte buffer, then 0x400
    reads: the first 0x200 return ['a'], the others 0. *)
Example stream_read_oob :
  let '(r, w, m) := run_ops (repeat (OpWritePod mp_u8 97) 0x400)
                            (reader_at 0 0x200, writer_at 0 0x200, zeroed 0x200) in
  (read_pods (repeat (mp_u8, false) 0x400) r m, stream.position (stream.wbase w))
  = (repeat 97 0x200 ++ repeat 0 0x200, 0x200).
Proof. vm_compute. reflexivity. Qed.

(** [WriteOverflow]: 0x100 four-byte writes, then 0x100 eight-byte writes
    after rewinding, both end with the cursor at [stream_size]. *)
Example stream_write_overflow :
  let '(_, w, m) := run_ops (repeat (OpWritePod mp_u32 0xbadf00d) 0x100)
                            (reader_at 0 0x200, writer_at 0 0x200, zeroed 0x200) in
  let '(w0, m0) := stream.clear (stream.writer_reset_cursor w) m in
  let '(_, w', _) := run_ops (repeat (OpWritePod mp_u64 0xbadf00dbadf00d) 0x100)
                             (reader_at 0 0x200, w0, m0) in
  (stream.position (stream.wbase w), stream.position (stream.wbase w0),
   stream.position (stream.wbase w'))
  = (0x200, 0, 0x200).
Proof. vm_compute. reflexivity. Qed.

(** [Test8], [Test16], [Test32] of [tests.cpp], and the README's usage. *)
Example test_8 :
  eval (write_u8 0xa ;; a <- decode_single ;;
        write_i8 (-125) ;; b <- decode_single ;;
        ret (get_as mp_u8 a, get_as mp_i8 b)) (fixture 0x200)
  = (0xa, -125).
Proof. vm_compute. reflexivity. Qed.

Example test_16 :
  eval (write_u16 0xffff ;; a <- decode_single ;;
        write_i16 0xfffe ;; b <- decode_single ;;
        ret (get_as mp_u16 a, get_as mp_i16 b)) (fixture 0x200)
  = (0xffff, -2).
Proof. vm_compute. reflexivity. Qed.

Example test_32 :
  eval (write_u32 0xffffffff ;; a <- decode_single ;;
        write_i32 0xFFFFFFFE ;; b <- decode_single ;;
        ret (get_as mp_u32 a, get_as mp_i32 b)) (fixture 0x200)
  = (0xffffffff, -2).
Proof. vm_compute. reflexivity. Qed.

Example test_64 :
  eval (write_u64 0xffffffffffffffff ;; a <- decode_single ;;
        write_i64 0xfffffffffffffffe ;; b <- decode_single ;;
        ret (get_as mp_u64 a, get_as mp_i64 b)) (fixture 0x200)
  = (0xffffffffffffffff, -2).
Proof. vm_compute. reflexivity. Qed.

Example readme_usage :
  eval (write_u8 0xa ;; write_uint 0xa ;;
        a <- decode_single ;; b <- decode_single ;;
        ret (marker a, marker b)) (fixture 0x1000)
  = (MPMarker.Uint8, MPMarker.PosFixInt).
Proof. vm_compute. reflexivity. Qed.

(** [TestFixExt1] and [TestFixExt8]. *)
Example test_fixext1 :
  eval (write_fix_ext1 (Some [0xa; 0xb]) ;; dr <- decode_single ;;
        ret (marker dr, size dr, result_byte 0 dr, result_byte 1 dr)) (fixture 0x200)
  = (MPMarker.FixExt1, 2, 0xa, 0xb).
Proof. vm_compute. reflexivity. Qed.

Example test_fixext8 :
  let st := run (write_fix_ext8 (Some [0xa; 0xb; 0xc; 0xd; 0xe; 0xf; 0xa; 0xb; 0xc]))
                (fixture 0x200) in
  let '(dr, st') := decode_single st in
  (write_cursor (fst st), read_cursor (fst st), read_cursor (fst st'),
   marker dr, size dr, firstn 9 (result dr))
  = (10, 0, 10, MPMarker.FixExt8, 9, [0xa; 0xb; 0xc; 0xd; 0xe; 0xf; 0xa; 0xb; 0xc]).
Proof. vm_compute. reflexivity. Qed.

(** ** Bytes and byte order *)

Section Bytes.

Lemma length_le_split (n : nat) (v : Z) : length (le_split n v) = n.
Proof.
  revert v. induction n as [|n IH]; intros v; cbn; [reflexivity|].
  rewrite IH. reflexivity.
Qed.

Lemma le_split_bytes (n : nat) (v : Z) : Forall is_byte (le_split n v).
Proof.
  revert v. induction n as [|n IH]; intros v; cbn; constructor.
  - unfold is_byte. apply Z.mod_pos_bound. reflexivity.
  - apply IH.
Qed.

Lemma le_combine_range (bs : list Z) : 0 <= le_combine bs < 256 ^ Z.of_nat (length bs).
Proof.
  induction bs as [|b bs IH]; cbn [le_combine length].
  - cbn. lia.
  - rewrite Nat2Z.inj_succ, Z.pow_succ_r by lia.
    pose proof (Z.mod_pos_bound b 256 eq_refl). lia.
Qed.

Lemma le_combine_split (n : nat) (v : Z) :
  le_combine (le_split n v) = v mod 256 ^ Z.of_nat n.
Proof.
  revert v. induction n as [|n IH]; intros v; cbn [le_split le_combine].
  - cbn. rewrite Z.mod_1_r. reflexivity.
  - rewrite IH, Nat2Z.inj_succ, Z.pow_succ_r by lia.
    rewrite Z.mod_mod by lia.
    rewrite (Z.rem_mul_r v 256 (256 ^ Z.of_nat n)); [reflexivity|lia|].
    apply Z.pow_pos_nonneg; lia.
Qed.

Lemma le_split_combine (bs : list Z) :
  Forall is_byte bs -> le_split (length bs) (le_combine bs) = bs.
Proof.
  induction 1 as [|b bs Hb Hbs IH]; cbn [length le_split le_combine]; [reflexivity|].
  unfold is_byte in Hb.
  rewrite (Z.mod_small b 256) by lia.
  f_equal.
  - rewrite (Z.mul_comm 256), Z.mod_add by lia. apply Z.mod_small. lia.
  - rewrite (Z.mul_comm 256), Z.div_add by lia.
    rewrite Z.div_small by lia. exact IH.
Qed.

Lemma le_split_mod (n : nat) (v : Z) : le_split n (v mod 256 ^ Z.of_nat n) = le_split n v.
Proof.
  rewrite <- le_combine_split. rewrite <- (length_le_split n v) at 1.
  apply le_split_combine, le_split_bytes.
Qed.

Lemma le_combine_zeros (k : nat) : le_combine (repeat 0 k) = 0.
Proof. induction k as [|k IH]; cbn [repeat le_combine]; [reflexivity|]. rewrite IH. reflexivity. Qed.

Lemma le_combine_padded (bs : list Z) (k : nat) :
  le_combine (bs ++ repeat 0 k) = le_combine bs.
Proof.
  induction bs as [|b bs IH]; cbn [app le_combine].
  - apply le_combine_zeros.
  - rewrite IH. reflexivity.
Qed.

Lemma bswap_range (n : nat) (v : Z) : 0 <= bswap n v < 256 ^ Z.of_nat n.
Proof.
  unfold bswap. pose proof (le_combine_range (rev (le_split n v))) as H.
  rewrite length_rev, length_le_split in H. exact H.
Qed.

(** The bytes of a swapped value are the bytes of the value, most
    significant first. *)
Lemma le_split_bswap (n : nat) (v : Z) : le_split n (bswap n v) = be_bytes n v.
Proof.
  unfold bswap, be_bytes.
  rewrite <- (length_le_split n v) at 1. rewrite <- length_rev.
  apply le_split_combine. apply Forall_rev. apply le_split_bytes.
Qed.

Lemma bswap_involutive (n : nat) (v : Z) : bswap n (bswap n v) = v mod 256 ^ Z.of_nat n.
Proof.
  unfold bswap at 1. rewrite le_split_bswap. unfold be_bytes.
  rewrite rev_involutive. apply le_combine_split.
Qed.

Lemma bswap_mod (n : nat) (v : Z) : bswap n (v mod 256 ^ Z.of_nat n) = bswap n v.
Proof. unfold bswap. rewrite le_split_mod. reflexivity. Qed.

Lemma bswap_zero (n : nat) (v : Z) : bswap n v = 0 -> v mod 256 ^ Z.of_nat n = 0.
Proof.
  intros H. rewrite <- bswap_involutive, H. unfold bswap.
  assert (Z0 : forall k, le_split k 0 = repeat 0 k).
  { induction k as [|k IH]; cbn [le_split repeat]; [reflexivity|].
    change (0 mod 256) with 0. change (0 / 256) with 0. rewrite IH. reflexivity. }
  rewrite Z0, rev_repeat. apply le_combine_zeros.
Qed.

End Bytes.

(** ** The cursors *)

Section Cursor.

Import stream.

Lemma wrap_small (w v : Z) : 0 <= v < 2 ^ w -> wrap w v = v.
Proof. intros H. unfold wrap. apply Z.mod_small. exact H. Qed.

Lemma wrap_le (w v : Z) : 0 <= w -> 0 <= v -> 0 <= wrap w v <= v.
Proof.
  intros Hw Hv. unfold wrap.
  assert (0 < 2 ^ w) by (apply Z.pow_pos_nonneg; lia).
  split.
  - apply Z.mod_pos_bound. assumption.
  - apply Z.mod_le; assumption.
Qed.

Lemma of_bytes_zero (t : Ty) : of_bytes t (repeat 0 (sizeof t)) = 0.
Proof. destruct t; reflexivity. Qed.

Lemma sizeof_pos (t : Ty) : 0 < Z.of_nat (sizeof t) < 2 ^ 32.
Proof. destruct t; cbn; lia. Qed.

(** The guard of the reader, as a proposition. *)
Lemma read_guard_spec (count : Z) (dst : option (list Z)) (r : StreamReader) :
  ((count =? 0) || is_null dst || (count >=? stream_size_ (rbase r))
   || (position_ (rbase r) + count >? stream_size_ (rbase r))
   || negb (reader_ok r)) = true
  <-> refused count (is_null dst) (rbase r) (is_null (reader_ r)).
Proof.
  unfold refused, reader_ok.
  rewrite !orb_true_iff, negb_true_iff, andb_false_iff, negb_false_iff.
  rewrite Z.eqb_eq, Z.geb_le, Z.gtb_lt.
  intuition lia.
Qed.

Lemma write_guard_spec (count : Z) (src : option (list Z)) (w : StreamWriter) :
  ((count =? 0) || is_null src || (count >=? stream_size_ (wbase w))
   || (position_ (wbase w) + count >? stream_size_ (wbase w))
   || negb (writer_ok w)) = true
  <-> refused count (is_null src) (wbase w) (is_null (writer_ w)).
Proof.
  unfold refused, writer_ok.
  rewrite !orb_true_iff, negb_true_iff, andb_false_iff, negb_false_iff.
  rewrite Z.eqb_eq, Z.geb_le, Z.gtb_lt.
  intuition lia.
Qed.

Lemma read_refused (count : Z) (dst : option (list Z)) (peek : bool)
    (r : StreamReader) (m : Memory) :
  refused count (is_null dst) (rbase r) (is_null (reader_ r)) ->
  _read_and_advance count dst peek r m = (dst, r).
Proof.
  intros H. apply read_guard_spec in H.
  unfold _read_and_advance. rewrite H. reflexivity.
Qed.

Lemma write_refused (count : Z) (src : option (list Z))
    (w : StreamWriter) (m : Memory) :
  refused count (is_null src) (wbase w) (is_null (writer_ w)) ->
  _write_and_advance count src w m = (w, m).
Proof.
  intros H. apply write_guard_spec in H.
  unfold _write_and_advance. rewrite H. reflexivity.
Qed.

(** What an accepted read does to the cursor. *)
Lemma read_cursor_cases (count : Z) (dst : option (list Z)) (peek : bool)
    (r : StreamReader) (m : Memory) :
  let r' := snd (_read_and_advance count dst peek r m) in
  r' = r
  \/ (count <> 0
      /\ position_ (rbase r) + count <= stream_size_ (rbase r)
      /\ r' = mkReader (set_position (wrap 32 (position_ (rbase r) + count)) (rbase r))
                       (reader_ r)).
Proof.
  unfold _read_and_advance.
  destruct ((count =? 0) || is_null dst || (count >=? stream_size_ (rbase r))
            || (position_ (rbase r) + count >? stream_size_ (rbase r))
            || negb (reader_ok r)) eqn:G; [left; reflexivity|].
  rewrite !orb_false_iff in G. destruct G as [[[[G0 _] _] G3] _].
  apply Z.eqb_neq in G0. rewrite Z.gtb_ltb in G3. apply Z.ltb_ge in G3.
  destruct dst as [d|]; [|left; reflexivity].
  destruct (reader_ r) as [f|]; [|left; reflexivity].
  destruct peek; [left; reflexivity|right]. cbn. auto.
Qed.

Lemma write_cursor_cases (count : Z) (src : option (list Z))
    (w : StreamWriter) (m : Memory) :
  let w' := fst (_write_and_advance count src w m) in
  w' = w
  \/ (count <> 0
      /\ position_ (wbase w) + count <= stream_size_ (wbase w)
      /\ w' = mkWriter (set_position (wrap 32 (position_ (wbase w) + count)) (wbase w))
                       (writer_ w)).
Proof.
  unfold _write_and_advance.
  destruct ((count =? 0) || is_null src || (count >=? stream_size_ (wbase w))
            || (position_ (wbase w) + count >? stream_size_ (wbase w))
            || negb (writer_ok w)) eqn:G; [left; reflexivity|].
  rewrite !orb_false_iff in G. destruct G as [[[[G0 _] _] G3] _].
  apply Z.eqb_neq in G0. rewrite Z.gtb_ltb in G3. apply Z.ltb_ge in G3.
  destruct src as [s|]; [|left; reflexivity].
  destruct (writer_ w) as [f|]; [|left; reflexivity].
  right. cbn. auto.
Qed.

Lemma advance_in_bounds (count : Z) (s : Stream) :
  0 <= count -> count <> 0 ->
  position_ s + count <= stream_size_ s ->
  in_bounds s ->
  in_bounds (set_position (wrap 32 (position_ s + count)) s).
Proof.
  unfold in_bounds. intros Hc Hn Hle [Hp _]. cbn.
  pose proof (wrap_le 32 (position_ s + count)). lia.
Qed.

Lemma read_in_bounds (count : Z) (dst : option (list Z)) (peek : bool)
    (r : StreamReader) (m : Memory) :
  0 <= count -> in_bounds (rbase r) ->
  in_bounds (rbase (snd (_read_and_advance count dst peek r m))).
Proof.
  intros Hc Hin.
  destruct (read_cursor_cases count dst peek r m) as [E|(Hn & Hle & E)];
    cbv zeta in E; rewrite E; [assumption|].
  cbn [rbase]. apply advance_in_bounds; assumption.
Qed.

Lemma write_in_bounds (count : Z) (src : option (list Z))
    (w : StreamWriter) (m : Memory) :
  0 <= count -> in_bounds (wbase w) ->
  in_bounds (wbase (fst (_write_and_advance count src w m))).
Proof.
  intros Hc Hin.
  destruct (write_cursor_cases count src w m) as [E|(Hn & Hle & E)];
    cbv zeta in E; rewrite E; [assumption|].
  cbn [wbase]. apply advance_in_bounds; assumption.
Qed.

Lemma step_in_bounds (op : Op) (r : StreamReader) (w : StreamWriter) (m : Memory) :
  op_typed op -> in_bounds (rbase r) -> in_bounds (wbase w) ->
  let '(r', w', _) := step op (r, w, m) in
  in_bounds (rbase r') /\ in_bounds (wbase w').
Proof.
  intros Ht Hr Hw. destruct op as [count dst|t peek|count src|t value]; cbn in *.
  - split; [|assumption]. apply read_in_bounds; [lia|assumption].
  - split; [|assumption]. unfold _read_pod.
    pose proof (read_in_bounds (Z.of_nat (sizeof t)) (Some (repeat 0 (sizeof t)))
                  peek r m ltac:(lia) Hr) as H.
    destruct (_read_and_advance _ _ _ _ _) as [pod' r']. exact H.
  - pose proof (write_in_bounds count src w m ltac:(lia) Hw) as H.
    unfold write. destruct (_write_and_advance _ _ _ _) as [w' m']. split; assumption.
  - pose proof (write_in_bounds (Z.of_nat (sizeof t)) (Some (to_bytes t value))
                  w m ltac:(lia) Hw) as H.
    unfold write_pod. destruct (_write_and_advance _ _ _ _) as [w' m']. split; assumption.
Qed.

Lemma read_pod_refused (t : Ty) (peek : bool) (r : StreamReader) (m : Memory) :
  refused (Z.of_nat (sizeof t)) false (rbase r) (is_null (reader_ r)) ->
  _read_pod t peek r m = (0, r).
Proof.
  intros H. unfold _read_pod.
  rewrite (read_refused _ (Some (repeat 0 (sizeof t))) peek r m H).
  cbn [default]. rewrite of_bytes_zero. reflexivity.
Qed.

Lemma exhausted_refuses (t : Ty) (r : StreamReader) :
  exhausted r ->
  refused (Z.of_nat (sizeof t)) false (rbase r) (is_null (reader_ r)).
Proof.
  unfold exhausted, refused. intros H. pose proof (sizeof_pos t). lia.
Qed.

End Cursor.

(** C7.  A read or a write, raw or typed, is a complete no-op when [count]
    is 0, or the pointer passed in is null, or [count >= stream_size_], or
    [position_ + count] exceeds [stream_size_], or the cursor has no copy
    function or no buffer: the buffer and both cursors (their positions with
    them) are left as they were, so no part of a refused write reaches the
    buffer; and the destination of a refused raw read is left as it was
    too. *)
Theorem refused_operation_is_noop :
  forall (op : Op) (r : stream.StreamReader) (w : stream.StreamWriter)
         (m : stream.Memory),
    op_refused op r w ->
    step op (r, w, m) = (r, w, m)
    /\ (forall count dst peek,
           op = OpRead count dst ->
           stream._read_and_advance count dst peek r m = (dst, r)).
Proof.
  intros op r w m H. split.
  - destruct op as [count dst|t peek|count src|t value]; cbn in H |- *.
    + unfold stream.read. rewrite (read_refused _ _ _ _ _ H). reflexivity.
    + rewrite (read_pod_refused _ _ _ _ H). reflexivity.
    + unfold stream.write. rewrite (write_refused _ _ _ _ H). reflexivity.
    + unfold stream.write_pod.
      rewrite (write_refused _ (Some (to_bytes t value)) w m H). reflexivity.
  - intros count dst peek ->. apply read_refused. exact H.
Qed.

(** A four-byte write with the cursor two bytes from the end of a 0x200-byte
    buffer. *)
Lemma refused_operation_is_noop_witness :
  step (OpWritePod mp_u32 0xbadf00d) (reader_at 0 0x200, writer_at 0x1fe 0x200, zeroed 0x200)
  = (reader_at 0 0x200, writer_at 0x1fe 0x200, zeroed 0x200).
Proof.
  apply (refused_operation_is_noop (OpWritePod mp_u32 0xbadf00d)).
  unfold op_refused, refused. cbn. lia.
Defined.

(** C8.  From cursors with [0 <= position_ <= stream_size_], no sequence of
    reads and writes (raw or typed, peeking or not) leads to a position past
    [stream_size_]; and an operation with [position_ + count > stream_size_]
    changes neither the cursor nor the buffer. *)
Theorem position_never_exceeds_capacity :
  forall (ops : list Op) (r : stream.StreamReader) (w : stream.StreamWriter)
         (m : stream.Memory),
    Forall op_typed ops ->
    in_bounds (stream.rbase r) -> in_bounds (stream.wbase w) ->
    (let '(r', w', _) := run_ops ops (r, w, m) in
     stream.position (stream.rbase r') <= stream.stream_size (stream.rbase r')
     /\ stream.position (stream.wbase w') <= stream.stream_size (stream.wbase w'))
    /\ (forall count p peek,
           stream.position_ (stream.rbase r) + count > stream.stream_size_ (stream.rbase r) ->
           stream._read_and_advance count p peek r m = (p, r))
    /\ (forall count p,
           stream.position_ (stream.wbase w) + count > stream.stream_size_ (stream.wbase w) ->
           stream._write_and_advance count p w m = (w, m)).
Proof.
  intros ops r w m Hops Hr Hw. split; [|split].
  - assert (G : let '(r', w', _) := run_ops ops (r, w, m) in
                in_bounds (stream.rbase r') /\ in_bounds (stream.wbase w')).
    { revert r w m Hr Hw. induction Hops as [|op ops Hop Hops IH]; intros r w m Hr Hw.
      - cbn. split; assumption.
      - unfold run_ops. cbn [fold_left].
        pose proof (step_in_bounds op r w m Hop Hr Hw) as Hs.
        destruct (step op (r, w, m)) as [[r1 w1] m1]. destruct Hs as [Hr1 Hw1].
        apply (IH r1 w1 m1 Hr1 Hw1). }
    destruct (run_ops ops (r, w, m)) as [[r' w'] m']. destruct G as [[_ G1] [_ G2]].
    split; assumption.
  - intros count p peek H. apply read_refused. unfold refused. tauto.
  - intros count p H. apply write_refused. unfold refused. tauto.
Qed.

(** Six one-byte writes and a four-byte write into a four-byte buffer, then
    six reads. *)
Lemma position_never_exceeds_capacity_witness :
  let '(r', w', m') := run_ops overflow_ops (reader_at 0 4, writer_at 0 4, zeroed 4) in
  stream.position (stream.rbase r') <= stream.stream_size (stream.rbase r')
  /\ stream.position (stream.wbase w') <= stream.stream_size (stream.wbase w').
Proof.
  refine (proj1 (position_never_exceeds_capacity overflow_ops (reader_at 0 4)
                   (writer_at 0 4) (zeroed 4) _ _ _)).
  - unfold overflow_ops. cbn. repeat constructor.
  - unfold in_bounds. cbn. lia.
  - unfold in_bounds. cbn. lia.
Defined.

(** C9, as the code has it.  A refused typed read ([read_u8] ... [peek_i64])
    returns 0 and leaves the cursor alone; once the cursor is exhausted every
    further typed read returns 0; a refused raw [read( count, dst )] leaves
    [dst] as it was, it does not zero it. *)
Theorem refused_typed_read_returns_zero :
  forall (r : stream.StreamReader) (m : stream.Memory),
    (forall t peek,
        refused (Z.of_nat (sizeof t)) false (stream.rbase r) (is_null (stream.reader_ r)) ->
        stream._read_pod t peek r m = (0, r))
    /\ (exhausted r -> forall ts, all_zero (read_pods ts r m))
    /\ (forall count dst,
           refused count (is_null dst) (stream.rbase r) (is_null (stream.reader_ r)) ->
           stream.read count dst r m = (dst, r)).
Proof.
  intros r m. split; [|split].
  - intros t peek H. apply read_pod_refused. exact H.
  - intros Hex ts. induction ts as [|[t peek] ts IH]; cbn.
    + constructor.
    + rewrite (read_pod_refused t peek r m (exhausted_refuses t r Hex)).
      constructor; [reflexivity|exact IH].
  - intros count dst H. unfold stream.read. apply read_refused. exact H.
Qed.

(** [ReadOOB] in small: a four-byte buffer of ['a'], read to its end and
    then three times more. *)
Lemma refused_typed_read_returns_zero_witness :
  all_zero (read_pods [(mp_u8, false); (mp_u32, false); (mp_i16, true)]
                      (reader_at 4 4) [97; 97; 97; 97]).
Proof.
  refine (proj1 (proj2 (refused_typed_read_returns_zero (reader_at 4 4) [97; 97; 97; 97]))
                _ _).
  unfold exhausted. cbn. lia.
Defined.

(** C9 as worded fails for the raw [read]: on an exhausted cursor the read
    is refused and the destination keeps its byte 7. *)
Lemma refused_raw_read_keeps_destination :
  exhausted (reader_at 4 4)
  /\ op_refused (OpRead 1 (Some [7])) (reader_at 4 4) (writer_at 4 4)
  /\ fst (stream.read 1 (Some [7]) (reader_at 4 4) [97; 97; 97; 97]) = Some [7]
  /\ ~ all_zero [7].
Proof.
  split; [unfold exhausted; cbn; lia|]. split; [|split].
  - unfold op_refused, refused. cbn. lia.
  - vm_compute. reflexivity.
  - intros H. inversion H as [|b bs Hb Hbs]. discriminate Hb.
Qed.

(** ** The decoder *)

Section Decoder.

(** Decide the closed tests a [case] list leaves once the marker is known. *)
Ltac decide_case :=
  repeat match goal with
         | |- context [one_of ?a ?l] =>
             let b := eval vm_compute in (one_of a l) in
             change (one_of a l) with b
         | |- context [is_fixext ?a] =>
             let b := eval vm_compute in (is_fixext a) in
             change (is_fixext a) with b
         end;
  cbv iota.

Ltac split_reads :=
  unfold bind, ret;
  repeat match goal with
         | |- context [let '(_, _) := ?x in _] => destruct x
         end.

Lemma land_bit7 (raw : Z) : Z.land raw 0x80 = 0 \/ Z.land raw 0x80 = 0x80.
Proof.
  destruct (Z.testbit raw 7) eqn:B; [right|left]; apply Z.bits_inj'; intros n Hn;
    rewrite Z.land_spec; change 0x80 with (2 ^ 7); rewrite Z.pow2_bits_eqb by lia.
  - destruct (Z.eqb_spec 7 n) as [<-|_]; [rewrite B; reflexivity|apply andb_false_r].
  - rewrite Z.bits_0. destruct (Z.eqb_spec 7 n) as [<-|_];
      [rewrite B; reflexivity|apply andb_false_r].
Qed.

(** The [switch] never touches the marker it was entered with. *)
Lemma read_into_marker (off : nat) (count : Z) (dr : MPDecodeResult) (st : St) :
  marker (fst (read_into off count dr st)) = marker dr.
Proof. unfold read_into. split_reads. reflexivity. Qed.

Lemma decode_switch_marker (dr : MPDecodeResult) (st : St) :
  marker (fst (decode_switch dr st)) = marker dr.
Proof.
  unfold decode_switch.
  repeat match goal with
         | |- context [if ?c then _ else _] => destruct c
         end;
    try reflexivity;
    unfold bind, ret;
    repeat match goal with
           | |- context [let '(_, _) := ?x in _] => destruct x
           end;
    try reflexivity; rewrite read_into_marker; reflexivity.
Qed.

Lemma land_low4 (raw : Z) : 0 <= Z.land raw 0xf < 16.
Proof.
  change 0xf with (Z.ones 4). rewrite Z.land_ones by lia.
  apply Z.mod_pos_bound. reflexivity.
Qed.

Lemma cast_u32_low4 (raw : Z) : wrap 32 (cast mp_u32 (Z.land raw 0xf)) = Z.land raw 0xf.
Proof.
  pose proof (land_low4 raw) as H. unfold cast. cbn [is_signed sizeof].
  change (8 * Z.of_nat 4) with 32.
  rewrite !wrap_small; [reflexivity|lia|rewrite wrap_small; lia].
Qed.

(** The cascade reports one of three markers only. *)
Lemma decode_fallback_markers (raw : Z) (dr : MPDecodeResult) (st : St) :
  let dr' := fst (decode_fallback raw dr st) in
  (Z.land raw 0x80 = 0 /\ marker dr' = MPMarker.PosFixInt)
  \/ (Z.land raw 0x80 = 0x80 /\ Z.land raw 0xe0 = 0xe0
      /\ marker dr' = MPMarker.NegFixInt)
  \/ (Z.land raw 0x80 = 0x80 /\ Z.land raw 0xe0 <> 0xe0
      /\ marker dr' = MPMarker.FixMap
      /\ size dr' = Z.land raw 0xf).
Proof.
  unfold decode_fallback.
  destruct (Z.eqb_spec (Z.land raw 0x80) 0) as [E0|N0]; [left; split; [exact E0|reflexivity]|].
  right. destruct (land_bit7 raw) as [E|E]; [contradiction|].
  destruct (Z.eqb_spec (Z.land raw 0xe0) 0xe0) as [E1|N1].
  - left. repeat split; first [assumption | reflexivity].
  - right. rewrite E. change (0x80 =? 0x80) with true. cbv iota.
    repeat split; try assumption. unfold ret, set_size. cbn [fst size].
    apply cast_u32_low4.
Qed.

(** A header [case] stores the field it reads as the size and nothing
    else. *)
Lemma decode_switch_header (raw : Z) (dr : MPDecodeResult) (st : St) :
  In raw header_markers -> marker dr = raw ->
  exists k,
    decode_switch dr st = (mkResult raw k (result dr), run (header_field raw) st)
    /\ (eval (header_field raw) st = 0 -> k = 0).
Proof.
  intros Hin Hmk. unfold decode_switch, header_field, run, eval. rewrite Hmk.
  destruct dr as [mk sz res]. cbn [marker size result] in *. subst mk.
  unfold header_markers in Hin. cbn [In] in Hin.
  repeat (destruct Hin as [<-|Hin]); try contradiction; decide_case.
  all: repeat match goal with
         | |- context [Z.eqb ?a ?b] =>
             let v := eval vm_compute in (Z.eqb a b) in
             change (Z.eqb a b) with v
         end; cbv iota.
  all: unfold read_u8, read_u16, read_u32; unfold bind, ret, set_size;
    cbn [marker size result].
  all: match goal with
       | |- context [on_sr ?f ?s] => destruct (on_sr f s) as [n st']
       end; cbn [fst snd].
  all: eexists; split; [reflexivity|].
  all: intros H; try rewrite H; reflexivity.
Qed.

Lemma header_marker_bits (raw : Z) :
  In raw header_markers ->
  Z.land raw 0x80 <> 0 /\ Z.land raw 0xe0 <> 0xe0
  /\ is_fixext raw = false /\ raw <> MPMarker.FixMap.
Proof.
  unfold header_markers. cbn [In]. intros Hin.
  repeat (destruct Hin as [<-|Hin]); try contradiction;
    repeat split; try reflexivity; vm_compute; discriminate.
Qed.

(** The [case] of [Unused] is a bare [break]. *)
Lemma decode_switch_unused (st : St) :
  decode_switch (initial_result MPMarker.Unused) st
  = (initial_result MPMarker.Unused, st).
Proof. reflexivity. Qed.

Lemma decode_single_marker (st : St) :
  let raw := eval read_u8 st in
  let dr := eval decode_single st in
  (marker dr = raw /\ raw <> MPMarker.Unused)
  \/ marker dr = MPMarker.PosFixInt
  \/ marker dr = MPMarker.NegFixInt
  \/ marker dr = MPMarker.FixMap.
Proof.
  unfold decode_single, eval, bind. destruct (read_u8 st) as [raw st1].
  cbv zeta. fold (initial_result raw). cbn [fst].
  pose proof (decode_switch_marker (initial_result raw) st1) as Hmk.
  destruct (decode_switch (initial_result raw) st1) as [dr st2] eqn:E.
  cbn [fst] in Hmk. change (marker (initial_result raw)) with raw in Hmk.
  destruct (negb (is_fixext raw) && (size dr =? 0)) eqn:G.
  - right.
    destruct (decode_fallback_markers raw dr st2)
      as [[_ H]|[(_ & _ & H)|(_ & _ & H & _)]]; tauto.
  - left. unfold ret. cbn [fst]. split; [exact Hmk|].
    intros ->. rewrite decode_switch_unused in E. inversion E; subst dr.
    discriminate G.
Qed.

End Decoder.

(** ** Encoding into the fixture and decoding back *)

Section Wire.

Lemma land_low5 (v : Z) : 0 <= Z.land v 0x1F < 32.
Proof.
  change 0x1F with (Z.ones 5). rewrite Z.land_ones by lia.
  apply Z.mod_pos_bound. reflexivity.
Qed.

Lemma below_cases (P : Z -> Prop) (n : nat) :
  (forall k : nat, (k < n)%nat -> P (Z.of_nat k)) ->
  forall y : Z, 0 <= y < Z.of_nat n -> P y.
Proof.
  intros H y Hy. rewrite <- (Z2Nat.id y) by lia. apply H. lia.
Qed.

Lemma cast_u64_range (v : Z) : 0 <= cast mp_u64 v < 2 ^ 64.
Proof. unfold cast, wrap. cbn [is_signed sizeof]. apply Z.mod_pos_bound. reflexivity. Qed.

Lemma cast_u64_idem (v : Z) : cast mp_u64 (cast mp_u64 v) = cast mp_u64 v.
Proof. unfold cast, wrap. cbn [is_signed sizeof]. apply Z.mod_mod. discriminate. Qed.

Lemma land_mask (k : nat) (d : Z) :
  Z.land d (256 ^ Z.of_nat k - 1) = d mod 256 ^ Z.of_nat k.
Proof.
  replace (256 ^ Z.of_nat k) with (2 ^ (8 * Z.of_nat k)).
  - rewrite Z.sub_1_r, <- Z.ones_equiv. apply Z.land_ones. lia.
  - rewrite Z.pow_mul_r by lia. reflexivity.
Qed.

(** Masking, converting to the [k]-byte unsigned type and laying out in
    memory keep the low [k] bytes, each step for itself already. *)
Lemma le_split_cast_land (k : nat) (d : Z) :
  le_split k ((Z.land d (256 ^ Z.of_nat k - 1)) mod 256 ^ Z.of_nat k) = le_split k d.
Proof. rewrite land_mask, !le_split_mod. reflexivity. Qed.

Lemma be_bytes_16 (d : Z) :
  le_split 2 (bswap_intrin16 (cast mp_u16 (Z.land d 0xffff))) = be_bytes 2 d.
Proof.
  unfold bswap_intrin16. rewrite le_split_bswap. unfold be_bytes. f_equal.
  apply (le_split_cast_land 2).
Qed.

Lemma be_bytes_32 (d : Z) :
  le_split 4 (bswap_intrin32 (cast mp_u32 (Z.land d 0xffffffff))) = be_bytes 4 d.
Proof.
  unfold bswap_intrin32. rewrite le_split_bswap. unfold be_bytes. f_equal.
  apply (le_split_cast_land 4).
Qed.

Lemma be_bytes_64 (d : Z) :
  le_split 8 (bswap_intrin64 d) = be_bytes 8 d.
Proof. unfold bswap_intrin64. apply le_split_bswap. Qed.

Lemma start_array_wire (n : Z) :
  let n' := cast mp_u64 n in
  wire 5 (run (start_array n) (fixture 0x200))
  = if n' <=? 15 then [Z.lor 0x90 n'; 0; 0; 0; 0]
    else if n' <=? 65535 then 0xdc :: be_bytes 2 n' ++ [0; 0]
    else 0xdd :: be_bytes 4 n'.
Proof.
  intros n'. unfold start_array. cbv zeta. fold n'.
  change value_limits.FixArrayMax with 15. change value_limits.Array16Max with 65535.
  pose proof (cast_u64_range n) as Hn. fold n' in Hn.
  destruct (Z.leb_spec n' 15) as [H15|H15].
  - clearbody n'. clear n. revert n' Hn H15.
    enough (E : forall y, 0 <= y < Z.of_nat 16 ->
               wire 5 (run (on_wr (stream.write_u8
                 (cast mp_u8 (Z.lor (cast mp_u8 MPMarker.FixArray) (cast mp_u8 (Z.land y 0xf))))))
                 (fixture 0x200)) = [Z.lor 0x90 y; 0; 0; 0; 0]).
    { intros n' Hn H15. apply E. lia. }
    apply (below_cases _ 16). intros k Hk.
    do 16 (destruct k as [|k]; [vm_compute; reflexivity|]). lia.
  - destruct (Z.leb_spec n' 65535) as [H16|H16].
    + rewrite <- be_bytes_16. reflexivity.
    + rewrite <- be_bytes_32. reflexivity.
Qed.

Lemma start_map_wire (n : Z) :
  let n' := cast mp_u64 n in
  wire 5 (run (start_map n) (fixture 0x200))
  = if n' <=? 65535 then [Z.lor 0x80 (Z.land n' 0xf); 0; 0; 0; 0]
    else if n' <=? 4294967295 then 0xde :: be_bytes 2 n' ++ [0; 0]
    else 0xdf :: be_bytes 4 n'.
Proof.
  intros n'. unfold start_map. cbv zeta. fold n'.
  change value_limits.Map16Max with 65535. change value_limits.Map32Max with 4294967295.
  destruct (Z.leb_spec n' 65535) as [H15|H15].
  - pose proof (land_low4 n') as Hy. revert Hy. generalize (Z.land n' 0xf).
    enough (E : forall y, 0 <= y < Z.of_nat 16 ->
               wire 5 (run (on_wr (stream.write_u8
                 (cast mp_u8 (Z.lor (cast mp_u8 MPMarker.FixMap) (cast mp_u8 y)))))
                 (fixture 0x200)) = [Z.lor 0x80 y; 0; 0; 0; 0]).
    { intros y Hy. apply E. lia. }
    apply (below_cases _ 16). intros k Hk.
    do 16 (destruct k as [|k]; [vm_compute; reflexivity|]). lia.
  - destruct (Z.leb_spec n' 4294967295) as [H16|H16].
    + rewrite <- be_bytes_16. reflexivity.
    + rewrite <- be_bytes_32. reflexivity.
Qed.

Lemma of_bytes_le_split (t : Ty) (v : Z) :
  is_signed t = false ->
  of_bytes t (le_split (sizeof t) v) = v mod 256 ^ Z.of_nat (sizeof t).
Proof.
  intros Hu. unfold of_bytes.
  rewrite firstn_all2 by (rewrite length_le_split; lia).
  rewrite le_combine_split.
  destruct t; try discriminate Hu; unfold cast, wrap; cbn [is_signed sizeof];
    apply Z.mod_mod; discriminate.
Qed.

(** What the array cases store as the size: the two or four bytes after the
    marker, read in the order of the host. *)
Lemma decode_array16 (X : Z) :
  let st := (codec 0 3 0x200, 0xdc :: le_split 2 X ++ repeat 0 509) in
  X mod 65536 <> 0 ->
  (marker (eval decode_single st), size (eval decode_single st))
  = (MPMarker.Array16, X mod 65536).
Proof.
  intros st HX. unfold decode_single, eval, bind, st.
  change (read_u8 (codec 0 3 0x200, 0xdc :: le_split 2 X ++ repeat 0 509))
    with (0xdc, (codec 1 3 0x200, 0xdc :: le_split 2 X ++ repeat 0 509)).
  cbv beta iota zeta.
  change (decode_switch _ (codec 1 3 0x200, 0xdc :: le_split 2 X ++ repeat 0 509))
    with (mkResult 0xdc (wrap 32 (cast mp_u32 (of_bytes mp_u16 (le_split (sizeof mp_u16) X))))
                   (repeat 0 32),
          (codec 3 3 0x200, 0xdc :: le_split 2 X ++ repeat 0 509)).
  cbv beta iota. rewrite of_bytes_le_split by reflexivity. cbn [size sizeof].
  change (256 ^ Z.of_nat 2) with 65536.
  pose proof (Z.mod_pos_bound X 65536 eq_refl) as HB.
  replace (wrap 32 (cast mp_u32 (X mod 65536))) with (X mod 65536).
  - change (is_fixext 0xdc) with false.
    destruct (Z.eqb_spec (X mod 65536) 0) as [E|_]; [contradiction|].
    reflexivity.
  - unfold cast. cbn [is_signed sizeof]. change (8 * Z.of_nat 4) with 32.
    rewrite !wrap_small; [reflexivity|lia|rewrite wrap_small; lia].
Qed.

Lemma cast_small (t : Ty) (x : Z) :
  is_signed t = false -> 0 <= x < 256 ^ Z.of_nat (sizeof t) -> cast t x = x.
Proof.
  intros Hu H. destruct t; try discriminate Hu; unfold cast, wrap;
    cbn [is_signed sizeof]; apply Z.mod_small; exact H.
Qed.

Lemma cast_u16_small (x : Z) : 0 <= x < 65536 -> cast mp_u16 x = x.
Proof. apply (cast_small mp_u16). reflexivity. Qed.

Lemma cast_u32_small (x : Z) : 0 <= x < 4294967296 -> cast mp_u32 x = x.
Proof. apply (cast_small mp_u32). reflexivity. Qed.

Lemma cast_u64_small (x : Z) : 0 <= x < 2 ^ 64 -> cast mp_u64 x = x.
Proof. apply (cast_small mp_u64). reflexivity. Qed.

Lemma wrap32_small (x : Z) : 0 <= x < 2 ^ 32 -> wrap 32 (cast mp_u32 x) = x.
Proof.
  intros H. unfold cast. cbn [is_signed sizeof]. change (8 * Z.of_nat 4) with 32.
  rewrite !wrap_small; [reflexivity|exact H|rewrite wrap_small; exact H].
Qed.

Lemma decode_array32 (X : Z) :
  let st := (codec 0 5 0x200, 0xdd :: le_split 4 X ++ repeat 0 507) in
  (marker (eval decode_single st), size (eval decode_single st))
  = if X mod 2 ^ 32 =? 0 then (MPMarker.FixMap, 13)
    else (MPMarker.Array32, X mod 2 ^ 32).
Proof.
  intros st. unfold decode_single, eval, bind, st.
  change (read_u8 (codec 0 5 0x200, 0xdd :: le_split 4 X ++ repeat 0 507))
    with (0xdd, (codec 1 5 0x200, 0xdd :: le_split 4 X ++ repeat 0 507)).
  cbv beta iota zeta.
  change (decode_switch _ (codec 1 5 0x200, 0xdd :: le_split 4 X ++ repeat 0 507))
    with (mkResult 0xdd (wrap 32 (of_bytes mp_u32 (le_split (sizeof mp_u32) X)))
                   (repeat 0 32),
          (codec 5 5 0x200, 0xdd :: le_split 4 X ++ repeat 0 507)).
  cbv beta iota. rewrite of_bytes_le_split by reflexivity. cbn [size sizeof].
  change (256 ^ Z.of_nat 4) with (2 ^ 32).
  pose proof (Z.mod_pos_bound X (2 ^ 32) eq_refl) as HB.
  rewrite (wrap_small 32) by exact HB.
  change (is_fixext 0xdd) with false.
  destruct (Z.eqb_spec (X mod 2 ^ 32) 0) as [E|_]; reflexivity.
Qed.

(** The integer cases: the state after the marker and the payload are
    written, and the result of decoding it, with the union read as
    [as_u64]. *)
Lemma union_as_u64 (k : nat) (V : Z) (bs : list Z) :
  (k <= 8)%nat ->
  firstn 8 bs = le_split k V ++ repeat 0 (8 - k) ->
  of_bytes mp_u64 bs = V mod 256 ^ Z.of_nat k.
Proof.
  intros Hk E. unfold of_bytes. cbn [sizeof]. rewrite E, le_combine_padded, le_combine_split.
  unfold cast, wrap. cbn [is_signed sizeof]. apply Z.mod_small.
  pose proof (Z.mod_pos_bound V (256 ^ Z.of_nat k) ltac:(apply Z.pow_pos_nonneg; lia)).
  assert (256 ^ Z.of_nat k <= 256 ^ 8) by (apply Z.pow_le_mono_r; lia).
  change (2 ^ (8 * Z.of_nat 8)) with (256 ^ 8). lia.
Qed.

Lemma decode_uint16 (X : Z) :
  report mp_u64 (eval decode_single (codec 0 3 0x200, 0xcd :: le_split 2 X ++ repeat 0 509))
  = (MPMarker.Uint16, 2, bswap_intrin16 X).
Proof.
  unfold report.
  change (eval decode_single (codec 0 3 0x200, 0xcd :: le_split 2 X ++ repeat 0 509))
    with (mkResult MPMarker.Uint16 2
            (list_inserts 0 (le_split 2 (bswap_intrin16 (of_bytes mp_u16 (le_split (sizeof mp_u16) X))))
                          (repeat 0 32))).
  cbn [marker size]. f_equal. unfold get_as. cbn [result].
  rewrite of_bytes_le_split by reflexivity. unfold bswap_intrin16.
  cbn [sizeof]. rewrite bswap_mod.
  rewrite (union_as_u64 2 (bswap 2 X)); [|lia|reflexivity].
  apply Z.mod_small, bswap_range.
Qed.

Lemma decode_uint32 (X : Z) :
  report mp_u64 (eval decode_single (codec 0 5 0x200, 0xce :: le_split 4 X ++ repeat 0 507))
  = (MPMarker.Uint32, 4, bswap_intrin32 X).
Proof.
  unfold report.
  change (eval decode_single (codec 0 5 0x200, 0xce :: le_split 4 X ++ repeat 0 507))
    with (mkResult MPMarker.Uint32 4
            (list_inserts 0 (le_split 4 (bswap_intrin32 (of_bytes mp_u32 (le_split (sizeof mp_u32) X))))
                          (repeat 0 32))).
  cbn [marker size]. f_equal. unfold get_as. cbn [result].
  rewrite of_bytes_le_split by reflexivity. unfold bswap_intrin32.
  cbn [sizeof]. rewrite bswap_mod.
  rewrite (union_as_u64 4 (bswap 4 X)); [|lia|reflexivity].
  apply Z.mod_small, bswap_range.
Qed.

(** The [Uint64] case stores what the cursor's [read_u64] returns. *)
Lemma decode_uint64 (X : Z) :
  report mp_u64 (eval decode_single (codec 0 9 0x200, 0xcf :: le_split 8 X ++ repeat 0 503))
  = (MPMarker.Uint64, 8, X mod 2 ^ 64).
Proof.
  unfold report.
  change (eval decode_single (codec 0 9 0x200, 0xcf :: le_split 8 X ++ repeat 0 503))
    with (mkResult MPMarker.Uint64 8
            (list_inserts 0 (le_split 8 (of_bytes mp_u64 (le_split (sizeof mp_u64) X)))
                          (repeat 0 32))).
  cbn [marker size]. f_equal. unfold get_as. cbn [result].
  rewrite of_bytes_le_split by reflexivity. cbn [sizeof].
  rewrite (union_as_u64 8 (X mod 256 ^ Z.of_nat 8)); [|lia|reflexivity].
  apply Z.mod_mod. discriminate.
Qed.

Lemma write_uint_small (y : Z) :
  0 <= y < Z.of_nat 256 ->
  report mp_u64 (eval (write_uint y ;; decode_single) (fixture 0x200))
  = if y <=? 127 then (MPMarker.PosFixInt, 1, y) else (MPMarker.Uint8, 1, y).
Proof.
  revert y. apply (below_cases _ 256). intros k Hk.
  do 256 (destruct k as [|k]; [vm_compute; reflexivity|]). lia.
Qed.

Lemma write_uint_roundtrip (v : Z) :
  let v' := cast mp_u64 v in
  report mp_u64 (eval (write_uint v ;; decode_single) (fixture 0x200))
  = if v' <=? 127 then (MPMarker.PosFixInt, 1, v')
    else if v' <=? 255 then (MPMarker.Uint8, 1, v')
    else if v' <=? 65535 then (MPMarker.Uint16, 2, v')
    else if v' <=? 4294967295 then (MPMarker.Uint32, 4, v')
    else (MPMarker.Uint64, 8, bswap_intrin64 v').
Proof.
  intros v'. pose proof (cast_u64_range v) as Hv. fold v' in Hv.
  assert (Ew : write_uint v = write_uint v').
  { unfold write_uint, v'. cbv zeta. rewrite cast_u64_idem. reflexivity. }
  rewrite Ew. clearbody v'. clear Ew v.
  destruct (Z.leb_spec v' 255) as [H8|H8].
  { rewrite write_uint_small by lia. destruct (v' <=? 127); reflexivity. }
  rewrite (proj2 (Z.leb_gt v' 127)) by lia.
  assert (Ec : cast mp_u64 v' = v') by (apply wrap_small; exact Hv).
  unfold write_uint. cbv zeta. rewrite Ec.
  change value_limits.PosFixIntMax with 127. change limits.uint8_max with 255.
  change limits.uint16_max with 65535. change limits.uint32_max with 4294967295.
  rewrite (proj2 (Z.leb_gt v' 127)), (proj2 (Z.leb_gt v' 255)) by lia.
  destruct (Z.leb_spec v' 65535) as [H16|H16]; [|destruct (Z.leb_spec v' 4294967295) as [H32|H32]].
  - change (eval (write_u16 (cast mp_u16 v') ;; decode_single) (fixture 0x200))
      with (eval decode_single
              (codec 0 3 0x200,
               0xcd :: le_split 2 (bswap_intrin16 (cast mp_u16 (Z.land
                          (cast mp_u64 (cast mp_u16 (cast mp_u16 v'))) 0xffff)))
                    ++ repeat 0 509)).
    rewrite decode_uint16. do 2 f_equal.
    rewrite !(cast_u16_small v'), Ec by lia.
    unfold bswap_intrin16.
    change (cast mp_u16 (Z.land v' 0xffff))
      with ((Z.land v' (256 ^ Z.of_nat 2 - 1)) mod 256 ^ Z.of_nat 2).
    rewrite land_mask, !bswap_mod, bswap_involutive.
    apply Z.mod_small. cbn. lia.
  - change (eval (write_u32 (cast mp_u32 v') ;; decode_single) (fixture 0x200))
      with (eval decode_single
              (codec 0 5 0x200,
               0xce :: le_split 4 (bswap_intrin32 (cast mp_u32 (Z.land
                          (cast mp_u64 (cast mp_u32 (cast mp_u32 v'))) 0xffffffff)))
                    ++ repeat 0 507)).
    rewrite decode_uint32. do 2 f_equal.
    rewrite !(cast_u32_small v'), Ec by lia.
    unfold bswap_intrin32.
    change (cast mp_u32 (Z.land v' 0xffffffff))
      with ((Z.land v' (256 ^ Z.of_nat 4 - 1)) mod 256 ^ Z.of_nat 4).
    rewrite land_mask, !bswap_mod, bswap_involutive.
    apply Z.mod_small. cbn. lia.
  - change (eval (write_u64 v' ;; decode_single) (fixture 0x200))
      with (eval decode_single
              (codec 0 9 0x200,
               0xcf :: le_split 8 (bswap_intrin64 (cast mp_u64 v')) ++ repeat 0 503)).
    rewrite decode_uint64, Ec. do 2 f_equal.
    apply Z.mod_small. apply (bswap_range 8).
Qed.

Lemma start_array_decode (n : Z) :
  let n' := cast mp_u64 n in
  let dr := eval (start_array n ;; decode_single) (fixture 0x200) in
  (marker dr, size dr)
  = if n' <=? 15 then (MPMarker.FixMap, n')
    else if n' <=? 65535 then (MPMarker.Array16, bswap_intrin16 n')
    else if bswap_intrin32 n' =? 0 then (MPMarker.FixMap, 13)
    else (MPMarker.Array32, bswap_intrin32 n').
Proof.
  intros n'. cbv zeta. unfold start_array. cbv zeta. fold n'.
  change value_limits.FixArrayMax with 15. change value_limits.Array16Max with 65535.
  pose proof (cast_u64_range n) as Hn. fold n' in Hn.
  destruct (Z.leb_spec n' 15) as [H15|H15].
  - clearbody n'. clear n. revert n' Hn H15.
    enough (E : forall y, 0 <= y < Z.of_nat 16 ->
               let dr := eval (on_wr (stream.write_u8
                   (cast mp_u8 (Z.lor (cast mp_u8 MPMarker.FixArray) (cast mp_u8 (Z.land y 0xf)))))
                   ;; decode_single) (fixture 0x200) in
               (marker dr, size dr) = (MPMarker.FixMap, y)).
    { intros n' Hn H15. apply E. lia. }
    apply (below_cases _ 16). intros k Hk.
    do 16 (destruct k as [|k]; [vm_compute; reflexivity|]). lia.
  - destruct (Z.leb_spec n' 65535) as [H16|H16].
    + match goal with |- context [eval ?c (fixture 0x200)] =>
        change (eval c (fixture 0x200))
        with (eval decode_single
                (codec 0 3 0x200,
                 0xdc :: le_split 2 (bswap_intrin16 (cast mp_u16 (Z.land n' 0xffff)))
                      ++ repeat 0 509))
      end.
      assert (EX : bswap_intrin16 (cast mp_u16 (Z.land n' 0xffff)) = bswap_intrin16 n').
      { unfold bswap_intrin16.
        change (cast mp_u16 (Z.land n' 0xffff))
          with ((Z.land n' (256 ^ Z.of_nat 2 - 1)) mod 256 ^ Z.of_nat 2).
        rewrite land_mask, !bswap_mod. reflexivity. }
      rewrite EX.
      assert (EB : bswap_intrin16 n' mod 65536 = bswap_intrin16 n')
        by (apply Z.mod_small, (bswap_range 2)).
      rewrite decode_array16; rewrite EB; [reflexivity|].
      intros Z0. apply bswap_zero in Z0. change (256 ^ Z.of_nat 2) with 65536 in Z0.
      rewrite Z.mod_small in Z0 by lia. lia.
    + match goal with |- context [eval ?c (fixture 0x200)] =>
        change (eval c (fixture 0x200))
        with (eval decode_single
                (codec 0 5 0x200,
                 0xdd :: le_split 4 (bswap_intrin32 (cast mp_u32 (Z.land n' 0xffffffff)))
                      ++ repeat 0 507))
      end.
      assert (EX : bswap_intrin32 (cast mp_u32 (Z.land n' 0xffffffff)) = bswap_intrin32 n').
      { unfold bswap_intrin32.
        change (cast mp_u32 (Z.land n' 0xffffffff))
          with ((Z.land n' (256 ^ Z.of_nat 4 - 1)) mod 256 ^ Z.of_nat 4).
        rewrite land_mask, !bswap_mod. reflexivity. }
      rewrite EX.
      assert (EB : bswap_intrin32 n' mod 2 ^ 32 = bswap_intrin32 n')
        by (apply Z.mod_small, (bswap_range 4)).
      rewrite decode_array32, EB. reflexivity.
Qed.

(** The byte [write_negfixint] stores, given the five bits it keeps, and what
    [decode_single] makes of it. *)
Lemma negfixint_low5 (y : Z) :
  0 <= y < 32 ->
  let st := run (on_wr (stream.write_u8 (cast mp_u8 (Z.lor 0xe0 (cast mp_u8 y)))))
                (fixture 0x200) in
  wire 1 st = [Z.lor 0xe0 y]
  /\ report mp_i8 (eval decode_single st) = (MPMarker.NegFixInt, 1, y - 32).
Proof.
  revert y. apply (below_cases _ 32). intros k Hk.
  do 32 (destruct k as [|k]; [vm_compute; split; reflexivity|]). lia.
Qed.

End Wire.

(** ** What the codec does with its markers *)

(** C1.  [start_array( 3 )] writes the byte 0x93, and [decode_single] reports
    it as [FixMap] with size 3, not as [FixArray]; so it is for every count
    up to 15.  A fixstr byte 0xa3 is reported as [FixMap] with size 3 as
    well and its payload is not read.  The cascade tests
    [( raw & 0x80 ) == 0x80] before the bits of the array and of the string,
    so it reports one of [PosFixInt], [NegFixInt] and [FixMap] for every
    byte. *)
Theorem fixarray_header_decodes_as_fixmap :
  wire 1 (run (start_array 3) (fixture 0x200)) = [0x93]
  /\ (let dr := eval (start_array 3 ;; decode_single) (fixture 0x200) in
      (marker dr, size dr) = (MPMarker.FixMap, 3)
      /\ marker dr <> MPMarker.FixArray)
  /\ (forall n : Z,
         let dr := eval (start_array (Z.land n 0xf) ;; decode_single) (fixture 0x200) in
         (marker dr, size dr) = (MPMarker.FixMap, Z.land n 0xf))
  /\ (let '(dr, st) := decode_single (holding 0x200 [0xa3; 97; 98; 99]) in
      (marker dr, size dr, firstn 3 (result dr), read_cursor (fst st))
      = (MPMarker.FixMap, 3, [0; 0; 0], 1))
  /\ (forall raw dr st,
         let dr' := fst (decode_fallback raw dr st) in
         marker dr' = MPMarker.PosFixInt \/ marker dr' = MPMarker.NegFixInt
         \/ marker dr' = MPMarker.FixMap).
Proof.
  split; [vm_compute; reflexivity|].
  split; [split; [vm_compute; reflexivity|vm_compute; discriminate]|].
  split.
  { intros n. pose proof (land_low4 n) as Hn.
    pose proof (start_array_decode (Z.land n 0xf)) as H. cbv zeta in H |- *.
    rewrite cast_u64_small in H by lia.
    rewrite (proj2 (Z.leb_le (Z.land n 0xf) 15)) in H by lia. exact H. }
  split; [vm_compute; reflexivity|].
  intros raw dr st. cbv zeta.
  destruct (decode_fallback_markers raw dr st)
    as [[_ H]|[(_ & _ & H)|(_ & _ & H & _)]]; tauto.
Qed.

(** C2.  With the reserved byte 0xc1 next in the stream, [decode_single]
    reports [FixMap] with size 1; and in no state at all does it report
    [Unused], so the failure sentinel is never returned. *)
Theorem unused_byte_decodes_as_fixmap :
  wire 1 (run (write_marker MPMarker.Unused) (fixture 0x200)) = [0xc1]
  /\ (let dr := eval (write_marker MPMarker.Unused ;; decode_single) (fixture 0x200) in
      (marker dr, size dr, valid dr) = (MPMarker.FixMap, 1, true))
  /\ (forall st : St, marker (eval decode_single st) <> MPMarker.Unused).
Proof.
  split; [vm_compute; reflexivity|].
  split; [vm_compute; reflexivity|].
  intros st.
  destruct (decode_single_marker st) as [[E N]|[E|[E|E]]]; cbv zeta in E;
    rewrite E; [exact N| | |]; vm_compute; discriminate.
Qed.

(** C3.  For every argument, with [v] its value as a 64-bit unsigned:
    [write_uint] then [decode_single] reports [PosFixInt] up to 127, [Uint8]
    up to 255, [Uint16] up to 65535, [Uint32] up to 2^32-1 and [Uint64]
    above, and up to 2^32-1 the value read from the union is [v].  Above,
    it is [v] with its eight bytes reversed: the [Uint64] case reads them
    without converting from big-endian.  [write_uint( 2^32 )] puts
    [cf 00 00 00 01 00 00 00 00] on the wire and comes back as 2^24. *)
Theorem uint64_decodes_byte_swapped :
  wire 9 (run (write_uint (2 ^ 32)) (fixture 0x200)) = [0xcf; 0; 0; 0; 1; 0; 0; 0; 0]
  /\ report mp_u64 (eval (write_uint (2 ^ 32) ;; decode_single) (fixture 0x200))
     = (MPMarker.Uint64, 8, 2 ^ 24)
  /\ (forall value : Z,
         let v := cast mp_u64 value in
         report mp_u64 (eval (write_uint value ;; decode_single) (fixture 0x200))
         = if v <=? 127 then (MPMarker.PosFixInt, 1, v)
           else if v <=? 255 then (MPMarker.Uint8, 1, v)
           else if v <=? 65535 then (MPMarker.Uint16, 2, v)
           else if v <=? 4294967295 then (MPMarker.Uint32, 4, v)
           else (MPMarker.Uint64, 8, bswap_intrin64 v)).
Proof.
  split; [vm_compute; reflexivity|].
  split; [vm_compute; reflexivity|].
  apply write_uint_roundtrip.
Qed.

(** C4.  For every count, with [n] its value as a 64-bit unsigned:
    [start_array] writes a [FixArray] byte up to 15, [Array16] and the count
    in two big-endian bytes up to 65535, [Array32] and four big-endian bytes
    above.  [start_map] compares with [Map16Max] and [Map32Max] instead: up
    to 65535 it writes the single byte [0x80 | (n & 0xf)], up to 2^32-1 a
    [Map16] header with the low two bytes of the count, and [Map32] only
    above that.  For 16 pairs that is the byte 0x80, a fixmap of 0 pairs. *)
Theorem start_map_thresholds_are_shifted :
  map (fun n => wire 5 (run (start_map n) (fixture 0x200))) [15; 16; 65535; 65536]
  = [[0x8f; 0; 0; 0; 0]; [0x80; 0; 0; 0; 0];
     [0x8f; 0; 0; 0; 0]; [0xde; 0x00; 0x00; 0; 0]]
  /\ write_cursor (fst (run (start_map 16) (fixture 0x200))) = 1
  /\ wire 5 (run (start_array 16) (fixture 0x200)) = [0xdc; 0x00; 0x10; 0; 0]
  /\ (forall num_elem : Z,
         let n := cast mp_u64 num_elem in
         wire 5 (run (start_array num_elem) (fixture 0x200))
         = if n <=? 15 then [Z.lor MPMarker.FixArray n; 0; 0; 0; 0]
           else if n <=? 65535 then MPMarker.Array16 :: be_bytes 2 n ++ [0; 0]
           else MPMarker.Array32 :: be_bytes 4 n)
  /\ (forall num_pairs : Z,
         let n := cast mp_u64 num_pairs in
         wire 5 (run (start_map num_pairs) (fixture 0x200))
         = if n <=? 65535 then [Z.lor MPMarker.FixMap (Z.land n 0xf); 0; 0; 0; 0]
           else if n <=? 4294967295 then MPMarker.Map16 :: be_bytes 2 n ++ [0; 0]
           else MPMarker.Map32 :: be_bytes 4 n).
Proof.
  split; [vm_compute; reflexivity|].
  split; [vm_compute; reflexivity|].
  split; [vm_compute; reflexivity|].
  split; [apply start_array_wire|apply start_map_wire].
Qed.

(** C5.  [start_array( 16 )] writes [dc 00 10], big-endian, and
    [decode_single] reports [Array16] with size 4096.  For every count, with
    [n] its value as a 64-bit unsigned: above 15 and up to 65535 the result
    is [Array16] with the two bytes of [n] swapped as its size; above, it is
    [Array32] with the low four bytes of [n] reversed, or [FixMap] with size
    13 when those are all zero.  The array and map cases read the count
    with the cursor's own [read_u16] and [read_u32], which do not convert
    from big-endian. *)
Theorem array_count_decodes_byte_swapped :
  wire 3 (run (start_array 16) (fixture 0x200)) = [0xdc; 0x00; 0x10]
  /\ (let dr := eval (start_array 16 ;; decode_single) (fixture 0x200) in
      (marker dr, size dr) = (MPMarker.Array16, 4096))
  /\ (let dr := eval (start_array 65536 ;; decode_single) (fixture 0x200) in
      (marker dr, size dr) = (MPMarker.Array32, 256))
  /\ (forall num_elem : Z,
         let n := cast mp_u64 num_elem in
         let dr := eval (start_array num_elem ;; decode_single) (fixture 0x200) in
         (marker dr, size dr)
         = if n <=? 15 then (MPMarker.FixMap, n)
           else if n <=? 65535 then (MPMarker.Array16, bswap_intrin16 n)
           else if bswap_intrin32 n =? 0 then (MPMarker.FixMap, 13)
           else (MPMarker.Array32, bswap_intrin32 n)).
Proof.
  split; [vm_compute; reflexivity|].
  split; [vm_compute; reflexivity|].
  split; [vm_compute; reflexivity|].
  apply start_array_decode.
Qed.

(** C6.  Through [write_fixint] and [decode_single]: +127 comes back as
    [PosFixInt] 127, -20 as [NegFixInt] -20, and -33 as [NegFixInt] -1.  For
    every argument [write_negfixint] stores the byte [0xe0 | (value & 0x1F)],
    the low five bits only, and [decode_single] reports
    [(value & 0x1F) - 32]: the value wraps within -32 .. -1. *)
Theorem fixint_boundary :
  report mp_u8 (eval (write_fixint 127 ;; decode_single) (fixture 0x200))
  = (MPMarker.PosFixInt, 1, 127)
  /\ report mp_i8 (eval (write_fixint (-20) ;; decode_single) (fixture 0x200))
     = (MPMarker.NegFixInt, 1, -20)
  /\ report mp_i8 (eval (write_fixint (-33) ;; decode_single) (fixture 0x200))
     = (MPMarker.NegFixInt, 1, -1)
  /\ eval (write_fixint 0x7f ;; a <- decode_single ;;
           write_fixint (-20) ;; b <- decode_single ;;
           write_fixint (-33) ;; c <- decode_single ;;
           ret (get_as mp_u8 a, get_as mp_i8 b, get_as mp_i8 c)) (fixture 0x200)
     = (0x7f, -20, -1)
  /\ (forall value : Z,
         let st := run (write_negfixint value) (fixture 0x200) in
         wire 1 st = [Z.lor 0xe0 (Z.land (cast mp_i8 value) 0x1F)]
         /\ report mp_i8 (eval decode_single st)
            = (MPMarker.NegFixInt, 1, Z.land (cast mp_i8 value) 0x1F - 32)).
Proof.
  split; [vm_compute; reflexivity|].
  split; [vm_compute; reflexivity|].
  split; [vm_compute; reflexivity|].
  split; [vm_compute; reflexivity|].
  intros value. unfold write_negfixint. cbv zeta.
  apply negfixint_low5. apply land_low5.
Qed.

(** C10.  When the byte read is the marker of a [Bin], [Ext], [Str],
    [Array16/32] or [Map16/32] header and the length or count field after it
    reads as 0, [decode_single] does not report that marker with size 0: the
    size being 0 sends the byte through the cascade, which reports [FixMap]
    with size [raw & 0x0F]. *)
Theorem zero_length_header_reported_as_fixmap :
  forall (st st1 : St) (raw : Z),
    read_u8 st = (raw, st1) ->
    In raw header_markers ->
    eval (header_field raw) st1 = 0 ->
    marker (eval decode_single st) = MPMarker.FixMap
    /\ size (eval decode_single st) = Z.land raw 0x0F
    /\ marker (eval decode_single st) <> raw.
Proof.
  intros st st1 raw Hread Hin Hfield.
  destruct (header_marker_bits raw Hin) as (B7 & B5 & Hfix & Hne).
  unfold decode_single, eval, bind. rewrite Hread. cbv zeta.
  fold (initial_result raw).
  destruct (decode_switch_header raw (initial_result raw) st1 Hin eq_refl)
    as (k & E & Hk).
  rewrite E. rewrite (Hk Hfield). cbn [size]. rewrite Hfix.
  change (negb false && (0 =? 0)) with true. cbv iota.
  destruct (decode_fallback_markers raw
              (mkResult raw 0 (result (initial_result raw)))
              (run (header_field raw) st1))
    as [[E0 _]|[(_ & E1 & _)|(_ & _ & Hm & Hs)]]; try contradiction.
  cbv zeta in Hm, Hs. rewrite Hm, Hs.
  repeat split. congruence.
Qed.

(** A [Str8] of length 0, the two bytes [d9 00]: reported as [FixMap] with
    size 9. *)
Lemma zero_length_header_reported_as_fixmap_witness :
  marker (eval decode_single (holding 0x200 [0xd9; 0x00])) = MPMarker.FixMap
  /\ size (eval decode_single (holding 0x200 [0xd9; 0x00])) = 9
  /\ marker (eval decode_single (holding 0x200 [0xd9; 0x00])) <> MPMarker.Str8.
Proof.
  apply (zero_length_header_reported_as_fixmap
           (holding 0x200 [0xd9; 0x00])
           (run read_u8 (holding 0x200 [0xd9; 0x00]))
           MPMarker.Str8).
  - vm_compute. reflexivity.
  - vm_compute. tauto.
  - vm_compute. reflexivity.
Defined.

(** * More of the code *)

(** The conditions of the [if]s that are closed are evaluated. *)
Ltac decide_ifs :=
  repeat match goal with
         | |- context [if ?c then _ else _] =>
             let v := eval vm_compute in c in
             match v with
             | true => change c with true
             | false => change c with false
             end; cbv iota
         end.

Section Buffer.

Lemma store_nil (m : stream.Memory) (p : Z) : store m p [] = m.
Proof. unfold store. cbn [app length]. rewrite skipn_O. apply firstn_skipn. Qed.

Lemma length_store (m : stream.Memory) (p : Z) (bs : list Z) :
  0 <= p -> p + len bs <= len m -> length (store m p bs) = length m.
Proof.
  unfold store, len. intros Hp Hle.
  rewrite !length_app, length_firstn, !length_skipn. lia.
Qed.

Lemma from_store (m : stream.Memory) (p : Z) (bs : list Z) :
  0 <= p -> p <= len m ->
  from p (store m p bs) = bs ++ skipn (length bs) (from p m).
Proof.
  unfold from, store, len. intros Hp Hle.
  rewrite skipn_app, length_firstn.
  replace (Z.to_nat p - Nat.min (Z.to_nat p) (length m))%nat with 0%nat by lia.
  rewrite skipn_firstn_comm.
  replace (Z.to_nat p - Z.to_nat p)%nat with 0%nat by lia.
  reflexivity.
Qed.

Lemma from_plus (m : stream.Memory) (p : Z) (a r : list Z) :
  0 <= p -> from p m = a ++ r -> from (p + len a) m = r.
Proof.
  unfold from, len. intros Hp E.
  replace (Z.to_nat (p + Z.of_nat (length a))) with (length a + Z.to_nat p)%nat by lia.
  rewrite <- skipn_skipn, E, skipn_app, skipn_all, Nat.sub_diag. reflexivity.
Qed.

Lemma store_app (m : stream.Memory) (p : Z) (a b : list Z) :
  0 <= p -> p + len a <= len m ->
  store (store m p a) (p + len a) b = store m p (a ++ b).
Proof.
  unfold store, len. intros Hp Hle.
  replace (Z.to_nat (p + Z.of_nat (length a))) with (Z.to_nat p + length a)%nat by lia.
  set (P := firstn (Z.to_nat p) m). set (S := skipn (Z.to_nat p) m).
  assert (Hf : length (P ++ a) = (Z.to_nat p + length a)%nat).
  { rewrite length_app. unfold P. rewrite length_firstn. lia. }
  rewrite (app_assoc P a). rewrite <- Hf.
  rewrite firstn_app, firstn_all, Nat.sub_diag, firstn_O, app_nil_r.
  rewrite (skipn_app (length (P ++ a))), skipn_all, Nat.sub_diag, skipn_O.
  cbn [app]. rewrite <- !app_assoc. do 3 f_equal.
  rewrite length_app, skipn_skipn. f_equal. lia.
Qed.

Lemma nth_store_outside (m : stream.Memory) (p : Z) (bs : list Z) (i : nat) :
  0 <= p -> p + len bs <= len m ->
  (Z.of_nat i < p \/ p + len bs <= Z.of_nat i) ->
  nth i (store m p bs) 0 = nth i m 0.
Proof.
  unfold store, len. intros Hp Hle Hi.
  set (P := firstn (Z.to_nat p) m). set (S := skipn (Z.to_nat p) m).
  assert (Hf : length P = Z.to_nat p) by (unfold P; rewrite length_firstn; lia).
  transitivity (nth i (P ++ S) 0); [|f_equal; apply firstn_skipn].
  destruct Hi as [Hi|Hi].
  - rewrite !(app_nth1 P) by lia. reflexivity.
  - rewrite !(app_nth2 P) by lia. rewrite app_nth2 by lia.
    rewrite nth_skipn. f_equal. lia.
Qed.

(** *** Accepted operations *)

Lemma write_accepted (count : Z) (s : list Z) (p n : Z) (m : stream.Memory) :
  0 <= p -> 0 < count -> count < n -> p + count <= n -> n < 2 ^ 32 ->
  count <= len s ->
  stream._write_and_advance count (Some s) (writer_at p n) m
  = (writer_at (p + count) n, store m p (firstn (Z.to_nat count) s)).
Proof.
  intros Hp Hc Hn Hle H32 Hs. unfold stream._write_and_advance, writer_at.
  cbn [stream.wbase stream.writer_ stream.position_ stream.stream_size_ is_null
       stream.writer_ok stream.buffer_ negb andb].
  rewrite (proj2 (Z.eqb_neq count 0)) by lia.
  rewrite Z.geb_leb, (proj2 (Z.leb_gt n count)) by lia.
  rewrite Z.gtb_ltb, (proj2 (Z.ltb_ge n (p + count))) by lia.
  cbn [orb]. unfold stream.set_position. cbn [stream.stream_size_ stream.buffer_].
  rewrite wrap_small by lia. f_equal.
  unfold store, stream.memcpy, len in *. rewrite length_firstn.
  replace (Nat.min (Z.to_nat count) (length s)) with (Z.to_nat count) by lia.
  reflexivity.
Qed.

Lemma read_accepted (count : Z) (d : list Z) (peek : bool) (p n : Z) (m : stream.Memory) :
  0 <= p -> 0 < count -> count < n -> p + count <= n -> n < 2 ^ 32 ->
  stream._read_and_advance count (Some d) peek (reader_at p n) m
  = (Some (firstn (Z.to_nat count) (from p m) ++ skipn (Z.to_nat count) d),
     if peek then reader_at p n else reader_at (p + count) n).
Proof.
  intros Hp Hc Hn Hle H32. unfold stream._read_and_advance, reader_at.
  cbn [stream.rbase stream.reader_ stream.position_ stream.stream_size_ is_null
       stream.reader_ok stream.buffer_ negb andb].
  rewrite (proj2 (Z.eqb_neq count 0)) by lia.
  rewrite Z.geb_leb, (proj2 (Z.leb_gt n count)) by lia.
  rewrite Z.gtb_ltb, (proj2 (Z.ltb_ge n (p + count))) by lia.
  cbn [orb]. unfold stream.set_position. cbn [stream.stream_size_ stream.buffer_].
  rewrite wrap_small by lia. reflexivity.
Qed.

Lemma sizeof_len (t : Ty) (v : Z) : len (to_bytes t v) = Z.of_nat (sizeof t).
Proof. unfold len, to_bytes. rewrite length_le_split. reflexivity. Qed.

Lemma of_bytes_app (t : Ty) (bs rest : list Z) :
  length bs = sizeof t -> of_bytes t (bs ++ rest) = of_bytes t bs.
Proof.
  intros H. unfold of_bytes. rewrite firstn_app, H, Nat.sub_diag. cbn [firstn].
  rewrite app_nil_r. reflexivity.
Qed.

Lemma read_pod_accepted (t : Ty) (peek : bool) (p n : Z) (m : stream.Memory)
    (bs rest : list Z) :
  0 <= p -> Z.of_nat (sizeof t) < n -> p + Z.of_nat (sizeof t) <= n -> n < 2 ^ 32 ->
  from p m = bs ++ rest -> length bs = sizeof t ->
  stream._read_pod t peek (reader_at p n) m
  = (of_bytes t bs,
     if peek then reader_at p n else reader_at (p + Z.of_nat (sizeof t)) n).
Proof.
  intros Hp Hn Hle H32 E Hl. unfold stream._read_pod.
  pose proof (sizeof_pos t) as Hk.
  rewrite read_accepted by lia. cbn [default]. rewrite E, Nat2Z.id.
  rewrite <- Hl at 1. rewrite firstn_app, firstn_all, Nat.sub_diag. cbn [firstn].
  rewrite app_nil_r, skipn_all2 by (rewrite repeat_length; lia).
  rewrite app_nil_r. reflexivity.
Qed.

Lemma cast_of_mod (t : Ty) (v : Z) :
  cast t (v mod 256 ^ Z.of_nat (sizeof t)) = cast t v.
Proof.
  destruct t; unfold cast, to_signed, wrap; cbn [is_signed sizeof];
    match goal with
    | |- context [256 ^ Z.of_nat ?k] =>
        change (256 ^ Z.of_nat k) with (2 ^ (8 * Z.of_nat k))
    end;
    rewrite Z.mod_mod by discriminate; reflexivity.
Qed.

(** Storing a value of type [t] and loading it back converts it to [t]. *)
Lemma of_bytes_to_bytes (t : Ty) (v : Z) : of_bytes t (to_bytes t v) = cast t v.
Proof.
  unfold of_bytes, to_bytes.
  rewrite firstn_all2 by (rewrite length_le_split; lia).
  rewrite le_combine_split. apply cast_of_mod.
Qed.

Lemma firstn_to_bytes (t : Ty) (v : Z) :
  firstn (Z.to_nat (Z.of_nat (sizeof t))) (to_bytes t v) = to_bytes t v.
Proof. apply firstn_all2. unfold to_bytes. rewrite length_le_split. lia. Qed.

Lemma write_pod_accepted (t : Ty) (v : Z) (p n : Z) (m : stream.Memory) :
  room (Z.of_nat (sizeof t)) p n m ->
  stream.write_pod t v (writer_at p n) m
  = (writer_at (p + Z.of_nat (sizeof t)) n, store m p (to_bytes t v)).
Proof.
  intros (Hp & Hle & Hn & H32 & Hm). unfold stream.write_pod.
  pose proof (sizeof_pos t) as Hk.
  rewrite write_accepted by (rewrite ?sizeof_len; lia).
  rewrite firstn_to_bytes. reflexivity.
Qed.

End Buffer.

(** X1.  A typed write that has room is read back by the typed read of the
    same type at the same position: the value comes back converted to the
    type, [static_cast<Ty>( v )], and both cursors have advanced by
    [sizeof( Ty )]. *)
Theorem pod_write_then_read :
  forall (t : Ty) (v p n : Z) (m : stream.Memory),
    room (Z.of_nat (sizeof t)) p n m ->
    let '(w', m') := stream.write_pod t v (writer_at p n) m in
    w' = writer_at (p + Z.of_nat (sizeof t)) n
    /\ stream._read_pod t false (reader_at p n) m'
       = (cast t v, reader_at (p + Z.of_nat (sizeof t)) n).
Proof.
  intros t v p n m R. rewrite (write_pod_accepted t v p n m R).
  destruct R as (Hp & Hle & Hn & H32 & Hm). split; [reflexivity|].
  rewrite (read_pod_accepted t false p n _ (to_bytes t v)
             (skipn (length (to_bytes t v)) (from p m))).
  - rewrite of_bytes_to_bytes. reflexivity.
  - exact Hp.
  - exact Hn.
  - exact Hle.
  - exact H32.
  - apply from_store; [exact Hp|]. pose proof (sizeof_pos t). lia.
  - unfold to_bytes. apply length_le_split.
Qed.

Lemma pod_write_then_read_witness :
  let '(w', m') := stream.write_pod mp_i16 (-2) (writer_at 3 0x200) (zeroed 0x200) in
  w' = writer_at (3 + Z.of_nat (sizeof mp_i16)) 0x200
  /\ stream._read_pod mp_i16 false (reader_at 3 0x200) m'
     = (cast mp_i16 (-2), reader_at (3 + Z.of_nat (sizeof mp_i16)) 0x200).
Proof.
  apply (pod_write_then_read mp_i16 (-2) 3 0x200 (zeroed 0x200)).
  unfold room, len. vm_compute. intuition discriminate.
Defined.

(** X2.  A raw [write] of [count] bytes that has room, followed by a raw
    [read] of [count] bytes at the same position, fills the first [count]
    bytes of the destination with the first [count] bytes of the source and
    leaves the rest of the destination as it was. *)
Theorem raw_write_then_read :
  forall (count : Z) (src dst : list Z) (p n : Z) (m : stream.Memory),
    0 < count -> count <= len src -> room count p n m ->
    let '(w', m') := stream.write count (Some src) (writer_at p n) m in
    w' = writer_at (p + count) n
    /\ stream.read count (Some dst) (reader_at p n) m'
       = (Some (firstn (Z.to_nat count) src ++ skipn (Z.to_nat count) dst),
          reader_at (p + count) n).
Proof.
  intros count src dst p n m Hc Hs (Hp & Hle & Hn & H32 & Hm).
  unfold stream.write, stream.read.
  rewrite write_accepted by lia. split; [reflexivity|].
  rewrite read_accepted by lia. rewrite from_store by lia.
  do 2 f_equal. rewrite firstn_app.
  assert (Hl : length (firstn (Z.to_nat count) src) = Z.to_nat count)
    by (rewrite length_firstn; unfold len in Hs; lia).
  rewrite Hl, Nat.sub_diag. cbn [firstn]. rewrite app_nil_r.
  f_equal. apply firstn_all2. lia.
Qed.

Lemma raw_write_then_read_witness :
  let '(w', m') := stream.write 3 (Some [97; 98; 99]) (writer_at 0 0x200) (zeroed 0x200) in
  w' = writer_at (0 + 3) 0x200
  /\ stream.read 3 (Some [1; 2; 3; 4]) (reader_at 0 0x200) m'
     = (Some (firstn (Z.to_nat 3) [97; 98; 99] ++ skipn (Z.to_nat 3) [1; 2; 3; 4]),
        reader_at (0 + 3) 0x200).
Proof.
  apply (raw_write_then_read 3 [97; 98; 99] [1; 2; 3; 4] 0 0x200 (zeroed 0x200)).
  - lia.
  - vm_compute. discriminate.
  - unfold room, len. vm_compute. intuition discriminate.
Defined.

(** X3.  An accepted raw [write] advances the cursor by [count], keeps the
    length of the block, puts the source bytes at [position .. position +
    count) and changes no byte outside that window. *)
Theorem accepted_write_touches_its_window_only :
  forall (count : Z) (src : list Z) (p n : Z) (m : stream.Memory),
    0 < count -> count <= len src -> room count p n m ->
    let '(w', m') := stream.write count (Some src) (writer_at p n) m in
    stream.position (stream.wbase w') = p + count
    /\ length m' = length m
    /\ firstn (Z.to_nat count) (from p m') = firstn (Z.to_nat count) src
    /\ (forall i : nat,
           Z.of_nat i < p \/ p + count <= Z.of_nat i -> nth i m' 0 = nth i m 0).
Proof.
  intros count src p n m Hc Hs (Hp & Hle & Hn & H32 & Hm).
  unfold stream.write. rewrite write_accepted by lia.
  assert (Hl : len (firstn (Z.to_nat count) src) = count)
    by (unfold len in *; rewrite length_firstn; lia).
  split; [reflexivity|]. split; [|split].
  - apply length_store; lia.
  - rewrite from_store by lia. rewrite firstn_app.
    unfold len in Hl. replace (length (firstn (Z.to_nat count) src)) with (Z.to_nat count) by lia.
    rewrite Nat.sub_diag. cbn [firstn]. rewrite app_nil_r.
    apply firstn_all2. rewrite length_firstn. lia.
  - intros i Hi. apply nth_store_outside; lia.
Qed.

Lemma accepted_write_touches_its_window_only_witness :
  let '(w', m') := stream.write 2 (Some [7; 8; 9]) (writer_at 1 4) [1; 2; 3; 4; 5] in
  stream.position (stream.wbase w') = 1 + 2
  /\ length m' = length [1; 2; 3; 4; 5]
  /\ firstn (Z.to_nat 2) (from 1 m') = firstn (Z.to_nat 2) [7; 8; 9]
  /\ (forall i : nat,
         Z.of_nat i < 1 \/ 1 + 2 <= Z.of_nat i -> nth i m' 0 = nth i [1; 2; 3; 4; 5] 0).
Proof.
  apply (accepted_write_touches_its_window_only 2 [7; 8; 9] 1 4 [1; 2; 3; 4; 5]).
  - lia.
  - vm_compute. discriminate.
  - unfold room, len. vm_compute. intuition discriminate.
Defined.

(** X4.  In every state a typed [peek_*] leaves the cursor as it is and
    returns the value the [read_*] of the same type returns there. *)
Theorem peek_returns_what_read_returns :
  forall (t : Ty) (r : stream.StreamReader) (m : stream.Memory),
    let '(v, r') := stream._read_pod t true r m in
    r' = r /\ fst (stream._read_pod t false r m) = v.
Proof.
  intros t r m. unfold stream._read_pod, stream._read_and_advance.
  destruct ((Z.of_nat (sizeof t) =? 0) || is_null (Some (repeat 0 (sizeof t)))
            || (Z.of_nat (sizeof t) >=? stream.stream_size_ (stream.rbase r))
            || (stream.position_ (stream.rbase r) + Z.of_nat (sizeof t)
                >? stream.stream_size_ (stream.rbase r))
            || negb (stream.reader_ok r)); [split; reflexivity|].
  destruct (stream.reader_ r) as [f|]; split; reflexivity.
Qed.

(** X5.  [StreamWriter::clear] on a cursor with a buffer zeroes the first
    [stream_size_] bytes of the block, leaves the bytes behind them, and
    rewinds the position to 0; the size and the registered function stay. *)
Theorem clear_zero_fills_and_rewinds :
  forall (w : stream.StreamWriter) (m : stream.Memory),
    stream.buffer_ (stream.wbase w) = true ->
    0 <= stream.stream_size_ (stream.wbase w) <= len m ->
    let '(w', m') := stream.clear w m in
    stream.position (stream.wbase w') = 0
    /\ stream.stream_size (stream.wbase w') = stream.stream_size (stream.wbase w)
    /\ stream.writer_ w' = stream.writer_ w
    /\ length m' = length m
    /\ (forall i : nat,
           (Z.of_nat i < stream.stream_size_ (stream.wbase w) -> nth i m' 0 = 0)
           /\ (stream.stream_size_ (stream.wbase w) <= Z.of_nat i ->
               nth i m' 0 = nth i m 0)).
Proof.
  intros w m Hb Hn. unfold stream.clear. rewrite Hb. unfold len in Hn.
  set (k := Z.to_nat (stream.stream_size_ (stream.wbase w))).
  replace (Nat.min k (length m)) with k by lia.
  split; [reflexivity|]. split; [reflexivity|]. split; [reflexivity|].
  split.
  - rewrite length_app, repeat_length, length_skipn. lia.
  - intros i. split; intros Hi.
    + rewrite app_nth1 by (rewrite repeat_length; lia). apply nth_repeat.
    + rewrite app_nth2 by (rewrite repeat_length; lia).
      rewrite repeat_length, nth_skipn. f_equal. lia.
Qed.

Lemma clear_zero_fills_and_rewinds_witness :
  let '(w', m') := stream.clear (writer_at 3 4) [1; 2; 3; 4; 5] in
  stream.position (stream.wbase w') = 0
  /\ stream.stream_size (stream.wbase w') = stream.stream_size (stream.wbase (writer_at 3 4))
  /\ stream.writer_ w' = stream.writer_ (writer_at 3 4)
  /\ length m' = length [1; 2; 3; 4; 5]
  /\ (forall i : nat,
         (Z.of_nat i < stream.stream_size_ (stream.wbase (writer_at 3 4)) -> nth i m' 0 = 0)
         /\ (stream.stream_size_ (stream.wbase (writer_at 3 4)) <= Z.of_nat i ->
             nth i m' 0 = nth i [1; 2; 3; 4; 5] 0)).
Proof.
  apply (clear_zero_fills_and_rewinds (writer_at 3 4) [1; 2; 3; 4; 5]).
  - reflexivity.
  - vm_compute. intuition discriminate.
Defined.

Lemma step_refused (op : Op) (r : stream.StreamReader) (w : stream.StreamWriter)
    (m : stream.Memory) :
  op_refused op r w -> step op (r, w, m) = (r, w, m).
Proof.
  intros H. destruct op as [count dst|t peek|count src|t value]; cbn in H |- *.
  - unfold stream.read. rewrite (read_refused _ _ _ _ _ H). reflexivity.
  - rewrite (read_pod_refused _ _ _ _ H). reflexivity.
  - unfold stream.write. rewrite (write_refused _ _ _ _ H). reflexivity.
  - unfold stream.write_pod.
    rewrite (write_refused _ (Some (to_bytes t value)) w m H). reflexivity.
Qed.

Lemma unbound_refuses (op : Op) (r : stream.StreamReader) (w : stream.StreamWriter) :
  stream.buffer_ (stream.rbase r) = false -> stream.buffer_ (stream.wbase w) = false ->
  op_refused op r w.
Proof.
  intros Hr Hw. destruct op; cbn; unfold refused; tauto.
Qed.

(** X6.  After [reset] or [reset_temporal] a cursor pair refuses every
    operation, raw or typed, and every typed read returns 0.  After
    [reset_temporal] the registered function is still there: [set_temporal]
    with a buffer gives the working cursor back. *)
Theorem reset_cursor_refuses_everything :
  forall (op : Op) (r : stream.StreamReader) (w : stream.StreamWriter)
         (m : stream.Memory),
    step op (stream.reader_reset r, stream.writer_reset w, m)
    = (stream.reader_reset r, stream.writer_reset w, m)
    /\ step op (stream.reader_reset_temporal r, stream.writer_reset_temporal w, m)
       = (stream.reader_reset_temporal r, stream.writer_reset_temporal w, m)
    /\ (forall t peek,
           fst (stream._read_pod t peek (stream.reader_reset r) m) = 0
           /\ fst (stream._read_pod t peek (stream.reader_reset_temporal r) m) = 0)
    /\ (forall p n q k,
           stream.reader_set_temporal p n true (stream.reader_reset_temporal (reader_at q k))
           = reader_at p n
           /\ stream.writer_set_temporal p n true (stream.writer_reset_temporal (writer_at q k))
              = writer_at p n).
Proof.
  intros op r w m. split; [|split; [|split]].
  - apply step_refused, unbound_refuses; reflexivity.
  - apply step_refused, unbound_refuses; reflexivity.
  - intros t peek. split; rewrite read_pod_refused; try reflexivity;
      unfold refused; cbn; tauto.
  - intros p n q k. split; reflexivity.
Qed.

Section Encoders.

Lemma len_app (a b : list Z) : len (a ++ b) = len a + len b.
Proof. unfold len. rewrite length_app. lia. Qed.

Lemma len_nonneg (a : list Z) : 0 <= len a.
Proof. unfold len. lia. Qed.

Lemma room_left (a b : list Z) (p n : Z) (m : stream.Memory) :
  room (len (a ++ b)) p n m -> room (len a) p n m.
Proof.
  rewrite len_app. pose proof (len_nonneg a). pose proof (len_nonneg b).
  unfold room. lia.
Qed.

Lemma room_right (a b : list Z) (p n : Z) (m : stream.Memory) :
  room (len (a ++ b)) p n m -> room (len b) (p + len a) n (store m p a).
Proof.
  rewrite len_app. pose proof (len_nonneg a). pose proof (len_nonneg b).
  unfold room. intros (Hp & Hle & Hn & H32 & Hm).
  assert (len (store m p a) = len m) by (unfold len; rewrite length_store; lia).
  lia.
Qed.

Lemma encodes_ret : encodes (ret tt) [].
Proof.
  intros rp wp n m _. unfold ret. rewrite store_nil. unfold len. cbn [length].
  rewrite Z.add_0_r. reflexivity.
Qed.

Lemma encodes_bind (c1 c2 : M unit) (e1 e2 : list Z) :
  encodes c1 e1 -> encodes c2 e2 -> encodes (c1 ;; c2) (e1 ++ e2).
Proof.
  intros H1 H2 rp wp n m R. unfold bind.
  rewrite (H1 rp wp n m (room_left _ _ _ _ _ R)).
  rewrite (H2 rp (wp + len e1) n _ (room_right _ _ _ _ _ R)).
  destruct R as (Hp & Hle & Hn & H32 & Hm). rewrite len_app in *.
  pose proof (len_nonneg e2).
  rewrite store_app by lia. rewrite Z.add_assoc. reflexivity.
Qed.

Lemma encodes_write_pod (t : Ty) (v : Z) :
  encodes (on_wr (stream.write_pod t v)) (to_bytes t v).
Proof.
  intros rp wp n m R. rewrite sizeof_len in *.
  unfold on_wr, codec. cbn [wr_ sr_ buffer_ reader_].
  fold (writer_at wp n). rewrite (write_pod_accepted t v wp n m R). reflexivity.
Qed.

Lemma encodes_write (count : Z) (s : list Z) :
  0 <= count <= len s ->
  encodes (on_wr (stream.write count (Some s))) (firstn (Z.to_nat count) s).
Proof.
  intros Hc rp wp n m R.
  assert (Hl : len (firstn (Z.to_nat count) s) = count)
    by (unfold len in *; rewrite length_firstn; lia).
  rewrite Hl in *. destruct R as (Hp & Hle & Hn & H32 & Hm).
  unfold on_wr, codec. cbn [wr_ sr_ buffer_ reader_]. fold (writer_at wp n).
  unfold stream.write.
  destruct (Z.eq_dec count 0) as [->|Hz].
  - cbn [Z.to_nat firstn]. rewrite store_nil, Z.add_0_r. reflexivity.
  - rewrite write_accepted by lia. reflexivity.
Qed.

(** A write from a null pointer leaves everything as it is. *)
Lemma write_null (count : Z) (st : St) :
  on_wr (stream.write count None) st = (tt, st).
Proof.
  destruct st as [[r w b f] m]. unfold on_wr, stream.write. cbn [wr_ sr_ buffer_ reader_].
  rewrite write_refused; [reflexivity|]. unfold refused. cbn. tauto.
Qed.

Lemma encodes_marker (mk : Z) : encodes (write_marker mk) [mk mod 256].
Proof.
  unfold write_marker.
  replace [mk mod 256] with (to_bytes mp_u8 (cast mp_u8 mk)); [apply encodes_write_pod|].
  unfold to_bytes, cast, wrap. cbn [sizeof is_signed le_split].
  change (2 ^ (8 * Z.of_nat 1)) with 256. rewrite Z.mod_mod by discriminate. reflexivity.
Qed.

Lemma encodes_eq (c : M unit) (e e' : list Z) : encodes c e -> e = e' -> encodes c e'.
Proof. intros H <-. exact H. Qed.

(** *** Conversions keep the low bytes *)

Lemma cast_mod_full (t : Ty) (v : Z) :
  cast t v mod 256 ^ Z.of_nat (sizeof t) = v mod 256 ^ Z.of_nat (sizeof t).
Proof.
  destruct t; unfold cast, to_signed, wrap; cbn [is_signed sizeof];
    match goal with
    | |- context [256 ^ Z.of_nat ?k] =>
        change (256 ^ Z.of_nat k) with (2 ^ (8 * Z.of_nat k))
    end;
    try (apply Z.mod_mod; discriminate);
    match goal with
    | |- context [if ?c then _ else _] => destruct c
    end;
    try (apply Z.mod_mod; discriminate);
    match goal with
    | |- (?u - ?M) mod ?M = _ =>
        replace (u - M) with (u + (-1) * M) by ring;
        rewrite Z.mod_add by discriminate; apply Z.mod_mod; discriminate
    end.
Qed.

Lemma mod_narrow (a b : Z) (k j : nat) :
  (k <= j)%nat ->
  a mod 256 ^ Z.of_nat j = b mod 256 ^ Z.of_nat j ->
  a mod 256 ^ Z.of_nat k = b mod 256 ^ Z.of_nat k.
Proof.
  intros Hk E.
  assert (D : (256 ^ Z.of_nat k | 256 ^ Z.of_nat j)).
  { exists (256 ^ (Z.of_nat j - Z.of_nat k)).
    rewrite <- Z.pow_add_r by lia. f_equal. lia. }
  rewrite <- (Z.mod_mod_divide a _ _ D), <- (Z.mod_mod_divide b _ _ D), E.
  reflexivity.
Qed.

Lemma le_split_congr (k : nat) (a b : Z) :
  a mod 256 ^ Z.of_nat k = b mod 256 ^ Z.of_nat k -> le_split k a = le_split k b.
Proof. intros E. rewrite <- (le_split_mod k a), <- (le_split_mod k b), E. reflexivity. Qed.

Lemma le_split_cast (k : nat) (t : Ty) (v : Z) :
  (k <= sizeof t)%nat -> le_split k (cast t v) = le_split k v.
Proof.
  intros Hk. apply le_split_congr, (mod_narrow _ _ k (sizeof t) Hk), cast_mod_full.
Qed.

Lemma be_bytes_cast (k : nat) (t : Ty) (v : Z) :
  (k <= sizeof t)%nat -> be_bytes k (cast t v) = be_bytes k v.
Proof. intros Hk. unfold be_bytes. rewrite le_split_cast by exact Hk. reflexivity. Qed.

Lemma length_be_bytes (k : nat) (v : Z) : length (be_bytes k v) = k.
Proof. unfold be_bytes. rewrite length_rev. apply length_le_split. Qed.

Lemma be_bytes_1 (v : Z) : be_bytes 1 v = [v mod 256].
Proof. reflexivity. Qed.

End Encoders.

Section Items.

Ltac encodes_steps :=
  unfold write_marker;
  repeat first [ apply encodes_write_pod | apply encodes_ret | eapply encodes_bind ].

Lemma be_bytes_8 (d : Z) : le_split 1 (cast mp_u8 (Z.land d 0xff)) = be_bytes 1 d.
Proof. apply (le_split_cast_land 1). Qed.

Lemma encodes_item (i : Item) : encodes (write_item i) (item_wire i).
Proof.
  destruct i as [v|v|v|v|v|v|v|b]; unfold write_item, item_wire;
    [ unfold write_u8 | unfold write_i8 | unfold write_u16 | unfold write_i16
    | unfold write_u32 | unfold write_i32 | unfold write_i64
    | destruct b; unfold write_boolean, write_true, write_false ];
    unfold write_raw_value; decide_ifs;
    (eapply encodes_eq; [encodes_steps|]);
    unfold item_payload, item_ty, item_marker, to_bytes,
      stream.write_u8, stream.write_u16, stream.write_u32, stream.write_u64;
    cbn [sizeof]; rewrite ?app_nil_r;
    rewrite ?be_bytes_8, ?be_bytes_16, ?be_bytes_32, ?be_bytes_64;
    rewrite ?be_bytes_cast by (cbn; lia); reflexivity.
Qed.

Lemma on_sr_pod (t : Ty) (rp wp n : Z) (m : stream.Memory) (bs rest : list Z) :
  0 <= rp -> Z.of_nat (sizeof t) < n -> rp + Z.of_nat (sizeof t) <= n -> n < 2 ^ 32 ->
  from rp m = bs ++ rest -> length bs = sizeof t ->
  on_sr (stream._read_pod t false) (codec rp wp n, m)
  = (of_bytes t bs, (codec (rp + Z.of_nat (sizeof t)) wp n, m)).
Proof.
  intros Hp Hn Hle H32 E Hl. unfold on_sr, codec. cbn [wr_ sr_ buffer_ reader_].
  fold (reader_at rp n).
  rewrite (read_pod_accepted t false rp n m bs rest Hp Hn Hle H32 E Hl). reflexivity.
Qed.

(** What the typed reads of [MessagePack] make of big-endian bytes. *)
Lemma of_bytes_be (t : Ty) (v : Z) :
  of_bytes t (be_bytes (sizeof t) v) = cast t (bswap (sizeof t) v).
Proof. rewrite <- le_split_bswap. apply of_bytes_to_bytes. Qed.

Lemma cast_unsigned_mod (t : Ty) (v : Z) :
  is_signed t = false -> cast t v = v mod 256 ^ Z.of_nat (sizeof t).
Proof.
  intros Hu. destruct t; try discriminate Hu; reflexivity.
Qed.

Lemma bswap_cast (k : nat) (t : Ty) (v : Z) :
  k = sizeof t -> bswap k (cast t v) = bswap k v.
Proof.
  intros ->. rewrite <- (bswap_mod _ (cast t v)), cast_mod_full, bswap_mod. reflexivity.
Qed.

Lemma read_back_unsigned (t : Ty) (v : Z) :
  is_signed t = false ->
  bswap (sizeof t) (of_bytes t (be_bytes (sizeof t) v)) = cast t v.
Proof.
  intros Hu. rewrite of_bytes_be, bswap_cast, bswap_involutive by reflexivity.
  symmetry. apply cast_unsigned_mod, Hu.
Qed.

Lemma read_back_signed (t u : Ty) (v : Z) :
  sizeof u = sizeof t ->
  cast t (bswap (sizeof t) (cast u (of_bytes t (be_bytes (sizeof t) v)))) = cast t v.
Proof.
  intros Hs. rewrite of_bytes_be.
  rewrite (bswap_cast _ u) by (symmetry; exact Hs).
  rewrite (bswap_cast _ t) by reflexivity.
  rewrite bswap_involutive. apply cast_of_mod.
Qed.

Lemma read_back_byte (t : Ty) (v : Z) :
  sizeof t = 1%nat -> of_bytes t (be_bytes 1 v) = cast t v.
Proof.
  intros H. change (be_bytes 1 v) with (le_split 1 v). rewrite <- H.
  apply of_bytes_to_bytes.
Qed.

Ltac read_payload t :=
  unfold read_u8, read_u16, read_u32, read_i16, read_i32, read_i64, bind, ret,
    stream.read_u8, stream.read_i8, stream.read_u16, stream.read_i16,
    stream.read_u32, stream.read_i32, stream.read_i64;
  match goal with
  | E1 : from ?q ?m = ?bs ++ ?rest |- context [on_sr (stream._read_pod t false) (codec ?q ?wp ?n, ?m)] =>
      rewrite (on_sr_pod t q wp n m bs rest);
      [|lia|cbn; lia|cbn; lia|lia|exact E1|apply length_be_bytes]
  end.

Lemma decodes_item (i : Item) : decodes (item_wire i) (item_result i).
Proof.
  intros rp wp n m rest E R.
  assert (Hlen : len (item_wire i) = 1 + Z.of_nat (length (item_payload i)))
    by (unfold item_wire, len; cbn [length]; lia).
  assert (E1 : from (rp + 1) m = item_payload i ++ rest)
    by (apply (from_plus m rp [item_marker i]); [apply R|exact E]).
  destruct R as (Hp & Hle & Hn & H32 & Hm). rewrite Hlen in *.
  unfold decode_single, bind. unfold read_u8 at 1. unfold stream.read_u8.
  rewrite (on_sr_pod mp_u8 rp wp n m [item_marker i] (item_payload i ++ rest));
    [|lia|cbn; lia|cbn; lia|lia|exact E|reflexivity].
  replace (of_bytes mp_u8 [item_marker i]) with (item_marker i)
    by (destruct i as [v|v|v|v|v|v|v|[|]]; reflexivity).
  cbv zeta. fold (initial_result (item_marker i)).
  change (Z.of_nat (sizeof mp_u8)) with 1.
  destruct i as [v|v|v|v|v|v|v|b].
  8: { destruct b; cbn [item_marker item_payload length] in *;
       unfold decode_switch; decide_ifs; unfold ret; cbv beta iota; decide_ifs;
       unfold item_result, item_marker; cbn [Z.of_nat]; rewrite Z.add_0_r; reflexivity. }
  all: cbn [item_marker item_payload item_ty] in *; rewrite length_be_bytes in *;
    cbn [sizeof] in *; unfold decode_switch; decide_ifs.
  - read_payload mp_u8. cbv beta iota. decide_ifs. unfold ret.
    rewrite (read_back_byte mp_u8) by reflexivity. rewrite Z.add_assoc. reflexivity.
  - read_payload mp_i8. cbv beta iota. decide_ifs. unfold ret.
    rewrite (read_back_byte mp_i8) by reflexivity. rewrite Z.add_assoc. reflexivity.
  - read_payload mp_u16. cbv beta iota. decide_ifs. unfold ret, bswap_intrin16.
    rewrite (read_back_unsigned mp_u16) by reflexivity. rewrite Z.add_assoc. reflexivity.
  - read_payload mp_i16. cbv beta iota. decide_ifs. unfold ret, bswap_intrin16.
    rewrite (read_back_signed mp_i16 mp_u16) by reflexivity. rewrite Z.add_assoc. reflexivity.
  - read_payload mp_u32. cbv beta iota. decide_ifs. unfold ret, bswap_intrin32.
    rewrite (read_back_unsigned mp_u32) by reflexivity. rewrite Z.add_assoc. reflexivity.
  - read_payload mp_i32. cbv beta iota. decide_ifs. unfold ret, bswap_intrin32.
    rewrite (read_back_signed mp_i32 mp_u32) by reflexivity. rewrite Z.add_assoc. reflexivity.
  - read_payload mp_i64. cbv beta iota. decide_ifs. unfold ret, bswap_intrin64.
    rewrite (read_back_signed mp_i64 mp_u64) by reflexivity. rewrite Z.add_assoc. reflexivity.
Qed.

Lemma encodes_items (items : list Item) : encodes (write_items items) (items_wire items).
Proof.
  induction items as [|i items IH]; cbn [write_items items_wire map concat].
  - apply encodes_ret.
  - apply encodes_bind; [apply encodes_item|exact IH].
Qed.

Lemma room_split (a b : list Z) (p n : Z) (m : stream.Memory) :
  room (len (a ++ b)) p n m -> room (len a) p n m /\ room (len b) (p + len a) n m.
Proof.
  rewrite len_app. pose proof (len_nonneg a). pose proof (len_nonneg b).
  unfold room. lia.
Qed.

Lemma decode_items (items : list Item) (rp wp n : Z) (m : stream.Memory) (rest : list Z) :
  from rp m = items_wire items ++ rest ->
  room (len (items_wire items)) rp n m ->
  decode_n (length items) (codec rp wp n, m)
  = (map item_result items, (codec (rp + len (items_wire items)) wp n, m)).
Proof.
  revert rp. induction items as [|i items IH]; intros rp E R;
    cbn [length decode_n items_wire map concat] in *.
  - unfold ret, len. cbn [length]. rewrite Z.add_0_r. reflexivity.
  - fold (items_wire items) in *. rewrite <- app_assoc in E.
    destruct (room_split _ _ _ _ _ R) as [R1 R2].
    unfold bind. rewrite (decodes_item i rp wp n m _ E R1).
    rewrite (IH (rp + len (item_wire i))); [|apply (from_plus m rp); [apply R|exact E]|exact R2].
    unfold ret. rewrite len_app, Z.add_assoc. reflexivity.
Qed.

Lemma cast_idem (t : Ty) (v : Z) : cast t (cast t v) = cast t v.
Proof. rewrite <- (cast_of_mod t (cast t v)), cast_mod_full. apply cast_of_mod. Qed.

Lemma get_as_int_result (mk : Z) (t : Ty) (x : Z) : get_as t (int_result mk t x) = cast t x.
Proof.
  destruct t;
    match goal with
    | |- get_as ?t _ = _ => rewrite <- (of_bytes_to_bytes t x); reflexivity
    end.
Qed.

Lemma item_result_reads (i : Item) : reads_as i (item_result i).
Proof.
  unfold reads_as.
  destruct i as [v|v|v|v|v|v|v|b]; try (destruct b; repeat split; reflexivity);
    (split; [reflexivity|split; [reflexivity|]]);
    unfold item_result; rewrite get_as_int_result; apply cast_idem.
Qed.

End Items.

(** X7.  A sequence of [write_u8], [write_i8], [write_u16], [write_i16],
    [write_u32], [write_i32], [write_i64] and [write_boolean] calls that has
    room puts, for each value in order, its marker byte followed by the bytes
    of the value most significant first (nothing after the marker of a
    boolean), advances the write cursor by the total and leaves the read
    cursor alone. *)
Theorem typed_writers_put_marker_and_big_endian_bytes :
  forall (items : list Item) (rp wp n : Z) (m : stream.Memory),
    room (len (items_wire items)) wp n m ->
    let '(_, (p', m')) := write_items items (codec rp wp n, m) in
    p' = codec rp (wp + len (items_wire items)) n
    /\ length m' = length m
    /\ firstn (length (items_wire items)) (from wp m') = items_wire items
    /\ (forall i : nat,
           Z.of_nat i < wp \/ wp + len (items_wire items) <= Z.of_nat i ->
           nth i m' 0 = nth i m 0).
Proof.
  intros items rp wp n m R. rewrite (encodes_items items rp wp n m R).
  destruct R as (Hp & Hle & Hn & H32 & Hm).
  split; [reflexivity|]. split; [|split].
  - apply length_store; lia.
  - rewrite from_store by (pose proof (len_nonneg (items_wire items)); lia).
    rewrite firstn_app, Nat.sub_diag, firstn_all. cbn [firstn]. apply app_nil_r.
  - intros i Hi. apply nth_store_outside; lia.
Qed.

Lemma typed_writers_put_marker_and_big_endian_bytes_witness :
  let '(_, (p', m')) :=
    write_items [IUint16 0x1234; IInt32 (-2); IBool true] (codec 0 5 0x200, zeroed 0x200) in
  p' = codec 0 (5 + len (items_wire [IUint16 0x1234; IInt32 (-2); IBool true])) 0x200
  /\ length m' = length (zeroed 0x200)
  /\ firstn (length (items_wire [IUint16 0x1234; IInt32 (-2); IBool true])) (from 5 m')
     = items_wire [IUint16 0x1234; IInt32 (-2); IBool true]
  /\ (forall i : nat,
         Z.of_nat i < 5
         \/ 5 + len (items_wire [IUint16 0x1234; IInt32 (-2); IBool true]) <= Z.of_nat i ->
         nth i m' 0 = nth i (zeroed 0x200) 0).
Proof.
  apply (typed_writers_put_marker_and_big_endian_bytes
           [IUint16 0x1234; IInt32 (-2); IBool true] 0 5 0x200 (zeroed 0x200)).
  unfold room, len. vm_compute. intuition discriminate.
Defined.

Example items_wire_example :
  items_wire [IUint16 0x1234; IInt32 (-2); IBool true]
  = [0xcd; 0x12; 0x34; 0xd2; 0xff; 0xff; 0xff; 0xfe; 0xc3].
Proof. reflexivity. Qed.

(** X8.  Values written by those typed writers are returned by as many
    [decode_single] calls in the order written: each result has the marker
    of its writer, the size of its type, and in the union the value
    converted to that type.  Both cursors end behind the last byte. *)
Theorem typed_values_decode_in_order :
  forall (items : list Item) (p n : Z) (m : stream.Memory),
    room (len (items_wire items)) p n m ->
    let '(drs, (p', _)) :=
      (write_items items ;; decode_n (length items)) (codec p p n, m) in
    Forall2 reads_as items drs
    /\ p' = codec (p + len (items_wire items)) (p + len (items_wire items)) n.
Proof.
  intros items p n m R. unfold bind. rewrite (encodes_items items p p n m R).
  assert (R' : room (len (items_wire items)) p n (store m p (items_wire items))).
  { destruct R as (Hp & Hle & Hn & H32 & Hm). unfold room.
    assert (len (store m p (items_wire items)) = len m)
      by (unfold len; rewrite length_store; lia).
    lia. }
  rewrite (decode_items items p _ n _ (skipn (length (items_wire items)) (from p m))).
  - split; [|reflexivity].
    induction items as [|i items IH]; cbn [map]; constructor.
    + apply item_result_reads.
    + clear. induction items as [|j items IH]; cbn [map]; constructor;
        [apply item_result_reads|exact IH].
  - apply from_store; destruct R as (Hp & Hle & Hn & H32 & Hm);
      pose proof (len_nonneg (items_wire items)); lia.
  - exact R'.
Qed.

Lemma typed_values_decode_in_order_witness :
  let '(drs, (p', _)) :=
    (write_items [IUint16 0x1234; IInt32 (-2); IBool true] ;;
     decode_n (length [IUint16 0x1234; IInt32 (-2); IBool true]))
      (codec 5 5 0x200, zeroed 0x200) in
  Forall2 reads_as [IUint16 0x1234; IInt32 (-2); IBool true] drs
  /\ p' = codec (5 + len (items_wire [IUint16 0x1234; IInt32 (-2); IBool true]))
                (5 + len (items_wire [IUint16 0x1234; IInt32 (-2); IBool true])) 0x200.
Proof.
  apply (typed_values_decode_in_order
           [IUint16 0x1234; IInt32 (-2); IBool true] 5 0x200 (zeroed 0x200)).
  unfold room, len. vm_compute. intuition discriminate.
Defined.

Section Partial.

Lemma on_wr_pod_overflow (t : Ty) (v : Z) (rp q n : Z) (m : stream.Memory) :
  n < q + Z.of_nat (sizeof t) ->
  on_wr (stream.write_pod t v) (codec rp q n, m) = (tt, (codec rp q n, m)).
Proof.
  intros H. unfold on_wr, codec, stream.write_pod. cbn [wr_ sr_ buffer_ reader_].
  rewrite write_refused; [reflexivity|]. unfold refused. cbn. lia.
Qed.

Lemma marker_only (i : Item) (rp wp n : Z) (m : stream.Memory) :
  item_payload i <> [] ->
  room 1 wp n m -> n < wp + 1 + len (item_payload i) ->
  write_item i (codec rp wp n, m)
  = (tt, (codec rp (wp + 1) n, store m wp [item_marker i])).
Proof.
  intros Hne R Hover.
  destruct i as [v|v|v|v|v|v|v|b]; [..|contradiction]; clear Hne;
    unfold item_payload, item_ty, len in Hover; rewrite length_be_bytes in Hover;
    cbn [sizeof] in Hover;
    unfold write_item;
    [ unfold write_u8 | unfold write_i8 | unfold write_u16 | unfold write_i16
    | unfold write_u32 | unfold write_i32 | unfold write_i64 ];
    unfold write_raw_value; decide_ifs;
    unfold write_marker, stream.write_u8, stream.write_u16, stream.write_u32,
      stream.write_u64, bind, ret;
    rewrite (encodes_write_pod mp_u8 _ rp wp n m R);
    change (len (to_bytes mp_u8 _)) with 1;
    rewrite on_wr_pod_overflow by (cbn [sizeof]; lia); reflexivity.
Qed.

End Partial.

(** X9.  When there is room for the marker of a typed value and not for
    its payload, the typed writer stores the marker byte alone: the write
    cursor has advanced by one and the payload write was refused. *)
Theorem marker_written_when_payload_does_not_fit :
  forall (i : Item) (rp wp n : Z) (m : stream.Memory),
    item_payload i <> [] ->
    room 1 wp n m ->
    n < wp + 1 + len (item_payload i) ->
    let '(_, (p', m')) := write_item i (codec rp wp n, m) in
    write_cursor p' = wp + 1
    /\ m' = store m wp [item_marker i]
    /\ nth (Z.to_nat wp) m' 0 = item_marker i.
Proof.
  intros i rp wp n m Hne R Hover. rewrite (marker_only i rp wp n m Hne R Hover).
  split; [reflexivity|]. split; [reflexivity|].
  destruct R as (Hp & Hle & Hn & H32 & Hm). unfold store, len in *.
  rewrite app_nth2 by (rewrite length_firstn; lia).
  rewrite length_firstn.
  replace (Z.to_nat wp - Nat.min (Z.to_nat wp) (length m))%nat with 0%nat by lia.
  reflexivity.
Qed.

Lemma marker_written_when_payload_does_not_fit_witness :
  let '(_, (p', m')) := write_item (IUint32 0xbadf00d) (codec 0 0x1fd 0x200, zeroed 0x200) in
  write_cursor p' = 0x1fd + 1
  /\ m' = store (zeroed 0x200) 0x1fd [item_marker (IUint32 0xbadf00d)]
  /\ nth (Z.to_nat 0x1fd) m' 0 = item_marker (IUint32 0xbadf00d).
Proof.
  apply (marker_written_when_payload_does_not_fit (IUint32 0xbadf00d) 0 0x1fd 0x200
           (zeroed 0x200)).
  - discriminate.
  - unfold room, len. vm_compute. intuition discriminate.
  - vm_compute. reflexivity.
Defined.

Section Unusable.

Lemma decode_refused (p : MessagePack) (m : stream.Memory) :
  refused 1 false (stream.rbase (sr_ p)) (is_null (stream.reader_ (sr_ p))) ->
  decode_single (p, m) = (zero_result, (p, m)).
Proof.
  intros H. destruct p as [r w b f]. cbn [sr_] in H.
  unfold decode_single, bind, read_u8, on_sr, stream.read_u8. cbn [sr_ wr_ buffer_ reader_].
  rewrite (read_pod_refused mp_u8 false r m H). reflexivity.
Qed.

Lemma not_ok_refused (count : Z) (null : bool) (r : stream.StreamReader) :
  stream.reader_ok r = false ->
  refused count null (stream.rbase r) (is_null (stream.reader_ r)).
Proof.
  unfold stream.reader_ok, refused. intros H.
  apply andb_false_iff in H. rewrite negb_false_iff in H. tauto.
Qed.

Lemma writer_not_ok_refused (count : Z) (null : bool) (w : stream.StreamWriter) :
  stream.writer_ok w = false ->
  refused count null (stream.wbase w) (is_null (stream.writer_ w)).
Proof.
  unfold stream.writer_ok, refused. intros H.
  apply andb_false_iff in H. rewrite negb_false_iff in H. tauto.
Qed.

Lemma inert_ret {A} (a : A) : inert (ret a).
Proof. intros p m _. reflexivity. Qed.

Lemma inert_bind {A B} (c : M A) (k : A -> M B) :
  inert c -> (forall a, inert (k a)) -> inert (bind c k).
Proof.
  intros Hc Hk p m H. unfold bind. specialize (Hc p m H).
  destruct (c (p, m)) as [a st']. cbn [snd] in Hc. subst st'. apply Hk, H.
Qed.

Lemma inert_write (count : Z) (src : option (list Z)) :
  inert (on_wr (stream.write count src)).
Proof.
  intros [r w b f] m H. cbn [wr_] in H. unfold on_wr, stream.write.
  cbn [sr_ wr_ buffer_ reader_].
  rewrite write_refused by (apply writer_not_ok_refused, H). reflexivity.
Qed.

Lemma inert_write_pod (t : Ty) (v : Z) : inert (on_wr (stream.write_pod t v)).
Proof.
  intros [r w b f] m H. cbn [wr_] in H. unfold on_wr, stream.write_pod.
  cbn [sr_ wr_ buffer_ reader_].
  rewrite (write_refused _ (Some (to_bytes t v)) w m) by (apply writer_not_ok_refused, H).
  reflexivity.
Qed.

Ltac inert_steps :=
  unfold write_marker, stream.write_u8, stream.write_u16, stream.write_u32,
    stream.write_u64;
  repeat first
    [ apply inert_ret | apply inert_write | apply inert_write_pod
    | apply inert_bind; [|intros]
    | match goal with |- inert (if ?c then _ else _) => destruct c end ].

Lemma inert_write_raw_value (data : Z) (pointee : option (list Z)) (size kind : Z) :
  inert (write_raw_value data pointee size kind).
Proof. unfold write_raw_value, write_family. cbv zeta. inert_steps. Qed.

Lemma inert_start_array (n : Z) : inert (start_array n).
Proof. unfold start_array. cbv zeta. inert_steps. Qed.

Lemma inert_start_map (n : Z) : inert (start_map n).
Proof. unfold start_map. cbv zeta. inert_steps. Qed.

Lemma inert_write_negfixint (v : Z) : inert (write_negfixint v).
Proof. unfold write_negfixint. cbv zeta. inert_steps. Qed.

Lemma inert_unit (c : M unit) (p : MessagePack) (m : stream.Memory) :
  inert c -> stream.writer_ok (wr_ p) = false -> c (p, m) = (tt, (p, m)).
Proof.
  intros Hc H. specialize (Hc p m H). destruct (c (p, m)) as [[] st'].
  cbn [snd] in Hc. subst st'. reflexivity.
Qed.

Lemma decode_n_refused (k : nat) (p : MessagePack) (m : stream.Memory) :
  refused 1 false (stream.rbase (sr_ p)) (is_null (stream.reader_ (sr_ p))) ->
  decode_n k (p, m) = (repeat zero_result k, (p, m)).
Proof.
  intros R. induction k as [|k IH]; cbn [decode_n repeat]; [reflexivity|].
  unfold bind. rewrite (decode_refused p m R), IH. reflexivity.
Qed.

End Unusable.

(** X10.  When the read cursor is at the end of the buffer, or is not
    usable, [decode_single] changes nothing and returns [PosFixInt] with
    size 1 and value 0, however often it is called; the result counts as
    valid. *)
Theorem exhausted_stream_decodes_as_zero :
  forall (p : MessagePack) (m : stream.Memory) (k : nat),
    exhausted (sr_ p) \/ stream.reader_ok (sr_ p) = false ->
    decode_n k (p, m) = (repeat zero_result k, (p, m))
    /\ report mp_u8 zero_result = (MPMarker.PosFixInt, 1, 0)
    /\ valid zero_result = true.
Proof.
  intros p m k H. split; [|split; reflexivity].
  apply decode_n_refused.
  destruct H as [H|H]; [apply (exhausted_refuses mp_u8), H|apply not_ok_refused, H].
Qed.

Lemma exhausted_stream_decodes_as_zero_witness :
  decode_n 3 (codec 4 4 4, [1; 2; 3; 4]) = (repeat zero_result 3, (codec 4 4 4, [1; 2; 3; 4]))
  /\ report mp_u8 zero_result = (MPMarker.PosFixInt, 1, 0)
  /\ valid zero_result = true.
Proof.
  apply (exhausted_stream_decodes_as_zero (codec 4 4 4) [1; 2; 3; 4] 3).
  left. unfold exhausted. cbn. lia.
Defined.

(** X11.  On a codec whose write cursor has no buffer or no copy function,
    [write_raw_value] (for every kind), [write_negfixint], [start_array] and
    [start_map] change neither the codec nor the buffer. *)
Theorem unusable_codec_ignores_writes :
  forall (p : MessagePack) (m : stream.Memory),
    stream.writer_ok (wr_ p) = false ->
    (forall data pointee size kind,
        write_raw_value data pointee size kind (p, m) = (tt, (p, m)))
    /\ (forall value, write_negfixint value (p, m) = (tt, (p, m)))
    /\ (forall n, start_array n (p, m) = (tt, (p, m)))
    /\ (forall n, start_map n (p, m) = (tt, (p, m))).
Proof.
  intros p m H. repeat split; intros.
  - apply inert_unit; [apply inert_write_raw_value|exact H].
  - apply inert_unit; [apply inert_write_negfixint|exact H].
  - apply inert_unit; [apply inert_start_array|exact H].
  - apply inert_unit; [apply inert_start_map|exact H].
Qed.

Lemma unusable_codec_ignores_writes_witness :
  (forall data pointee size kind,
      write_raw_value data pointee size kind (default_MessagePack, zeroed 4)
      = (tt, (default_MessagePack, zeroed 4)))
  /\ (forall value, write_negfixint value (default_MessagePack, zeroed 4)
                    = (tt, (default_MessagePack, zeroed 4)))
  /\ (forall n, start_array n (default_MessagePack, zeroed 4)
                = (tt, (default_MessagePack, zeroed 4)))
  /\ (forall n, start_map n (default_MessagePack, zeroed 4)
                = (tt, (default_MessagePack, zeroed 4))).
Proof.
  apply (unusable_codec_ignores_writes default_MessagePack (zeroed 4)).
  reflexivity.
Defined.

(** X12.  [reset_all] and [reset_temporal] on a working codec zero the
    buffer and leave the codec unusable: afterwards every [write_raw_value]
    is a no-op and every [decode_single] returns [PosFixInt] 0 without
    moving. *)
Theorem reset_codec_is_inert :
  forall (temporal : bool) (rp wp n : Z) (m : stream.Memory),
    0 <= n <= len m ->
    let st' := run (if temporal then reset_temporal else reset_all) (codec rp wp n, m) in
    snd st' = repeat 0 (Z.to_nat n) ++ skipn (Z.to_nat n) m
    /\ unusable (fst st')
    /\ (forall data pointee size kind,
           write_raw_value data pointee size kind st' = (tt, st'))
    /\ (forall k, decode_n k st' = (repeat zero_result k, st')).
Proof.
  intros temporal rp wp n m Hn. cbv zeta.
  assert (E : exists p',
             run (if temporal then reset_temporal else reset_all) (codec rp wp n, m)
             = (p', repeat 0 (Z.to_nat n) ++ skipn (Z.to_nat n) m)
             /\ unusable p').
  { destruct temporal; eexists;
      (split;
       [unfold run, reset_temporal, reset_all, bind, on_wr, stream.clear, codec;
        cbn [sr_ wr_ buffer_ reader_ stream.wbase stream.buffer_ stream.stream_size_ snd];
        (replace (Nat.min (Z.to_nat n) (length m)) with (Z.to_nat n)
           by (unfold len in Hn; lia)); reflexivity|]);
      split; reflexivity. }
  destruct E as (p' & -> & Hu). cbn [fst snd].
  split; [reflexivity|]. split; [exact Hu|]. destruct Hu as [Hr Hw]. split.
  - intros. apply inert_unit; [apply inert_write_raw_value|exact Hw].
  - intros k. apply decode_n_refused, not_ok_refused, Hr.
Qed.

Lemma reset_codec_is_inert_witness :
  let st' := run (if true then reset_temporal else reset_all) (codec 2 3 4, [1; 2; 3; 4; 5]) in
  snd st' = repeat 0 (Z.to_nat 4) ++ skipn (Z.to_nat 4) [1; 2; 3; 4; 5]
  /\ unusable (fst st')
  /\ (forall data pointee size kind,
         write_raw_value data pointee size kind st' = (tt, st'))
  /\ (forall k, decode_n k st' = (repeat zero_result k, st')).
Proof.
  apply (reset_codec_is_inert true 2 3 4 [1; 2; 3; 4; 5]).
  unfold len. vm_compute. intuition discriminate.
Defined.

Section Bounded.

Lemma read_keeps_size (count : Z) (dst : option (list Z)) (peek : bool)
    (r : stream.StreamReader) (m : stream.Memory) :
  stream.stream_size_ (stream.rbase (snd (stream._read_and_advance count dst peek r m)))
  = stream.stream_size_ (stream.rbase r).
Proof.
  destruct (read_cursor_cases count dst peek r m) as [E|(_ & _ & E)];
    cbv zeta in E; rewrite E; reflexivity.
Qed.

Lemma write_keeps_size (count : Z) (src : option (list Z))
    (w : stream.StreamWriter) (m : stream.Memory) :
  stream.stream_size_ (stream.wbase (fst (stream._write_and_advance count src w m)))
  = stream.stream_size_ (stream.wbase w).
Proof.
  destruct (write_cursor_cases count src w m) as [E|(_ & _ & E)];
    cbv zeta in E; rewrite E; reflexivity.
Qed.

Lemma keeps_ret {A} (n : Z) (a : A) (Q : A -> Prop) : Q a -> keeps n (ret a) Q.
Proof. intros H p m B. split; [exact B|exact H]. Qed.

Lemma keeps_bind {A B} (n : Z) (c : M A) (k : A -> M B) (Q1 : A -> Prop)
    (Q2 : B -> Prop) :
  keeps n c Q1 -> (forall a, Q1 a -> keeps n (k a) Q2) -> keeps n (bind c k) Q2.
Proof.
  intros Hc Hk p m B0. unfold bind. specialize (Hc p m B0).
  destruct (c (p, m)) as [a [p' m']]. cbn [fst snd] in Hc. destruct Hc as [B1 Q].
  apply (Hk a Q p' m' B1).
Qed.

Lemma keeps_weaken {A} (n : Z) (c : M A) (Q Q' : A -> Prop) :
  keeps n c Q -> (forall a, Q a -> Q' a) -> keeps n c Q'.
Proof. intros Hc HQ p m B. destruct (Hc p m B). auto. Qed.

Lemma keeps_write (n count : Z) (src : option (list Z)) :
  0 <= count -> keeps n (on_wr (stream.write count src)) (fun _ => True).
Proof.
  intros Hc [r w b f] m (Hr & Hw & Sr & Sw). cbn [sr_ wr_] in *.
  unfold on_wr, stream.write. cbn [sr_ wr_ buffer_ reader_].
  pose proof (write_in_bounds count src w m Hc Hw) as H1.
  pose proof (write_keeps_size count src w m) as H2.
  destruct (stream._write_and_advance count src w m) as [w' m'].
  cbn [fst snd] in *. split; [|exact I]. unfold bounded. cbn [sr_ wr_].
  repeat split; try assumption; try apply Hr; try apply H1. congruence.
Qed.

Lemma keeps_write_pod (n : Z) (t : Ty) (v : Z) :
  keeps n (on_wr (stream.write_pod t v)) (fun _ => True).
Proof. apply (keeps_write n (Z.of_nat (sizeof t)) (Some (to_bytes t v))). lia. Qed.

Lemma keeps_read (n count : Z) (dst : option (list Z)) :
  0 <= count -> keeps n (on_sr (stream.read count dst)) (fun _ => True).
Proof.
  intros Hc [r w b f] m (Hr & Hw & Sr & Sw). cbn [sr_ wr_] in *.
  unfold on_sr, stream.read. cbn [sr_ wr_ buffer_ reader_].
  pose proof (read_in_bounds count dst false r m Hc Hr) as H1.
  pose proof (read_keeps_size count dst false r m) as H2.
  destruct (stream._read_and_advance count dst false r m) as [a r'].
  cbn [fst snd] in *. split; [|exact I]. unfold bounded. cbn [sr_ wr_].
  repeat split; try assumption; try apply Hw; try apply H1. congruence.
Qed.

Lemma keeps_read_pod (n : Z) (t : Ty) (peek : bool) :
  keeps n (on_sr (stream._read_pod t peek)) (fun _ => True).
Proof.
  intros [r w b f] m (Hr & Hw & Sr & Sw). cbn [sr_ wr_] in *.
  unfold on_sr, stream._read_pod. cbn [sr_ wr_ buffer_ reader_].
  pose proof (read_in_bounds (Z.of_nat (sizeof t)) (Some (repeat 0 (sizeof t))) peek r m
                ltac:(lia) Hr) as H1.
  pose proof (read_keeps_size (Z.of_nat (sizeof t)) (Some (repeat 0 (sizeof t))) peek r m)
    as H2.
  destruct (stream._read_and_advance _ _ peek r m) as [a r'].
  cbn [fst snd] in *. split; [|exact I]. unfold bounded. cbn [sr_ wr_].
  repeat split; try assumption; try apply Hw; try apply H1. congruence.
Qed.

Lemma keeps_seq {A B} (n : Z) (c : M A) (k : A -> M B) :
  keeps n c (fun _ => True) -> (forall a, keeps n (k a) (fun _ => True)) ->
  keeps n (bind c k) (fun _ => True).
Proof. intros Hc Hk. apply (keeps_bind n c k (fun _ => True)); auto. Qed.

Lemma keeps_if {A} (n : Z) (b : bool) (c1 c2 : M A) (Q : A -> Prop) :
  keeps n c1 Q -> keeps n c2 Q -> keeps n (if b then c1 else c2) Q.
Proof. destruct b; auto. Qed.

Ltac keeps_steps :=
  unfold write_marker, read_u8, read_u16, read_u32, read_u64, read_i8, read_i16,
    read_i32, read_i64, read_into,
    stream.write_u8, stream.write_u16, stream.write_u32, stream.write_u64,
    stream.read_u8, stream.read_u16, stream.read_u32, stream.read_u64,
    stream.read_i8, stream.read_i16, stream.read_i32, stream.read_i64,
    stream.peek_u8;
  cbv zeta;
  repeat first
    [ apply keeps_ret; exact I
    | apply keeps_write_pod
    | apply keeps_read_pod
    | apply keeps_write; lia
    | apply keeps_read; lia
    | apply keeps_if
    | apply keeps_seq; [|intros ?] ].

Lemma keeps_write_family (n mk8 mk16 mk32 : Z) (pointee : option (list Z)) (size : Z) :
  keeps n (write_family mk8 mk16 mk32 pointee size) (fun _ => True).
Proof.
  unfold write_family. cbv zeta.
  apply (keeps_bind n _ _ (fun l => 0 <= l)).
  - assert (R : 0 <= cast mp_u32 size) by (apply Z.mod_pos_bound; reflexivity).
    repeat apply keeps_if.
    + eapply keeps_bind; [unfold write_marker, stream.write_u8; apply keeps_write_pod|].
      intros ? _. eapply keeps_bind; [apply keeps_write_pod|]. intros ? _.
      apply keeps_ret. apply Z.land_nonneg. right. lia.
    + eapply keeps_bind; [unfold write_marker, stream.write_u8; apply keeps_write_pod|].
      intros ? _. eapply keeps_bind; [apply keeps_write_pod|]. intros ? _.
      apply keeps_ret. apply Z.land_nonneg. right. lia.
    + eapply keeps_bind; [unfold write_marker, stream.write_u8; apply keeps_write_pod|].
      intros ? _. eapply keeps_bind; [apply keeps_write_pod|]. intros ? _.
      apply keeps_ret. apply Z.land_nonneg. right. lia.
    + apply keeps_ret. exact R.
  - intros l Hl. apply keeps_write. exact Hl.
Qed.

Lemma keeps_write_raw_value (n data : Z) (pointee : option (list Z)) (size kind : Z) :
  keeps n (write_raw_value data pointee size kind) (fun _ => True).
Proof.
  unfold write_raw_value.
  assert (R : 0 <= cast mp_u8 (Z.land size 31)) by (apply Z.mod_pos_bound; reflexivity).
  repeat first [apply keeps_write_family | apply keeps_if]; keeps_steps.
Qed.

Lemma keeps_start_array (n k : Z) : keeps n (start_array k) (fun _ => True).
Proof. unfold start_array. keeps_steps. Qed.

Lemma keeps_start_map (n k : Z) : keeps n (start_map k) (fun _ => True).
Proof. unfold start_map. keeps_steps. Qed.

Lemma keeps_write_negfixint (n v : Z) : keeps n (write_negfixint v) (fun _ => True).
Proof. unfold write_negfixint. keeps_steps. Qed.

Lemma keeps_decode_switch (n : Z) (dr : MPDecodeResult) :
  keeps n (decode_switch dr) (fun _ => True).
Proof. unfold decode_switch. keeps_steps. Qed.

Lemma keeps_decode_fallback (n raw : Z) (dr : MPDecodeResult) :
  keeps n (decode_fallback raw dr) (fun _ => True).
Proof.
  unfold decode_fallback. keeps_steps.
  cbn [size set_size]. apply keeps_read. apply Z.mod_pos_bound. reflexivity.
Qed.

Lemma keeps_decode_single (n : Z) : keeps n decode_single (fun _ => True).
Proof.
  unfold decode_single. cbv zeta.
  eapply keeps_bind; [unfold read_u8, stream.read_u8; apply keeps_read_pod|].
  intros raw _. eapply keeps_bind; [apply keeps_decode_switch|]. intros dr _.
  apply keeps_if; [apply keeps_decode_fallback|apply keeps_ret; exact I].
Qed.

Lemma keeps_peek_marker (n : Z) : keeps n peek_marker (fun _ => True).
Proof. unfold peek_marker. keeps_steps. Qed.

Lemma keeps_reset_cursors (n : Z) : keeps n reset_cursors (fun _ => True).
Proof.
  intros [r w b f] m (Hr & Hw & Sr & Sw). cbn [sr_ wr_] in *.
  split; [|exact I]. unfold bounded, in_bounds in *. cbn. lia.
Qed.

Lemma keeps_do_call (n : Z) (c : Call) : keeps n (do_call c) (fun _ => True).
Proof.
  destruct c; cbn [do_call].
  - apply keeps_write_raw_value.
  - apply keeps_write_negfixint.
  - apply keeps_start_array.
  - apply keeps_start_map.
  - eapply keeps_bind; [apply keeps_decode_single|]. intros ? _. apply keeps_ret. exact I.
  - eapply keeps_bind; [apply keeps_peek_marker|]. intros ? _. apply keeps_ret. exact I.
  - apply keeps_reset_cursors.
Qed.

Lemma keeps_do_calls (n : Z) (cs : list Call) : keeps n (do_calls cs) (fun _ => True).
Proof.
  induction cs as [|c cs IH]; cbn [do_calls].
  - apply keeps_ret. exact I.
  - eapply keeps_bind; [apply keeps_do_call|]. intros ? _. exact IH.
Qed.

End Bounded.

(** X13.  Whatever sequence of [write_raw_value], [write_negfixint],
    [start_array], [start_map], [decode_single], [peek_marker] and
    [reset_cursors] calls runs on a codec whose cursors are within the
    capacity, with whatever arguments, both cursors are still within the
    capacity afterwards and the capacity is unchanged. *)
Theorem codec_cursors_stay_within_capacity :
  forall (n : Z) (calls : list Call) (p : MessagePack) (m : stream.Memory),
    bounded n p ->
    let p' := fst (run (do_calls calls) (p, m)) in
    0 <= read_cursor p' <= n /\ 0 <= write_cursor p' <= n /\ stream_size p' = n.
Proof.
  intros n calls p m B. cbv zeta.
  destruct (keeps_do_calls n calls p m B) as [(Hr & Hw & Sr & Sw) _].
  unfold run, read_cursor, write_cursor, stream_size, stream.position, stream.stream_size,
    in_bounds in *.
  lia.
Qed.

Lemma codec_cursors_stay_within_capacity_witness :
  let p' := fst (run (do_calls [CWriteRaw 0 (Some [1; 2; 3]) 3 MPMarker.Bin8;
                                CStartArray 70000; CDecode; CNegFixInt (-3); CDecode])
                     (codec 0 0 8, zeroed 8)) in
  0 <= read_cursor p' <= 8 /\ 0 <= write_cursor p' <= 8 /\ stream_size p' = 8.
Proof.
  apply (codec_cursors_stay_within_capacity 8).
  unfold bounded, in_bounds. cbn. lia.
Defined.

Section FixInt.

Lemma of_bytes_byte (b : Z) : is_byte b -> of_bytes mp_u8 [b] = b.
Proof.
  intros Hb. unfold of_bytes, cast, wrap. cbn [sizeof is_signed firstn le_combine].
  rewrite Z.mul_0_r, Z.add_0_r. change (2 ^ (8 * Z.of_nat 1)) with 256.
  rewrite Z.mod_mod by lia. apply Z.mod_small. exact Hb.
Qed.

Lemma write_then_decode (c : M unit) (enc : list Z) (dr : MPDecodeResult)
    (p n : Z) (m : stream.Memory) :
  encodes c enc -> decodes enc dr -> room (len enc) p n m ->
  (c ;; decode_single) (codec p p n, m)
  = (dr, (codec (p + len enc) (p + len enc) n, store m p enc)).
Proof.
  intros He Hd R. unfold bind. rewrite (He p p n m R).
  apply (Hd p _ n _ (skipn (length enc) (from p m))).
  - apply from_store; destruct R as (Hp & Hle & Hn & H32 & Hm);
      pose proof (len_nonneg enc); lia.
  - destruct R as (Hp & Hle & Hn & H32 & Hm). unfold room.
    assert (len (store m p enc) = len m) by (unfold len; rewrite length_store; lia).
    lia.
Qed.

Lemma decode_tail_fixint_nat (k : nat) :
  (k < 256)%nat ->
  (Z.of_nat k <? 0x80) || (0xe0 <=? Z.of_nat k) = true ->
  forall st : St,
    (dr <- decode_switch (initial_result (Z.of_nat k)) ;;
     if negb (is_fixext (Z.of_nat k)) && (size dr =? 0)
     then decode_fallback (Z.of_nat k) dr else ret dr) st
    = (fixint_result (Z.of_nat k), st).
Proof.
  intros Hk.
  do 256 (destruct k as [|k];
          [intros H; vm_compute in H;
           first [discriminate H | intros st; vm_compute; reflexivity]|]).
  lia.
Qed.

Lemma decode_tail_fixint (b : Z) :
  is_byte b -> (b <? 0x80) || (0xe0 <=? b) = true ->
  forall st : St,
    (dr <- decode_switch (initial_result b) ;;
     if negb (is_fixext b) && (size dr =? 0) then decode_fallback b dr else ret dr) st
    = (fixint_result b, st).
Proof.
  intros Hb. rewrite <- (Z2Nat.id b) by apply Hb.
  apply decode_tail_fixint_nat. unfold is_byte in Hb. lia.
Qed.

Lemma decodes_fixint (b : Z) :
  is_byte b -> (b <? 0x80) || (0xe0 <=? b) = true -> decodes [b] (fixint_result b).
Proof.
  intros Hb Hf rp wp n m rest E R. destruct R as (Hp & Hle & Hn & H32 & Hm).
  change (len [b]) with 1 in *.
  unfold decode_single. unfold bind at 1. unfold read_u8, stream.read_u8.
  rewrite (on_sr_pod mp_u8 rp wp n m [b] rest);
    [|lia|cbn; lia|cbn; lia|lia|exact E|reflexivity].
  rewrite (of_bytes_byte b Hb). cbv zeta. fold (initial_result b).
  change (Z.of_nat (sizeof mp_u8)) with 1.
  apply decode_tail_fixint; [exact Hb|exact Hf].
Qed.

Lemma fixint_cases_nat (k : nat) :
  (k < 256)%nat ->
  let v := Z.of_nat k - 128 in
  (if v >? 0 then write_posfixint v else write_negfixint v)
  = on_wr (stream.write_pod mp_u8 (fixint_byte v))
  /\ is_byte (fixint_byte v)
  /\ (fixint_byte v <? 0x80) || (0xe0 <=? fixint_byte v) = true
  /\ report mp_i8 (fixint_result (fixint_byte v))
     = (if v >? 0 then (MPMarker.PosFixInt, 1, v)
        else (MPMarker.NegFixInt, 1, v mod 32 - 32)).
Proof.
  intros Hk. cbv zeta.
  do 256 (destruct k as [|k];
          [split; [|split; [vm_compute; split; congruence|split; vm_compute; reflexivity]];
           decide_ifs;
           unfold write_posfixint, write_negfixint, write_raw_value, stream.write_u8;
           decide_ifs; apply (f_equal (fun x => on_wr (stream.write_pod mp_u8 x)));
           vm_compute; reflexivity|]).
  lia.
Qed.

Lemma fixint_cases (v : Z) :
  0 <= v + 128 < Z.of_nat 256 ->
  (if v >? 0 then write_posfixint v else write_negfixint v)
  = on_wr (stream.write_pod mp_u8 (fixint_byte v))
  /\ is_byte (fixint_byte v)
  /\ (fixint_byte v <? 0x80) || (0xe0 <=? fixint_byte v) = true
  /\ report mp_i8 (fixint_result (fixint_byte v))
     = (if v >? 0 then (MPMarker.PosFixInt, 1, v)
        else (MPMarker.NegFixInt, 1, v mod 32 - 32)).
Proof.
  intros Hv. replace v with (Z.of_nat (Z.to_nat (v + 128)) - 128) by lia.
  apply fixint_cases_nat. lia.
Qed.

Lemma cast_i8_range (v : Z) : 0 <= cast mp_i8 v + 128 < Z.of_nat 256.
Proof.
  unfold cast, to_signed, wrap. cbn [is_signed sizeof].
  change (2 ^ (8 * Z.of_nat 1)) with 256. change (2 ^ (8 * Z.of_nat 1 - 1)) with 128.
  pose proof (Z.mod_pos_bound v 256 ltac:(lia)).
  destruct (v mod 256 <? 128) eqn:E; [apply Z.ltb_lt in E|apply Z.ltb_ge in E]; lia.
Qed.

Lemma on_sr_peek (b : Z) (rp wp n : Z) (m : stream.Memory) (rest : list Z) :
  from rp m = b :: rest -> is_byte b -> room 1 rp n m ->
  on_sr stream.peek_u8 (codec rp wp n, m) = (b, (codec rp wp n, m)).
Proof.
  intros E Hb (Hp & Hle & Hn & H32 & Hm). unfold on_sr, codec, stream.peek_u8.
  cbn [wr_ sr_ buffer_ reader_]. fold (reader_at rp n).
  rewrite (read_pod_accepted mp_u8 true rp n m [b] rest);
    [|lia|cbn; lia|cbn; lia|lia|exact E|reflexivity].
  rewrite (of_bytes_byte b Hb). reflexivity.
Qed.

Lemma peek_switch_nat (k : nat) :
  (k < 256)%nat ->
  forall st : St,
    (byte <- ret (Z.of_nat k) ;;
     if one_of byte
          [MPMarker.PosFixInt; MPMarker.FixMap; MPMarker.FixArray; MPMarker.FixStr;
           MPMarker.Nil; MPMarker.False; MPMarker.True;
           MPMarker.Bin8; MPMarker.Bin16; MPMarker.Bin32;
           MPMarker.Ext8; MPMarker.Ext16; MPMarker.Ext32;
           MPMarker.Float32; MPMarker.Float64;
           MPMarker.Uint8; MPMarker.Uint16; MPMarker.Uint32; MPMarker.Uint64;
           MPMarker.Int8; MPMarker.Int16; MPMarker.Int32; MPMarker.Int64;
           MPMarker.FixExt1; MPMarker.FixExt2; MPMarker.FixExt4; MPMarker.FixExt8;
           MPMarker.FixExt16;
           MPMarker.Str8; MPMarker.Str16; MPMarker.Str32;
           MPMarker.Array16; MPMarker.Array32; MPMarker.Map16; MPMarker.Map32;
           MPMarker.NegFixInt]
     then ret byte
     else if byte =? MPMarker.Unused then ret MPMarker.Unused
     else ret MPMarker.Unused) st
    = (if named_marker (Z.of_nat k) then Z.of_nat k else MPMarker.Unused, st).
Proof.
  intros Hk.
  do 256 (destruct k as [|k]; [intros st; vm_compute; reflexivity|]).
  lia.
Qed.

Lemma peek_marker_byte (b : Z) (rp wp n : Z) (m : stream.Memory) (rest : list Z) :
  from rp m = b :: rest -> is_byte b -> room 1 rp n m ->
  peek_marker (codec rp wp n, m)
  = (if named_marker b then b else MPMarker.Unused, (codec rp wp n, m)).
Proof.
  intros E Hb R. unfold peek_marker. unfold bind at 1.
  rewrite (on_sr_peek b rp wp n m rest E Hb R).
  rewrite <- (Z2Nat.id b) by apply Hb.
  apply (peek_switch_nat (Z.to_nat b)). unfold is_byte in Hb. lia.
Qed.

Lemma peek_keeps_cursor (t : Ty) (r : stream.StreamReader) (m : stream.Memory) :
  snd (stream._read_pod t true r m) = r.
Proof.
  unfold stream._read_pod, stream._read_and_advance.
  destruct ((Z.of_nat (sizeof t) =? 0) || is_null (Some (repeat 0 (sizeof t)))
            || (Z.of_nat (sizeof t) >=? stream.stream_size_ (stream.rbase r))
            || (stream.position_ (stream.rbase r) + Z.of_nat (sizeof t)
                >? stream.stream_size_ (stream.rbase r))
            || negb (stream.reader_ok r)); [reflexivity|].
  destruct (stream.reader_ r) as [f|]; reflexivity.
Qed.

Lemma peek_marker_state (st : St) : snd (peek_marker st) = st.
Proof.
  destruct st as [[r w b f] m]. unfold peek_marker, bind, on_sr, stream.peek_u8.
  cbn [sr_ wr_ buffer_ reader_].
  pose proof (peek_keeps_cursor mp_u8 r m) as H.
  destruct (stream._read_pod mp_u8 true r m) as [v r']. cbn [snd] in H. subst r'.
  repeat match goal with |- context [if ?c then _ else _] => destruct c end; reflexivity.
Qed.

End FixInt.

(** X14.  [write_fixint( v )] stores one byte: [v] itself when [v > 0] and
    [0xe0 + (v mod 32)] otherwise, [v] taken as an [mp_i8].  [decode_single]
    returns it as [PosFixInt] [v] in the first case and as [NegFixInt]
    [(v mod 32) - 32] in the second: values from -32 to -1 and from 1 to 127
    come back as written, and 0 comes back as -32. *)
Theorem fixint_written_then_decoded :
  forall (v p n : Z) (m : stream.Memory),
    room 1 p n m ->
    let v' := cast mp_i8 v in
    let '(dr, st') := (write_fixint v ;; decode_single) (codec p p n, m) in
    st' = (codec (p + 1) (p + 1) n, store m p [fixint_byte v'])
    /\ report mp_i8 dr
       = (if v' >? 0 then (MPMarker.PosFixInt, 1, v')
          else (MPMarker.NegFixInt, 1, v' mod 32 - 32)).
Proof.
  intros v p n m R. cbv zeta.
  destruct (fixint_cases (cast mp_i8 v) (cast_i8_range v)) as (Ew & Hb & Hf & Hr).
  unfold write_fixint. cbv zeta. rewrite Ew.
  rewrite (write_then_decode _ [fixint_byte (cast mp_i8 v)]
             (fixint_result (fixint_byte (cast mp_i8 v))) p n m).
  - split; [reflexivity|exact Hr].
  - apply (encodes_eq _ (to_bytes mp_u8 (fixint_byte (cast mp_i8 v))));
      [apply encodes_write_pod|].
    unfold to_bytes. cbn [sizeof le_split]. rewrite Z.mod_small by exact Hb. reflexivity.
  - apply decodes_fixint; assumption.
  - exact R.
Qed.

Lemma fixint_written_then_decoded_witness :
  let '(dr, st') := (write_fixint 0 ;; decode_single) (codec 7 7 0x200, zeroed 0x200) in
  st' = (codec 8 8 0x200, store (zeroed 0x200) 7 [0xe0])
  /\ report mp_i8 dr = (MPMarker.NegFixInt, 1, -32).
Proof.
  apply (fixint_written_then_decoded 0 7 0x200 (zeroed 0x200)).
  unfold room, len. vm_compute. intuition discriminate.
Defined.

(** X15.  [peek_marker] returns the next byte when it equals an enumerator
    of [MPMarker] (0x00, 0x80, 0x90, 0xa0, 0xc0 .. 0xe0) and [Unused]
    otherwise, and leaves the cursor where it is.  So for a positive fixint
    byte 0x01 .. 0x7f and a negative fixint byte 0xe1 .. 0xff it returns
    [Unused], while [decode_single] accepts the same byte as [PosFixInt] or
    [NegFixInt]. *)
Theorem peek_marker_knows_marker_bytes_only :
  forall (b rp wp n : Z) (m : stream.Memory) (rest : list Z),
    from rp m = b :: rest -> is_byte b -> room 1 rp n m ->
    peek_marker (codec rp wp n, m)
    = (if named_marker b then b else MPMarker.Unused, (codec rp wp n, m))
    /\ ((0 < b < 0x80 \/ 0xe0 < b) ->
        eval peek_marker (codec rp wp n, m) = MPMarker.Unused
        /\ valid (eval decode_single (codec rp wp n, m)) = true
        /\ marker (eval decode_single (codec rp wp n, m))
           = (if b <? 0x80 then MPMarker.PosFixInt else MPMarker.NegFixInt)).
Proof.
  intros b rp wp n m rest E Hb R.
  pose proof (peek_marker_byte b rp wp n m rest E Hb R) as Hp.
  split; [exact Hp|]. intros Hf. unfold eval. rewrite Hp. cbn [fst].
  assert (Hc : (b <? 0x80) || (0xe0 <=? b) = true).
  { apply orb_true_iff. rewrite Z.ltb_lt, Z.leb_le. lia. }
  rewrite (decodes_fixint b Hb Hc rp wp n m rest E R). cbn [fst].
  unfold named_marker, fixint_result.
  destruct Hf as [Hf|Hf].
  - replace (b =? 0) with false by (symmetry; apply Z.eqb_neq; lia).
    replace (b =? 128) with false by (symmetry; apply Z.eqb_neq; lia).
    replace (b =? 144) with false by (symmetry; apply Z.eqb_neq; lia).
    replace (b =? 160) with false by (symmetry; apply Z.eqb_neq; lia).
    replace (192 <=? b) with false by (symmetry; apply Z.leb_gt; lia).
    replace (b <? 128) with true by (symmetry; apply Z.ltb_lt; lia).
    repeat split.
  - replace (b =? 0) with false by (symmetry; apply Z.eqb_neq; lia).
    replace (b =? 128) with false by (symmetry; apply Z.eqb_neq; lia).
    replace (b =? 144) with false by (symmetry; apply Z.eqb_neq; lia).
    replace (b =? 160) with false by (symmetry; apply Z.eqb_neq; lia).
    replace (b <=? 224) with false by (symmetry; apply Z.leb_gt; lia).
    replace (b <? 128) with false by (symmetry; apply Z.ltb_ge; lia).
    rewrite andb_false_r. repeat split.
Qed.

Lemma peek_marker_knows_marker_bytes_only_witness :
  peek_marker (codec 1 0 4, [0xcc; 0x2a; 0; 0])
  = (if named_marker 0x2a then 0x2a else MPMarker.Unused, (codec 1 0 4, [0xcc; 0x2a; 0; 0]))
  /\ ((0 < 0x2a < 0x80 \/ 0xe0 < 0x2a) ->
      eval peek_marker (codec 1 0 4, [0xcc; 0x2a; 0; 0]) = MPMarker.Unused
      /\ valid (eval decode_single (codec 1 0 4, [0xcc; 0x2a; 0; 0])) = true
      /\ marker (eval decode_single (codec 1 0 4, [0xcc; 0x2a; 0; 0]))
         = (if 0x2a <? 0x80 then MPMarker.PosFixInt else MPMarker.NegFixInt)).
Proof.
  apply (peek_marker_knows_marker_bytes_only 0x2a 1 0 4 [0xcc; 0x2a; 0; 0] [0; 0]).
  - reflexivity.
  - unfold is_byte. lia.
  - unfold room, len. vm_compute. intuition discriminate.
Defined.

(** X16.  In every state, with or without a usable stream, [peek_marker]
    leaves the codec and the buffer as they are: whatever runs after it runs
    as if it had not been called. *)
Theorem peek_marker_changes_nothing :
  forall (A : Type) (c : M A) (st : St),
    run peek_marker st = st /\ (peek_marker ;; c) st = c st.
Proof.
  intros A c st. unfold run, bind.
  pose proof (peek_marker_state st) as H.
  destruct (peek_marker st) as [mk st']. cbn [snd] in H. subst st'.
  split; reflexivity.
Qed.

Section Blobs.

Lemma encodes_ext (c c' : M unit) (e : list Z) :
  (forall st, c st = c' st) -> encodes c' e -> encodes c e.
Proof. intros E H rp wp n m R. rewrite E. apply H, R. Qed.

Lemma family_assoc (c d : M unit) (a : Z) (k : Z -> M unit) (st : St) :
  (x <- (c ;; d ;; ret a) ;; k x) st = (c ;; d ;; k a) st.
Proof.
  unfold bind, ret. destruct (c st) as [[] st1]. destruct (d st1) as [[] st2].
  reflexivity.
Qed.

Lemma land_small (k : nat) (L : Z) :
  0 <= L < 256 ^ Z.of_nat k -> Z.land L (256 ^ Z.of_nat k - 1) = L.
Proof. intros H. rewrite land_mask. apply Z.mod_small, H. Qed.

Lemma encodes_family (mk8 mk16 mk32 : Z) (s : list Z) (L : Z) :
  is_byte mk8 -> is_byte mk16 -> is_byte mk32 ->
  1 <= L <= len s -> L < 2 ^ 32 ->
  encodes (write_family mk8 mk16 mk32 (Some s) L)
          ((match length_width L with 1%nat => mk8 | 2%nat => mk16 | _ => mk32 end
            :: be_bytes (length_width L) L) ++ firstn (Z.to_nat L) s).
Proof.
  intros H8 H16 H32 HL Hlt. unfold write_family, length_width. cbv zeta.
  rewrite (cast_u32_small L) by lia.
  change limits.uint8_max with 255. change limits.uint16_max with 65535.
  change limits.uint32_max with 4294967295.
  destruct (Z.leb_spec L 255) as [C1|C1];
    [|destruct (Z.leb_spec L 65535) as [C2|C2];
      [|destruct (Z.leb_spec L 4294967295) as [C3|C3]; [|lia]]];
    (eapply encodes_ext; [intros st; apply family_assoc|]).
  - assert (El : Z.land L 255 = L) by (apply (land_small 1); cbn; lia). rewrite El.
    eapply encodes_eq;
      [eapply encodes_bind;
       [apply encodes_marker
       |eapply encodes_bind; [apply encodes_write_pod|apply encodes_write; lia]]|].
    rewrite (Z.mod_small mk8) by exact H8. unfold to_bytes. cbn [sizeof].
    rewrite (le_split_cast 1 mp_u8) by (cbn; lia). reflexivity.
  - assert (El : Z.land L 65535 = L) by (apply (land_small 2); cbn; lia). rewrite El.
    eapply encodes_eq;
      [eapply encodes_bind;
       [apply encodes_marker
       |eapply encodes_bind; [apply encodes_write_pod|apply encodes_write; lia]]|].
    rewrite (Z.mod_small mk16) by exact H16. unfold to_bytes. cbn [sizeof].
    unfold bswap_intrin16. rewrite le_split_bswap.
    rewrite (be_bytes_cast 2 mp_u16) by (cbn; lia). reflexivity.
  - assert (El : Z.land L 4294967295 = L) by (apply (land_small 4); cbn; lia).
    rewrite El.
    eapply encodes_eq;
      [eapply encodes_bind;
       [apply encodes_marker
       |eapply encodes_bind; [apply encodes_write_pod|apply encodes_write; lia]]|].
    rewrite (Z.mod_small mk32) by exact H32. unfold to_bytes. cbn [sizeof].
    unfold bswap_intrin32. rewrite le_split_bswap. reflexivity.
Qed.

Lemma encodes_blob (k : Blob) (s : list Z) (L : Z) :
  1 <= L <= len s -> L < 2 ^ 32 ->
  encodes (write_blob k (Some s) L) (blob_wire k L s).
Proof.
  intros HL Hlt. unfold write_blob, blob_wire, blob_header, blob_marker.
  assert (H64 : 0 <= L < 2 ^ 64)
    by (change (2 ^ 64) with 18446744073709551616;
        change (2 ^ 32) with 4294967296 in Hlt; lia).
  destruct k; unfold write_cstr, write_bytes, write_raw_value; decide_ifs;
    rewrite (cast_u64_small L H64);
    (eapply encodes_eq;
     [apply encodes_family; first [assumption | vm_compute; split; congruence]|]);
    destruct (length_width L) as [|[|[|w]]]; reflexivity.
Qed.

(** For a length of [2 ^ 32] or more none of the three branches is taken:
    no header, and the low 32 bits of the length as the count. *)
Lemma encodes_oversized (k : Blob) (s : list Z) (L : Z) :
  2 ^ 32 <= L < 2 ^ 64 -> L mod 2 ^ 32 <= len s ->
  encodes (write_blob k (Some s) L) (firstn (Z.to_nat (L mod 2 ^ 32)) s).
Proof.
  intros HL Hs. unfold write_blob.
  assert (H64 : 0 <= L < 2 ^ 64)
    by (change (2 ^ 64) with 18446744073709551616;
        change (2 ^ 32) with 4294967296 in HL; lia).
  change (2 ^ 32) with 4294967296 in *.
  destruct k; unfold write_cstr, write_bytes, write_raw_value; decide_ifs;
    rewrite (cast_u64_small L H64); unfold write_family; cbv zeta;
    change limits.uint8_max with 255; change limits.uint16_max with 65535;
    change limits.uint32_max with 4294967295;
    (destruct (Z.leb_spec L 255); [lia|]);
    (destruct (Z.leb_spec L 65535); [lia|]);
    (destruct (Z.leb_spec L 4294967295); [lia|]);
    (eapply encodes_ext; [intros st; unfold bind at 1; unfold ret; reflexivity|]);
    apply encodes_write; change (cast mp_u32 L) with (L mod 4294967296);
    pose proof (Z.mod_pos_bound L 4294967296 ltac:(lia)); lia.
Qed.

Lemma read_bytes_spec (bs : list Z) :
  Forall is_byte bs ->
  forall (rp wp n : Z) (m : stream.Memory) (rest : list Z),
    from rp m = bs ++ rest -> 0 <= rp -> rp + len bs <= n -> 1 < n -> n < 2 ^ 32 ->
    read_bytes (length bs) (codec rp wp n, m) = (bs, (codec (rp + len bs) wp n, m)).
Proof.
  induction 1 as [|b bs Hb Hbs IH]; intros rp wp n m rest E Hp Hle Hn H32.
  - cbn [read_bytes length]. unfold ret, len. cbn [length Z.of_nat].
    rewrite Z.add_0_r. reflexivity.
  - cbn [read_bytes length]. unfold bind at 1. unfold read_u8, stream.read_u8.
    assert (Hl : len (b :: bs) = 1 + len bs) by (unfold len; cbn [length]; lia).
    pose proof (len_nonneg bs) as Hnn. rewrite Hl in *.
    rewrite (on_sr_pod mp_u8 rp wp n m [b] (bs ++ rest));
      [|lia|cbn; lia|cbn; lia|lia|exact E|reflexivity].
    rewrite (of_bytes_byte b Hb). change (Z.of_nat (sizeof mp_u8)) with 1.
    unfold bind. rewrite (IH (rp + 1) wp n m rest); [|
      apply (from_plus m rp [b]); [lia|exact E]|lia|lia|lia|lia].
    unfold ret. rewrite Z.add_assoc. reflexivity.
Qed.

Lemma length_width_cases (L : Z) :
  1 <= L < 2 ^ 32 ->
  (length_width L = 1%nat /\ L < 256) \/ (length_width L = 2%nat /\ L < 65536)
  \/ length_width L = 4%nat.
Proof.
  intros H. unfold length_width.
  destruct (Z.leb_spec L 255); [left; split; [reflexivity|lia]|].
  destruct (Z.leb_spec L 65535); [right; left; split; [reflexivity|lia]|].
  right; right; reflexivity.
Qed.

Lemma size_set (L : Z) (dr : MPDecodeResult) :
  1 <= L < 2 ^ 32 -> (size (set_size L dr) =? 0) = false.
Proof.
  intros H. cbn [size set_size]. rewrite wrap_small by lia. apply Z.eqb_neq. lia.
Qed.

Lemma decodes_blob_header (k : Blob) (L : Z) :
  1 <= L < 2 ^ 32 ->
  decodes (blob_header k L) (set_size L (initial_result (blob_marker k L))).
Proof.
  intros HL rp wp n m rest E R.
  assert (Hlen : len (blob_header k L) = 1 + Z.of_nat (length_width L))
    by (unfold blob_header, len; cbn [length]; rewrite length_be_bytes; lia).
  assert (E1 : from (rp + 1) m = be_bytes (length_width L) L ++ rest)
    by (apply (from_plus m rp [blob_marker k L]); [apply R|exact E]).
  destruct R as (Hp & Hle & Hn & H32 & Hm). rewrite Hlen in *.
  unfold decode_single, bind. unfold read_u8 at 1. unfold stream.read_u8.
  rewrite (on_sr_pod mp_u8 rp wp n m [blob_marker k L] (be_bytes (length_width L) L ++ rest));
    [|lia|cbn; lia|cbn; lia|lia|exact E|reflexivity].
  replace (of_bytes mp_u8 [blob_marker k L]) with (blob_marker k L)
    by (unfold blob_marker; destruct k, (length_width L) as [|[|[|w]]]; reflexivity).
  cbv zeta. fold (initial_result (blob_marker k L)).
  change (Z.of_nat (sizeof mp_u8)) with 1.
  destruct (length_width_cases L HL) as [[W Hs]|[[W Hs]|W]];
    unfold blob_marker in *; rewrite W in *; destruct k;
    unfold decode_switch; decide_ifs.
  all: unfold read_u8, read_u16, read_u32, bind, ret,
         stream.read_u8, stream.read_u16, stream.read_u32.
  all: match goal with
       | E2 : from ?q ?m = ?bs ++ ?rest
         |- context [on_sr (stream._read_pod ?t false) (codec ?q ?wp ?n, ?m)] =>
           rewrite (on_sr_pod t q wp n m bs rest);
           [|lia|cbn; lia|cbn; lia|lia|exact E2|apply length_be_bytes]
       end.
  all: cbv beta iota.
  1,2: rewrite (read_back_byte mp_u8) by reflexivity;
       rewrite (cast_small mp_u8) by (try reflexivity; cbn; lia).
  3,4: unfold bswap_intrin16; rewrite (read_back_unsigned mp_u16) by reflexivity;
       rewrite (cast_small mp_u16) by (try reflexivity; cbn; lia).
  5,6: unfold bswap_intrin32; rewrite (read_back_unsigned mp_u32) by reflexivity;
       rewrite (cast_small mp_u32) by (try reflexivity; cbn; lia).
  all: rewrite size_set by lia; decide_ifs; rewrite Z.add_assoc; reflexivity.
Qed.

End Blobs.

(** X17.  [write_cstr] and [write_bytes] with a length from 1 on store the
    marker of the family for that length ([Str8]/[Bin8] up to 255,
    [Str16]/[Bin16] up to 65535, [Str32]/[Bin32] above), the length most
    significant byte first in 1, 2 or 4 bytes, and the payload.
    [decode_single] then returns that marker with the length as size, and
    as many [read_u8] calls return the payload. *)
Theorem string_written_then_read :
  forall (k : Blob) (s : list Z) (L p n : Z) (m : stream.Memory),
    1 <= L <= len s -> Forall is_byte s ->
    room (len (blob_wire k L s)) p n m ->
    (write_blob k (Some s) L ;;
     dr <- decode_single ;;
     payload <- read_bytes (Z.to_nat L) ;;
     ret (marker dr, size dr, payload)) (codec p p n, m)
    = ((blob_marker k L, L, firstn (Z.to_nat L) s),
       (codec (p + len (blob_wire k L s)) (p + len (blob_wire k L s)) n,
        store m p (blob_wire k L s))).
Proof.
  intros k s L p n m HL Hs R.
  assert (Hpay : length (firstn (Z.to_nat L) s) = Z.to_nat L)
    by (rewrite length_firstn; unfold len in HL; lia).
  assert (Hw : len (blob_wire k L s) = len (blob_header k L) + L)
    by (unfold blob_wire, len; rewrite length_app, Hpay; lia).
  pose proof (len_nonneg (blob_header k L)) as Hh.
  assert (Hlt : L < 2 ^ 32) by (destruct R as (Hp & Hle & Hn & H32 & Hm); lia).
  unfold bind at 1. rewrite (encodes_blob k s L HL Hlt p p n m R).
  set (m' := store m p (blob_wire k L s)).
  assert (Hm' : len m' = len m).
  { unfold m', len. rewrite length_store; [reflexivity| |];
      destruct R as (Hp & Hle & Hn & H32 & Hm); lia. }
  assert (E : from p m' = blob_header k L
                ++ (firstn (Z.to_nat L) s
                    ++ skipn (length (blob_wire k L s)) (from p m))).
  { unfold m'. rewrite from_store by (destruct R as (Hp & Hle & Hn & H32 & Hm); lia).
    unfold blob_wire at 1. rewrite <- app_assoc. reflexivity. }
  unfold bind at 1.
  rewrite (decodes_blob_header k L ltac:(lia) p _ n m' _ E)
    by (destruct R as (Hp & Hle & Hn & H32 & Hm); unfold room; lia).
  unfold bind. rewrite <- Hpay at 1.
  rewrite (read_bytes_spec (firstn (Z.to_nat L) s) (Forall_take _ _ _ Hs)
             (p + len (blob_header k L)) _ n m'
             (skipn (length (blob_wire k L s)) (from p m)));
    [|apply (from_plus m' p (blob_header k L)); [apply R|exact E]
     |destruct R as (Hp & Hle & Hn & H32 & Hm); lia
     |destruct R as (Hp & Hle & Hn & H32 & Hm); unfold len at 2; rewrite Hpay; lia
     |destruct R as (Hp & Hle & Hn & H32 & Hm); lia
     |destruct R as (Hp & Hle & Hn & H32 & Hm); lia].
  unfold ret. cbn [marker size set_size]. fold (initial_result (blob_marker k L)).
  rewrite wrap_small by lia.
  unfold len at 2. rewrite Hpay, Z2Nat.id by lia. rewrite Hw, Z.add_assoc.
  reflexivity.
Qed.

Lemma string_written_then_read_witness :
  (write_blob Str (Some [104; 105; 33; 0]) 3 ;;
   dr <- decode_single ;;
   payload <- read_bytes (Z.to_nat 3) ;;
   ret (marker dr, size dr, payload)) (codec 2 2 16, zeroed 16)
  = ((blob_marker Str 3, 3, firstn (Z.to_nat 3) [104; 105; 33; 0]),
     (codec (2 + len (blob_wire Str 3 [104; 105; 33; 0]))
            (2 + len (blob_wire Str 3 [104; 105; 33; 0])) 16,
      store (zeroed 16) 2 (blob_wire Str 3 [104; 105; 33; 0]))).
Proof.
  apply (string_written_then_read Str [104; 105; 33; 0] 3 2 16 (zeroed 16)).
  - unfold len. cbn. lia.
  - repeat constructor; unfold is_byte; lia.
  - unfold room, len. vm_compute. intuition discriminate.
Defined.

(** X18.  For a length of 2^32 or more [write_cstr] and [write_bytes]
    write no marker and no length field: none of the three size branches is
    taken, and the payload write is given the low 32 bits of the length as
    its count. *)
Theorem oversized_length_writes_no_header :
  forall (k : Blob) (s : list Z) (L rp wp n : Z) (m : stream.Memory),
    2 ^ 32 <= L < 2 ^ 64 -> L mod 2 ^ 32 <= len s ->
    room (len (firstn (Z.to_nat (L mod 2 ^ 32)) s)) wp n m ->
    write_blob k (Some s) L (codec rp wp n, m)
    = (tt, (codec rp (wp + L mod 2 ^ 32) n,
            store m wp (firstn (Z.to_nat (L mod 2 ^ 32)) s))).
Proof.
  intros k s L rp wp n m HL Hs R.
  rewrite (encodes_oversized k s L HL Hs rp wp n m R).
  pose proof (Z.mod_pos_bound L (2 ^ 32) ltac:(lia)).
  unfold len at 1. rewrite length_firstn. unfold len in Hs.
  replace (Z.of_nat (Nat.min (Z.to_nat (L mod 2 ^ 32)) (length s))) with (L mod 2 ^ 32)
    by lia.
  reflexivity.
Qed.

Lemma oversized_length_writes_no_header_witness :
  write_blob Bin (Some [1; 2; 3]) (2 ^ 32 + 2) (codec 0 1 8, zeroed 8)
  = (tt, (codec 0 (1 + (2 ^ 32 + 2) mod 2 ^ 32) 8,
          store (zeroed 8) 1 (firstn (Z.to_nat ((2 ^ 32 + 2) mod 2 ^ 32)) [1; 2; 3]))).
Proof.
  apply (oversized_length_writes_no_header Bin [1; 2; 3] (2 ^ 32 + 2) 0 1 8 (zeroed 8)).
  - lia.
  - unfold len. vm_compute. discriminate.
  - unfold room, len. vm_compute. intuition discriminate.
Defined.

Section FixExts.

Lemma encodes_fixext (e : FixExt) (arr : list Z) :
  (S (ext_data e) <= length arr)%nat ->
  encodes (write_fix_ext e (Some arr)) (ext_wire e arr).
Proof.
  intros Hl. unfold ext_wire.
  destruct e; cbn [ext_data] in *;
    unfold write_fix_ext, write_fix_ext1, write_fix_ext2, write_fix_ext4,
      write_fix_ext8, write_fix_ext16, write_raw_value; decide_ifs;
    (eapply encodes_eq;
     [repeat first [ apply encodes_marker | apply encodes_ret
                   | apply encodes_write; unfold len; lia
                   | eapply encodes_bind ]
     |rewrite ?app_nil_r; reflexivity]).
Qed.

Lemma on_sr_read (count : Z) (d : list Z) (rp wp n : Z) (m : stream.Memory) :
  0 <= rp -> 0 < count -> count < n -> rp + count <= n -> n < 2 ^ 32 ->
  on_sr (stream.read count (Some d)) (codec rp wp n, m)
  = (Some (firstn (Z.to_nat count) (from rp m) ++ skipn (Z.to_nat count) d),
     (codec (rp + count) wp n, m)).
Proof.
  intros Hp Hc Hn Hle H32. unfold on_sr, codec, stream.read.
  cbn [wr_ sr_ buffer_ reader_]. fold (reader_at rp n).
  rewrite (read_accepted count d false rp n m Hp Hc Hn Hle H32). reflexivity.
Qed.

Lemma wrap8_byte (b : Z) : is_byte b -> wrap 8 b = b.
Proof. intros H. apply wrap_small. exact H. Qed.

Lemma decodes_fixext (e : FixExt) (bs : list Z) :
  length bs = S (ext_data e) -> Forall is_byte bs ->
  decodes (ext_marker e :: bs)
          (bytes_result (ext_marker e) (Z.of_nat (S (ext_data e))) bs).
Proof.
  intros Hl Hb rp wp n m rest E R.
  destruct bs as [|t bs]; [discriminate Hl|].
  assert (Ht : is_byte t) by (inversion Hb; assumption).
  assert (Hbs : Forall is_byte bs) by (inversion Hb; assumption).
  assert (E1 : from (rp + 1) m = (t :: bs) ++ rest)
    by (apply (from_plus m rp [ext_marker e]); [apply R|exact E]).
  assert (E2 : from (rp + 1 + 1) m = bs ++ rest)
    by (apply (from_plus m (rp + 1) [t]); [destruct R; lia|exact E1]).
  destruct R as (Hp & Hle & Hn & H32 & Hm).
  unfold len in Hle, Hn. cbn [length] in Hle, Hn, Hl. rewrite Hl in Hle, Hn.
  unfold decode_single, bind. unfold read_u8 at 1. unfold stream.read_u8.
  rewrite (on_sr_pod mp_u8 rp wp n m [ext_marker e] ((t :: bs) ++ rest));
    [|lia|cbn; lia|cbn; lia|lia|exact E|reflexivity].
  replace (of_bytes mp_u8 [ext_marker e]) with (ext_marker e)
    by (destruct e; reflexivity).
  cbv zeta. fold (initial_result (ext_marker e)).
  change (Z.of_nat (sizeof mp_u8)) with 1.
  destruct e; cbn [ext_marker ext_data] in *; unfold decode_switch; decide_ifs;
    cbv zeta; unfold bind at 1; unfold read_u8 at 1; unfold stream.read_u8;
    (rewrite (on_sr_pod mp_u8 (rp + 1) wp n m [t] (bs ++ rest));
     [|lia|cbn; lia|cbn; lia|lia|exact E1|reflexivity]);
    rewrite (of_bytes_byte t Ht); change (Z.of_nat (sizeof mp_u8)) with 1.
  - destruct bs as [|d [|]]; try discriminate Hl.
    assert (Hd : is_byte d) by (inversion Hbs; assumption).
    unfold bind, read_u8, stream.read_u8.
    rewrite (on_sr_pod mp_u8 (rp + 1 + 1) wp n m [d] rest);
      [|lia|cbn; lia|cbn; lia|lia|exact E2|reflexivity].
    rewrite (of_bytes_byte d Hd). unfold ret, set_byte.
    rewrite (wrap8_byte t Ht), (wrap8_byte d Hd).
    change (Z.of_nat (sizeof mp_u8)) with 1. unfold len. cbn [length].
    replace (rp + 1 + 1 + 1) with (rp + Z.of_nat 3) by lia. reflexivity.
  - do 2 (destruct bs as [|? bs]; try discriminate Hl). destruct bs; [|discriminate Hl].
    unfold read_into, bind. cbv zeta. rewrite on_sr_read by lia.
    rewrite E2. unfold ret, set_byte. rewrite (wrap8_byte t Ht).
    unfold len. cbn [length].
    replace (rp + 1 + 1 + 2) with (rp + Z.of_nat 4) by lia. reflexivity.
  - do 4 (destruct bs as [|? bs]; try discriminate Hl). destruct bs; [|discriminate Hl].
    unfold read_into, bind. cbv zeta. rewrite on_sr_read by lia.
    rewrite E2. unfold ret, set_byte. rewrite (wrap8_byte t Ht).
    unfold len. cbn [length].
    replace (rp + 1 + 1 + 4) with (rp + Z.of_nat 6) by lia. reflexivity.
  - do 8 (destruct bs as [|? bs]; try discriminate Hl). destruct bs; [|discriminate Hl].
    unfold read_into, bind. cbv zeta. rewrite on_sr_read by lia.
    rewrite E2. unfold ret, set_byte. rewrite (wrap8_byte t Ht).
    unfold len. cbn [length].
    replace (rp + 1 + 1 + 8) with (rp + Z.of_nat 10) by lia. reflexivity.
  - do 16 (destruct bs as [|? bs]; try discriminate Hl). destruct bs; [|discriminate Hl].
    unfold read_into, bind. cbv zeta. rewrite on_sr_read by lia.
    rewrite E2. unfold ret, set_byte. rewrite (wrap8_byte t Ht).
    unfold len. cbn [length].
    replace (rp + 1 + 1 + 16) with (rp + Z.of_nat 18) by lia. reflexivity.
Qed.

Lemma bytes_result_byte (mk sz : Z) (bs : list Z) (i : nat) :
  (i < length bs)%nat -> result_byte i (bytes_result mk sz bs) = nth i bs 0.
Proof.
  intros H. unfold result_byte, bytes_result. cbn [result].
  apply app_nth1. exact H.
Qed.

End FixExts.

(** X19.  [write_fix_extN] for N = 1, 2, 4, 8, 16 stores the marker and the
    first N + 1 bytes of the array, the type byte and the data.
    [decode_single] returns the marker with size N + 1, the type in byte 0
    of the union and the data in bytes 1 .. N. *)
Theorem fixext_written_then_decoded :
  forall (e : FixExt) (arr : list Z) (p n : Z) (m : stream.Memory),
    (S (ext_data e) <= length arr)%nat -> Forall is_byte arr ->
    room (len (ext_wire e arr)) p n m ->
    let '(dr, st') := (write_fix_ext e (Some arr) ;; decode_single) (codec p p n, m) in
    st' = (codec (p + len (ext_wire e arr)) (p + len (ext_wire e arr)) n,
           store m p (ext_wire e arr))
    /\ marker dr = ext_marker e
    /\ size dr = Z.of_nat (S (ext_data e))
    /\ is_fixext (marker dr) = true
    /\ forall i : nat, (i <= ext_data e)%nat -> result_byte i dr = nth i arr 0.
Proof.
  intros e arr p n m Hl Hb R.
  assert (Hf : length (firstn (S (ext_data e)) arr) = S (ext_data e))
    by (rewrite length_firstn; lia).
  rewrite (write_then_decode _ (ext_wire e arr)
             (bytes_result (ext_marker e) (Z.of_nat (S (ext_data e)))
                (firstn (S (ext_data e)) arr)) p n m
             (encodes_fixext e arr Hl)
             (decodes_fixext e _ Hf (Forall_take _ _ _ Hb)) R).
  split; [reflexivity|]. split; [reflexivity|]. split; [reflexivity|].
  split; [destruct e; reflexivity|].
  intros i Hi. rewrite bytes_result_byte by lia.
  rewrite <- (firstn_skipn (S (ext_data e)) arr) at 2.
  symmetry. apply app_nth1. lia.
Qed.

Lemma fixext_written_then_decoded_witness :
  let '(dr, st') :=
    (write_fix_ext Ext2 (Some [7; 0xaa; 0xbb; 0xcc]) ;; decode_single)
      (codec 3 3 16, zeroed 16) in
  st' = (codec (3 + len (ext_wire Ext2 [7; 0xaa; 0xbb; 0xcc]))
               (3 + len (ext_wire Ext2 [7; 0xaa; 0xbb; 0xcc])) 16,
         store (zeroed 16) 3 (ext_wire Ext2 [7; 0xaa; 0xbb; 0xcc]))
  /\ marker dr = ext_marker Ext2
  /\ size dr = Z.of_nat (S (ext_data Ext2))
  /\ is_fixext (marker dr) = true
  /\ forall i : nat, (i <= ext_data Ext2)%nat ->
                     result_byte i dr = nth i [7; 0xaa; 0xbb; 0xcc] 0.
Proof.
  apply (fixext_written_then_decoded Ext2 [7; 0xaa; 0xbb; 0xcc] 3 16 (zeroed 16)).
  - cbn. lia.
  - repeat constructor; unfold is_byte; lia.
  - unfold room, len. vm_compute. intuition discriminate.
Defined.

Section Reports.

Lemma decode_single_cases (st : St) :
  let raw := eval read_u8 st in
  let dr := eval decode_single st in
  (marker dr = raw /\ ~ In raw never_reported)
  \/ marker dr = MPMarker.PosFixInt
  \/ marker dr = MPMarker.NegFixInt
  \/ marker dr = MPMarker.FixMap.
Proof.
  unfold decode_single, eval, bind. destruct (read_u8 st) as [raw st1].
  cbv zeta. fold (initial_result raw). cbn [fst].
  pose proof (decode_switch_marker (initial_result raw) st1) as Hmk.
  destruct (in_dec Z.eq_dec raw never_reported) as [Hin|Hout].
  - right.
    assert (E : decode_switch (initial_result raw) st1 = (initial_result raw, st1)).
    { unfold never_reported in Hin. cbn [In] in Hin.
      destruct Hin as [<-|[<-|[<-|[<-|[<-|[]]]]]]; reflexivity. }
    rewrite E.
    replace (negb (is_fixext raw) && (size (initial_result raw) =? 0)) with true.
    + destruct (decode_fallback_markers raw (initial_result raw) st1)
        as [[_ H]|[(_ & _ & H)|(_ & _ & H & _)]]; cbv zeta in H; tauto.
    + unfold never_reported in Hin. cbn [In] in Hin.
      destruct Hin as [<-|[<-|[<-|[<-|[<-|[]]]]]]; reflexivity.
  - destruct (decode_switch (initial_result raw) st1) as [dr1 st2].
    cbn [fst] in Hmk.
    destruct (negb (is_fixext raw) && (size dr1 =? 0)).
    + right.
      destruct (decode_fallback_markers raw dr1 st2)
        as [[_ H]|[(_ & _ & H)|(_ & _ & H & _)]]; cbv zeta in H; tauto.
    + left. cbn [fst ret]. split; [|exact Hout]. rewrite Hmk. reflexivity.
Qed.

Lemma classes_at_most_one (mk : Z) :
  (length (filter (fun b : bool => b) (classes mk)) <= 1)%nat.
Proof.
  unfold classes, is_fixext, is_array, is_integer, is_str, is_bin, is_ext, is_bool,
    is_nil.
  repeat match goal with
         | |- context [mk =? ?c] =>
             destruct (Z.eqb_spec mk c) as [->|?]; [vm_compute; lia|]
         end.
  vm_compute. lia.
Qed.



End Reports.

(** X20.  In no state does [decode_single] return the marker [FixArray],
    [FixStr], [Float32], [Float64] or [Unused]: their [case] leaves the size
    0, and the cascade reports such a byte as something else.  A result for
    which [is_array] holds is an [Array16] or [Array32], and one for which
    [is_str] holds a [Str8], [Str16] or [Str32]. *)
Theorem decode_single_never_reports_array_or_float :
  forall st : St,
    let mk := marker (eval decode_single st) in
    ~ In mk never_reported
    /\ (is_array mk = true -> mk = MPMarker.Array16 \/ mk = MPMarker.Array32)
    /\ (is_str mk = true ->
        mk = MPMarker.Str8 \/ mk = MPMarker.Str16 \/ mk = MPMarker.Str32).
Proof.
  intros st. cbv zeta.
  assert (N : ~ In (marker (eval decode_single st)) never_reported).
  { destruct (decode_single_cases st) as [[E Hn]|[E|[E|E]]]; cbv zeta in E;
      rewrite E; [exact Hn| | |];
      unfold never_reported; cbn [In]; vm_compute; intuition discriminate. }
  split; [exact N|]. unfold never_reported in N. cbn [In] in N.
  split; intros H.
  - unfold is_array in H. rewrite !orb_true_iff, !Z.eqb_eq in H.
    destruct H as [[H|H]|H]; [symmetry in H; tauto|tauto|tauto].
  - unfold is_str in H. rewrite !orb_true_iff, !Z.eqb_eq in H.
    destruct H as [[[H|H]|H]|H]; [symmetry in H; tauto|tauto|tauto|tauto].
Qed.

Lemma decode_single_never_reports_array_or_float_witness :
  let mk := marker (eval decode_single (codec 0 0 4, [0x90; 0; 0; 0])) in
  ~ In mk never_reported
  /\ (is_array mk = true -> mk = MPMarker.Array16 \/ mk = MPMarker.Array32)
  /\ (is_str mk = true ->
      mk = MPMarker.Str8 \/ mk = MPMarker.Str16 \/ mk = MPMarker.Str32).
Proof. apply (decode_single_never_reports_array_or_float (codec 0 0 4, [0x90; 0; 0; 0])). Defined.

(** X21.  For every marker at most one of [is_fixext], [is_array],
    [is_integer], [is_str], [is_bin], [is_ext], [is_bool] and [is_nil]
    holds, and none holds for the map markers, the float markers and
    [Unused]. *)
Theorem result_predicates_are_exclusive :
  forall mk : Z,
    (length (filter (fun b : bool => b) (classes mk)) <= 1)%nat
    /\ (In mk [MPMarker.FixMap; MPMarker.Map16; MPMarker.Map32; MPMarker.Float32;
               MPMarker.Float64; MPMarker.Unused] ->
        filter (fun b : bool => b) (classes mk) = []).
Proof.
  intros mk. split; [apply classes_at_most_one|].
  cbn [In]. intros [<-|[<-|[<-|[<-|[<-|[<-|[]]]]]]]; reflexivity.
Qed.

Lemma result_predicates_are_exclusive_witness :
  (length (filter (fun b : bool => b) (classes MPMarker.Map16)) <= 1)%nat
  /\ (In MPMarker.Map16 [MPMarker.FixMap; MPMarker.Map16; MPMarker.Map32;
                         MPMarker.Float32; MPMarker.Float64; MPMarker.Unused] ->
      filter (fun b : bool => b) (classes MPMarker.Map16) = []).
Proof. apply (result_predicates_are_exclusive MPMarker.Map16). Defined.


